(** * Routing grid and A* pathfinder of the kicad-tools C++ router core

    A shallow embedding of [grid.hpp]/[grid.cpp] (class [Grid3D]) and of
    [pathfinder.hpp]/[pathfinder.cpp] (class [Pathfinder]), with the value
    types of [types.hpp].

    Conventions of the embedding.
    - C++ [int], [int32_t], [int16_t] and [size_t] values are integers of
      [Z].  Signed overflow is undefined behaviour in C++ and lies outside
      the model; integer division [/] is truncating division [Z.quot].
    - C++ [float] is IEEE-754 binary32, computed with the executable
      specification of the Standard Library ([SpecFloat] at precision 24,
      maximal exponent 128, rounding to nearest even); rationals of [Q]
      serve only to say what a float stands for.
    - [std::vector] is a list, read with [!!] and written with [alter] or
      [<[_:=_]>]; [std::unordered_set] and [std::unordered_map] keyed by
      (x, y, layer) are [gset] and [gmap].
    - [std::priority_queue] is a list of nodes; the element returned by
      [top] among several of minimal f-score is not determined by the
      C++ standard and is chosen by a tie-breaking function, a parameter
      of the search.
    - [while (true)] loops take a fuel argument and return [None] when it
      runs out; the fuel handed in is proved sufficient. *)

From Stdlib Require Import ZArith QArith Qminmax List Bool Lia.
From Stdlib Require Import Floats.SpecFloat.
From stdpp Require Import base list gmap.

Local Open Scope Z_scope.

(** ** binary32 arithmetic *)

Module F32.

Definition prec : Z := 24.
Definition emax : Z := 128.

Definition float : Type := spec_float.

Definition zero : float := S754_zero false.
Definition infinity : float := S754_infinity false.

(** [static_cast<float>(n)] for an integer [n]. *)
Definition of_int (n : Z) : float := binary_normalize prec emax n 0 false.

Definition add : float -> float -> float := SFadd prec emax.
Definition sub : float -> float -> float := SFsub prec emax.
Definition mul : float -> float -> float := SFmul prec emax.
Definition div : float -> float -> float := SFdiv prec emax.
Definition abs : float -> float := SFabs.
Definition ltb : float -> float -> bool := SFltb.
Definition gtb (a b : float) : bool := SFltb b a.

(** The literal [p/q] written in decimal in the source ([1.414f] is
    [ratio 1414 1000]): the binary32 value nearest to the quotient. *)
Definition ratio (p q : Z) : float := div (of_int p) (of_int q).

Definition one : float := of_int 1.

(** [std::max(a, b)] is [(a < b) ? b : a]; [std::min(a, b)] is
    [(b < a) ? b : a]. *)
Definition max (a b : float) : float := if ltb a b then b else a.
Definition min (a b : float) : float := if ltb b a then b else a.

(** [static_cast<int>(std::round(v))]: nearest integer, halves away from
    zero.  The conversion of a NaN or an infinity is undefined in C++; the
    model returns 0 there. *)
Definition round_to_int (v : float) : Z :=
  match v with
  | S754_finite s m e =>
      let mag :=
        if 0 <=? e then Z.pos m * 2 ^ e
        else (2 * Z.pos m + 2 ^ (- e)) / (2 * 2 ^ (- e)) in
      if s then - mag else mag
  | _ => 0
  end.

(** [static_cast<int>(std::ceil(v))]. *)
Definition ceil_to_int (v : float) : Z :=
  match v with
  | S754_finite s m e =>
      if 0 <=? e then (if s then - (Z.pos m * 2 ^ e) else Z.pos m * 2 ^ e)
      else if s then - (Z.pos m / 2 ^ (- e))
      else (Z.pos m + 2 ^ (- e) - 1) / 2 ^ (- e)
  | _ => 0
  end.

(** The rational a float stands for; [None] for infinities and NaN. *)
Definition to_Q (v : float) : option Q :=
  match v with
  | S754_zero _ => Some 0%Q
  | S754_finite s m e =>
      let q := (inject_Z (Z.pos m) * Qpower 2 e)%Q in
      Some (if s then Qopp q else q)
  | _ => None
  end.

End F32.

Abbreviation float := F32.float.

(** ** Value types ([types.hpp]) *)

Module GridCell.
Record t : Type := mk {
  blocked : bool;
  net : Z;
  usage_count : Z;
  history_cost : float;
  is_obstacle : bool;
  is_zone : bool;
  pad_blocked : bool;
  original_net : Z
}.

(** The default member initialisers of the struct. *)
Definition init : t :=
  mk false 0 0 F32.zero false false false 0.

Definition set_blocked (b : bool) (c : t) : t :=
  mk b (net c) (usage_count c) (history_cost c) (is_obstacle c) (is_zone c)
     (pad_blocked c) (original_net c).

Definition set_net (n : Z) (c : t) : t :=
  mk (blocked c) n (usage_count c) (history_cost c) (is_obstacle c) (is_zone c)
     (pad_blocked c) (original_net c).

Definition set_is_obstacle (b : bool) (c : t) : t :=
  mk (blocked c) (net c) (usage_count c) (history_cost c) b (is_zone c)
     (pad_blocked c) (original_net c).

Definition set_usage_count (u : Z) (c : t) : t :=
  mk (blocked c) (net c) u (history_cost c) (is_obstacle c) (is_zone c)
     (pad_blocked c) (original_net c).

Definition set_history_cost (h : float) (c : t) : t :=
  mk (blocked c) (net c) (usage_count c) h (is_obstacle c) (is_zone c)
     (pad_blocked c) (original_net c).
End GridCell.

(** ** Loops *)

(** [for (int i = lo; i <= hi; ++i) body(i)] over a state. *)
Definition for_range {St : Type} (lo hi : Z) (body : Z -> St -> St) (s : St) : St :=
  fold_left (fun s i => body i s) (seqZ lo (hi - lo + 1)) s.

(** The two nested loops over a square of offsets,
    [for dy in -k..k: for dx in -k..k: body(dx, dy)]. *)
Definition for_square {St : Type} (k : Z) (body : Z -> Z -> St -> St) (s : St) : St :=
  for_range (- k) k (fun dy => for_range (- k) k (fun dx => body dx dy)) s.

(** Bresenham's line walk of [mark_segment] and [unmark_segment]: the body
    of the [while (true)] loop, [visit] being the lambda called at every
    line cell. *)
Fixpoint bresenham_loop {St : Type} (fuel : nat) (visit : Z -> Z -> St -> St)
    (x2 y2 dx dy sx sy : Z) (x y err : Z) (s : St) : option St :=
  match fuel with
  | O => None
  | S fuel' =>
      let s := visit x y s in
      if (x =? x2) && (y =? y2) then Some s
      else
        let e2 := 2 * err in
        let '(err, x) := if e2 >? - dy then (err - dy, x + sx) else (err, x) in
        let '(err, y) := if e2 <? dx then (err + dx, y + sy) else (err, y) in
        bresenham_loop fuel' visit x2 y2 dx dy sx sy x y err s
  end.

Definition bresenham {St : Type} (visit : Z -> Z -> St -> St)
    (x1 y1 x2 y2 : Z) (s : St) : option St :=
  let dx := Z.abs (x2 - x1) in
  let dy := Z.abs (y2 - y1) in
  let sx := if x1 <? x2 then 1 else -1 in
  let sy := if y1 <? y2 then 1 else -1 in
  let err := dx - dy in
  bresenham_loop (S (Z.to_nat (dx + dy))) visit x2 y2 dx dy sx sy x1 y1 err s.

(** ** The grid ([grid.hpp], [grid.cpp]) *)

Module Grid3D.

Record t : Type := mk {
  cells_ : list GridCell.t;
  cols_ : Z;
  rows_ : Z;
  layers_ : Z;
  resolution_ : float;
  origin_x_ : float;
  origin_y_ : float;
  congestion_ : list Z;
  congestion_cols_ : Z;
  congestion_rows_ : Z
}.

(** [int congestion_size_ = 8], never assigned. *)
Definition congestion_size_ : Z := 8.

Definition new (cols rows layers : Z) (resolution origin_x origin_y : float) : t :=
  let congestion_cols := Z.max 1 (cols ÷ congestion_size_) in
  let congestion_rows := Z.max 1 (rows ÷ congestion_size_) in
  mk (replicate (Z.to_nat (cols * rows * layers)) GridCell.init)
     cols rows layers resolution origin_x origin_y
     (replicate (Z.to_nat (layers * congestion_rows * congestion_cols)) 0)
     congestion_cols congestion_rows.

Definition cols (g : t) : Z := cols_ g.
Definition rows (g : t) : Z := rows_ g.
Definition layers (g : t) : Z := layers_ g.
Definition resolution (g : t) : float := resolution_ g.

Definition index (g : t) (x y layer : Z) : Z :=
  layer * rows_ g * cols_ g + y * cols_ g + x.

(** [at(x, y, layer)] as a read.  Reading outside the vector is undefined
    in C++; the model returns the default cell. *)
Definition at_ (g : t) (x y layer : Z) : GridCell.t :=
  default GridCell.init (cells_ g !! Z.to_nat (index g x y layer)).

(** Assignments through the reference [auto& cell = at(x, y, layer)]. *)
Definition modify (f : GridCell.t -> GridCell.t) (x y layer : Z) (g : t) : t :=
  mk (alter f (Z.to_nat (index g x y layer)) (cells_ g))
     (cols_ g) (rows_ g) (layers_ g) (resolution_ g) (origin_x_ g) (origin_y_ g)
     (congestion_ g) (congestion_cols_ g) (congestion_rows_ g).

Definition is_valid (g : t) (x y layer : Z) : bool :=
  (0 <=? x) && (x <? cols_ g) && (0 <=? y) && (y <? rows_ g) &&
  (0 <=? layer) && (layer <? layers_ g).

Definition is_valid_and_free (g : t) (x y layer net : Z) : bool :=
  if negb (is_valid g x y layer) then false
  else
    let cell := at_ g x y layer in
    if negb (GridCell.blocked cell) then true
    else (GridCell.net cell =? net) && negb (GridCell.is_obstacle cell).

Definition clamp (v lo hi : Z) : Z :=
  if v <? lo then lo else if hi <? v then hi else v.

Definition world_to_grid (g : t) (x y : float) : Z * Z :=
  let gx := F32.round_to_int (F32.div (F32.sub x (origin_x_ g)) (resolution_ g)) in
  let gy := F32.round_to_int (F32.div (F32.sub y (origin_y_ g)) (resolution_ g)) in
  (clamp gx 0 (cols_ g - 1), clamp gy 0 (rows_ g - 1)).

Definition grid_to_world (g : t) (gx gy : Z) : float * float :=
  (F32.add (origin_x_ g) (F32.mul (F32.of_int gx) (resolution_ g)),
   F32.add (origin_y_ g) (F32.mul (F32.of_int gy) (resolution_ g))).

Definition mark_blocked (x y layer net : Z) (is_obstacle : bool) (g : t) : t :=
  if negb (is_valid g x y layer) then g
  else
    modify (fun cell =>
              GridCell.set_is_obstacle is_obstacle
                (GridCell.set_net net (GridCell.set_blocked true cell)))
           x y layer g.

Definition mark_rect_blocked (x1 y1 x2 y2 layer net : Z) (is_obstacle : bool)
    (g : t) : t :=
  let x1 := clamp x1 0 (cols_ g - 1) in
  let y1 := clamp y1 0 (rows_ g - 1) in
  let x2 := clamp x2 0 (cols_ g - 1) in
  let y2 := clamp y2 0 (rows_ g - 1) in
  for_range y1 y2
    (fun y => for_range x1 x2 (fun x => mark_blocked x y layer net is_obstacle)) g.

(** The flat index of the congestion block used for cell (x, y, layer). *)
Definition congestion_index (g : t) (x y layer : Z) : Z :=
  let cx := Z.min (x ÷ congestion_size_) (congestion_cols_ g - 1) in
  let cy := Z.min (y ÷ congestion_size_) (congestion_rows_ g - 1) in
  layer * congestion_rows_ g * congestion_cols_ g + cy * congestion_cols_ g + cx.

Definition get_congestion (g : t) (x y layer : Z) : float :=
  let idx := congestion_index g x y layer in
  let count := default 0 (congestion_ g !! Z.to_nat idx) in
  let max_cells := congestion_size_ * congestion_size_ in
  F32.min F32.one (F32.div (F32.of_int count) (F32.of_int max_cells)).

Definition update_congestion (x y layer delta : Z) (g : t) : t :=
  let idx := congestion_index g x y layer in
  mk (cells_ g) (cols_ g) (rows_ g) (layers_ g)
     (resolution_ g) (origin_x_ g) (origin_y_ g)
     (alter (fun c => c + delta) (Z.to_nat idx) (congestion_ g))
     (congestion_cols_ g) (congestion_rows_ g).

(** The body of the two inner loops of [mark_segment]. *)
Definition mark_segment_cell (net : Z) (nx ny layer : Z) (g : t) : t :=
  if is_valid g nx ny layer then
    let g :=
      if negb (GridCell.blocked (at_ g nx ny layer)) then
        update_congestion nx ny layer 1 (modify (GridCell.set_net net) nx ny layer g)
      else g in
    modify (GridCell.set_blocked true) nx ny layer g
  else g.

Definition mark_segment (x1 y1 x2 y2 layer net clearance_cells : Z) (g : t)
    : option t :=
  let mark_with_clearance := fun gx gy =>
    for_square clearance_cells
      (fun dx dy => mark_segment_cell net (gx + dx) (gy + dy) layer) in
  bresenham mark_with_clearance x1 y1 x2 y2 g.

(** The body of the inner loops of [mark_via]: the congestion counter is
    updated before the net is written. *)
Definition mark_via_cell (net : Z) (nx ny layer : Z) (g : t) : t :=
  if is_valid g nx ny layer then
    let g :=
      if negb (GridCell.blocked (at_ g nx ny layer)) then
        modify (GridCell.set_net net) nx ny layer (update_congestion nx ny layer 1 g)
      else g in
    modify (GridCell.set_blocked true) nx ny layer g
  else g.

Definition mark_via (x y net radius_cells : Z) (g : t) : t :=
  for_range 0 (layers_ g - 1)
    (fun layer =>
       for_square radius_cells
         (fun dx dy => mark_via_cell net (x + dx) (y + dy) layer)) g.

(** What [unmark_segment] and [unmark_via] do to a cell of the footprint. *)
Definition unmark_cell (net : Z) (cell : GridCell.t) : GridCell.t :=
  if GridCell.pad_blocked cell then
    GridCell.set_net (GridCell.original_net cell) cell
  else if GridCell.net cell =? net then
    GridCell.set_net 0 (GridCell.set_blocked false cell)
  else cell.

Definition unmark_at (net : Z) (nx ny layer : Z) (g : t) : t :=
  if is_valid g nx ny layer then modify (unmark_cell net) nx ny layer g else g.

Definition unmark_segment (x1 y1 x2 y2 layer net clearance_cells : Z) (g : t)
    : option t :=
  let unmark_with_clearance := fun gx gy =>
    for_square clearance_cells
      (fun dx dy => unmark_at net (gx + dx) (gy + dy) layer) in
  bresenham unmark_with_clearance x1 y1 x2 y2 g.

Definition unmark_via (x y net radius_cells : Z) (g : t) : t :=
  for_range 0 (layers_ g - 1)
    (fun layer =>
       for_square radius_cells
         (fun dx dy => unmark_at net (x + dx) (y + dy) layer)) g.

(** [float present_cost = present_factor * cell.usage_count]. *)
Definition get_negotiated_cost (g : t) (x y layer : Z) (present_factor : float)
    : float :=
  if negb (is_valid g x y layer) then F32.infinity
  else
    let cell := at_ g x y layer in
    if GridCell.is_obstacle cell then F32.infinity
    else
      let present_cost :=
        F32.mul present_factor (F32.of_int (GridCell.usage_count cell)) in
      F32.add present_cost (GridCell.history_cost cell).

(** [for (auto& cell : cells_)] with an assignment to [cell]. *)
Definition for_each_cell (f : GridCell.t -> GridCell.t) (g : t) : t :=
  mk (f <$> cells_ g) (cols_ g) (rows_ g) (layers_ g)
     (resolution_ g) (origin_x_ g) (origin_y_ g)
     (congestion_ g) (congestion_cols_ g) (congestion_rows_ g).

Definition reset_usage (g : t) : t :=
  for_each_cell (GridCell.set_usage_count 0) g.

(** The value an [int16_t] takes when it is assigned the [int] [n]. *)
Definition to_int16 (n : Z) : Z := (n + 32768) mod 65536 - 32768.

(** [usage_count++] on the [int16_t] field. *)
Definition increment_usage (x y layer : Z) (g : t) : t :=
  if is_valid g x y layer then
    modify (fun cell =>
              GridCell.set_usage_count (to_int16 (GridCell.usage_count cell + 1)) cell)
           x y layer g
  else g.

Definition update_history_costs (increment : float) (g : t) : t :=
  for_each_cell
    (fun cell =>
       if GridCell.usage_count cell >? 1 then
         GridCell.set_history_cost
           (F32.add (GridCell.history_cost cell)
                    (F32.mul increment (F32.of_int (GridCell.usage_count cell - 1))))
           cell
       else cell)
    g.

Definition get_total_overflow (g : t) : Z :=
  fold_left
    (fun overflow cell =>
       if GridCell.usage_count cell >? 1 then overflow + (GridCell.usage_count cell - 1)
       else overflow)
    (cells_ g) 0.

Definition total_cells (g : t) : Z := Z.of_nat (length (cells_ g)).

Definition count_blocked (g : t) : Z :=
  fold_left (fun count cell => if GridCell.blocked cell then count + 1 else count)
            (cells_ g) 0.

End Grid3D.

(** ** More value types ([types.hpp]) *)

Module DesignRules.
Record t : Type := mk {
  trace_width : float;
  trace_clearance : float;
  via_drill : float;
  via_diameter : float;
  via_clearance : float;
  grid_resolution : float;
  cost_straight : float;
  cost_turn : float;
  cost_via : float;
  cost_congestion : float;
  congestion_threshold : float
}.

(** The default member initialisers. *)
Definition init : t :=
  mk (F32.ratio 127 1000) (F32.ratio 127 1000) (F32.ratio 3 10) (F32.ratio 6 10)
     (F32.ratio 127 1000) (F32.ratio 127 1000)
     F32.one (F32.ratio 3 2) (F32.of_int 10) (F32.of_int 5) (F32.ratio 1 2).
End DesignRules.

Module AStarNode.
Record t : Type := mk {
  f_score : float;
  g_score : float;
  x : Z;
  y : Z;
  layer : Z;
  parent_idx : Z;
  via_from_parent : bool;
  dx : Z;
  dy : Z
}.
End AStarNode.

Module Segment.
Record t : Type := mk {
  x1 : float; y1 : float; x2 : float; y2 : float;
  width : float;
  layer : Z;
  net : Z
}.
End Segment.

Module Via.
Record t : Type := mk {
  x : float; y : float;
  drill : float;
  diameter : float;
  layer_from : Z;
  layer_to : Z;
  net : Z
}.
End Via.

Module RouteResult.
Record t : Type := mk {
  segments : list Segment.t;
  vias : list Via.t;
  net : Z;
  success : bool
}.
End RouteResult.

Module Neighbor.
Record t : Type := mk {
  dx : Z;
  dy : Z;
  dlayer : Z;
  cost_mult : float
}.
End Neighbor.

(** ** The open set

    [std::priority_queue<AStarNode, std::vector<AStarNode>,
    std::greater<AStarNode>>]: [push] adds a node, [top]/[pop] remove a
    node that no other node of the queue precedes ([operator>] compares
    f-scores only). *)

Module OpenSet.

Definition t : Type := list AStarNode.t.

Definition push (n : AStarNode.t) (q : t) : t := n :: q.

(** No node of [q] has an f-score below that of [n]. *)
Definition is_top (q : t) (n : AStarNode.t) : bool :=
  forallb (fun m => negb (F32.ltb (AStarNode.f_score m) (AStarNode.f_score n))) q.

(** The positions of [q] that [top] may return. *)
Definition candidates (q : t) : list nat :=
  List.filter
    (fun i => match q !! i with Some n => is_top q n | None => false end)
    (seq 0 (length q)).

(** [top] followed by [pop].  [choose] settles ties: it is consulted only
    when several positions are candidates. *)
Definition pop (choose : list AStarNode.t -> nat) (q : t)
    : option (AStarNode.t * t) :=
  let cs := candidates q in
  let i :=
    match cs with
    | [i] => i
    | _ => nth (choose q mod length cs)%nat cs 0%nat
    end in
  match q !! i with
  | Some n => Some (n, delete i q)
  | None => None
  end.

End OpenSet.

(** ** The pathfinder ([pathfinder.hpp], [pathfinder.cpp]) *)

Module Pathfinder.

(** [grid_] is the grid the member reference designates. *)
Record t : Type := mk {
  grid_ : Grid3D.t;
  rules_ : DesignRules.t;
  diagonal_routing_ : bool;
  neighbors_2d_ : list Neighbor.t;
  trace_half_width_cells_ : Z;
  via_half_cells_ : Z;
  routable_layers_ : list Z;
  last_iterations_ : Z;
  last_nodes_explored_ : Z
}.

Definition sqrt2_literal : float := F32.ratio 1414 1000.

Definition new (grid : Grid3D.t) (rules : DesignRules.t) (diagonal_routing : bool)
    : t :=
  let orthogonal :=
    [ Neighbor.mk 1 0 0 F32.one; Neighbor.mk (-1) 0 0 F32.one;
      Neighbor.mk 0 1 0 F32.one; Neighbor.mk 0 (-1) 0 F32.one ] in
  let diagonal :=
    if diagonal_routing then
      [ Neighbor.mk 1 1 0 sqrt2_literal; Neighbor.mk (-1) 1 0 sqrt2_literal;
        Neighbor.mk 1 (-1) 0 sqrt2_literal; Neighbor.mk (-1) (-1) 0 sqrt2_literal ]
    else [] in
  let trace_half_width_cells :=
    Z.max 1 (F32.ceil_to_int
               (F32.div (F32.add (F32.div (DesignRules.trace_width rules) (F32.of_int 2))
                                 (DesignRules.trace_clearance rules))
                        (Grid3D.resolution grid))) in
  let via_half_cells :=
    Z.max 1 (F32.ceil_to_int
               (F32.div (F32.add (F32.div (DesignRules.via_diameter rules) (F32.of_int 2))
                                 (DesignRules.via_clearance rules))
                        (Grid3D.resolution grid))) in
  mk grid rules diagonal_routing (orthogonal ++ diagonal)
     trace_half_width_cells via_half_cells
     (seqZ 0 (Grid3D.layers grid)) 0 0.

Definition set_routable_layers (layers : list Z) (pf : t) : t :=
  mk (grid_ pf) (rules_ pf) (diagonal_routing_ pf) (neighbors_2d_ pf)
     (trace_half_width_cells_ pf) (via_half_cells_ pf) layers
     (last_iterations_ pf) (last_nodes_explored_ pf).

Definition get_iterations (pf : t) : Z := last_iterations_ pf.
Definition get_nodes_explored (pf : t) : Z := last_nodes_explored_ pf.

(** The test the three blocking predicates apply to one cell of a
    footprint (the same text in each of them): [true] is their
    [return true]. *)
Definition cell_blocks (g : Grid3D.t) (cx cy layer net : Z) (allow_sharing : bool)
    : bool :=
  if negb (Grid3D.is_valid g cx cy layer) then true
  else
    let cell := Grid3D.at_ g cx cy layer in
    if GridCell.blocked cell then
      if allow_sharing && negb (GridCell.is_obstacle cell) then
        if (GridCell.net cell =? 0) && (GridCell.usage_count cell =? 0) then true
        else if negb (GridCell.net cell =? net) && (GridCell.usage_count cell =? 0)
        then true
        else false
      else
        if GridCell.is_obstacle cell || negb (GridCell.net cell =? net) then true
        else false
    else false.

(** The offsets [-k, ..., k] of a footprint loop. *)
Definition offsets (k : Z) : list Z := seqZ (- k) (k - - k + 1).

Definition is_trace_blocked (pf : t) (x y layer net : Z) (allow_sharing : bool)
    : bool :=
  let k := trace_half_width_cells_ pf in
  existsb (fun dy =>
    existsb (fun dx => cell_blocks (grid_ pf) (x + dx) (y + dy) layer net allow_sharing)
            (offsets k))
    (offsets k).

Definition is_diagonal_blocked (pf : t) (x y dx dy layer net : Z)
    (allow_sharing : bool) : bool :=
  if (dx =? 0) || (dy =? 0) then false
  else
    let adjacent := [ (x, y + dy); (x + dx, y) ] in
    existsb (fun '(cx, cy) => cell_blocks (grid_ pf) cx cy layer net allow_sharing)
            adjacent.

Definition is_via_blocked (pf : t) (x y net : Z) (allow_sharing : bool) : bool :=
  let k := via_half_cells_ pf in
  existsb (fun layer =>
    existsb (fun dy =>
      existsb (fun dx =>
                 cell_blocks (grid_ pf) (x + dx) (y + dy) layer net allow_sharing)
              (offsets k))
      (offsets k))
    (seqZ 0 (Grid3D.layers (grid_ pf))).

Definition heuristic (pf : t) (x y layer goal_x goal_y goal_layer : Z) : float :=
  let dx := F32.of_int (Z.abs (x - goal_x)) in
  let dy := F32.of_int (Z.abs (y - goal_y)) in
  let h :=
    if diagonal_routing_ pf then
      F32.add (F32.max dx dy)
              (F32.mul (F32.sub sqrt2_literal F32.one) (F32.min dx dy))
    else F32.add dx dy in
  let h :=
    if negb (layer =? goal_layer) then F32.add h (DesignRules.cost_via (rules_ pf))
    else h in
  F32.mul h (DesignRules.cost_straight (rules_ pf)).

Definition get_congestion_cost (pf : t) (x y layer : Z) : float :=
  let congestion := Grid3D.get_congestion (grid_ pf) x y layer in
  if F32.gtb congestion (DesignRules.congestion_threshold (rules_ pf)) then
    let excess := F32.sub congestion (DesignRules.congestion_threshold (rules_ pf)) in
    F32.mul (DesignRules.cost_congestion (rules_ pf))
            (F32.add F32.one (F32.mul excess (F32.of_int 2)))
  else F32.zero.

(** [std::find(v.begin(), v.end(), l) != v.end()]. *)
Definition contains (v : list Z) (l : Z) : bool := existsb (Z.eqb l) v.

(** *** [Pathfinder::route] *)

(** The containers local to one call of [route], with the two counters the
    call maintains in the object. *)
Record Search : Type := mkSearch {
  open_set : OpenSet.t;
  closed_set : gset (Z * Z * Z);
  g_scores : gmap (Z * Z * Z) float;
  closed_list : list AStarNode.t;
  iterations : Z;
  nodes_explored : Z
}.

(** How the [while] loop of [route] is left. *)
Inductive Outcome : Type :=
  | Found (current_idx : Z) (st : Search)
  | OpenSetExhausted (st : Search)
  | IterationCapReached (st : Search).

Definition final_state (o : Outcome) : Search :=
  match o with
  | Found _ st | OpenSetExhausted st | IterationCapReached st => st
  end.

Section Route.

(** The choice of [top] among nodes of equal f-score, at each iteration. *)
Variable choose : Z -> list AStarNode.t -> nat.

Variable pf : t.
Variables (start_x start_y : float) (start_layer : Z).
Variables (end_x end_y : float) (end_layer : Z).
Variable net : Z.
Variables start_layers end_layers : list Z.
Variable negotiated_mode : bool.
Variables present_cost_factor weight : float.

Definition start_cell : Z * Z := Grid3D.world_to_grid (grid_ pf) start_x start_y.
Definition end_cell : Z * Z := Grid3D.world_to_grid (grid_ pf) end_x end_y.

Definition valid_start_layers : list Z :=
  match start_layers with [] => [start_layer] | _ => start_layers end.
Definition valid_end_layers : list Z :=
  match end_layers with [] => [end_layer] | _ => end_layers end.

(** [valid_end_layers[0]]. *)
Definition first_end_layer : Z := default 0 (head valid_end_layers).

Definition start_node (sl : Z) : AStarNode.t :=
  let h := heuristic pf (fst start_cell) (snd start_cell) sl
                     (fst end_cell) (snd end_cell) first_end_layer in
  AStarNode.mk h F32.zero (fst start_cell) (snd start_cell) sl (-1) false 0 0.

Definition initial_search : Search :=
  fold_left
    (fun st sl =>
       mkSearch (OpenSet.push (start_node sl) (open_set st))
                (closed_set st)
                (<[(fst start_cell, snd start_cell, sl) := F32.zero]> (g_scores st))
                (closed_list st) (iterations st) (nodes_explored st))
    valid_start_layers
    (mkSearch [] ∅ ∅ [] 0 0).

Definition max_iterations : Z :=
  Grid3D.cols (grid_ pf) * Grid3D.rows (grid_ pf) * 4.

Definition goal_test (current : AStarNode.t) : bool :=
  (AStarNode.x current =? fst end_cell) && (AStarNode.y current =? snd end_cell)
  && contains valid_end_layers (AStarNode.layer current).

(** The tests of a 2-D move that precede the closed-set lookup: [true] is
    one of their [continue]s. *)
Definition step_blocked (current : AStarNode.t) (nb : Neighbor.t) : bool :=
  let dx := Neighbor.dx nb in
  let dy := Neighbor.dy nb in
  let nx := AStarNode.x current + dx in
  let ny := AStarNode.y current + dy in
  let nlayer := AStarNode.layer current in
  if negb (Grid3D.is_valid (grid_ pf) nx ny nlayer) then true
  else if negb (dx =? 0) && negb (dy =? 0)
          && is_diagonal_blocked pf (AStarNode.x current) (AStarNode.y current)
                                 dx dy nlayer net negotiated_mode
  then true
  else
    let cell := Grid3D.at_ (grid_ pf) nx ny nlayer in
    if GridCell.blocked cell then
      let is_start :=
        (nx =? fst start_cell) && (ny =? snd start_cell)
        && contains valid_start_layers nlayer in
      let is_end :=
        (nx =? fst end_cell) && (ny =? snd end_cell)
        && contains valid_end_layers nlayer in
      if is_start || is_end then negb (GridCell.net cell =? net)
      else is_trace_blocked pf nx ny nlayer net negotiated_mode
    else false.

Definition negotiated_cost (x y layer : Z) : float :=
  if negotiated_mode then
    Grid3D.get_negotiated_cost (grid_ pf) x y layer present_cost_factor
  else F32.zero.

(** [new_g] of a 2-D move. *)
Definition step_g (current : AStarNode.t) (nb : Neighbor.t) : float :=
  let dx := Neighbor.dx nb in
  let dy := Neighbor.dy nb in
  let nx := AStarNode.x current + dx in
  let ny := AStarNode.y current + dy in
  let nlayer := AStarNode.layer current in
  let turn_cost :=
    if negb (AStarNode.dx current =? 0) || negb (AStarNode.dy current =? 0) then
      if negb (AStarNode.dx current =? dx) || negb (AStarNode.dy current =? dy)
      then DesignRules.cost_turn (rules_ pf)
      else F32.zero
    else F32.zero in
  let congestion_cost := get_congestion_cost pf nx ny nlayer in
  F32.add
    (F32.add
       (F32.add
          (F32.add (AStarNode.g_score current)
                   (F32.mul (Neighbor.cost_mult nb)
                            (DesignRules.cost_straight (rules_ pf))))
          turn_cost)
       congestion_cost)
    (negotiated_cost nx ny nlayer).

(** The end of both expansions: record a better g-score and push. *)
Definition relax (n : AStarNode.t) (st : Search) : Search :=
  let key := (AStarNode.x n, AStarNode.y n, AStarNode.layer n) in
  let better :=
    match g_scores st !! key with
    | None => true
    | Some g => F32.ltb (AStarNode.g_score n) g
    end in
  if better then
    mkSearch (OpenSet.push n (open_set st)) (closed_set st)
             (<[key := AStarNode.g_score n]> (g_scores st))
             (closed_list st) (iterations st) (nodes_explored st)
  else st.

Definition f_of (new_g : float) (x y layer : Z) : float :=
  let h := heuristic pf x y layer (fst end_cell) (snd end_cell) first_end_layer in
  F32.add new_g (F32.mul weight h).

Definition expand_neighbor (current : AStarNode.t) (current_idx : Z)
    (st : Search) (nb : Neighbor.t) : Search :=
  let nx := AStarNode.x current + Neighbor.dx nb in
  let ny := AStarNode.y current + Neighbor.dy nb in
  let nlayer := AStarNode.layer current in
  if step_blocked current nb then st
  else if bool_decide ((nx, ny, nlayer) ∈ closed_set st) then st
  else
    let new_g := step_g current nb in
    relax (AStarNode.mk (f_of new_g nx ny nlayer) new_g nx ny nlayer current_idx
                        false (Neighbor.dx nb) (Neighbor.dy nb)) st.

(** The tests of a layer change that precede the closed-set lookup. *)
Definition via_blocked (current : AStarNode.t) (new_layer : Z) : bool :=
  if new_layer =? AStarNode.layer current then true
  else is_via_blocked pf (AStarNode.x current) (AStarNode.y current) net
                      negotiated_mode.

(** [new_g] of a layer change. *)
Definition via_g (current : AStarNode.t) (new_layer : Z) : float :=
  let congestion_cost :=
    get_congestion_cost pf (AStarNode.x current) (AStarNode.y current) new_layer in
  F32.add
    (F32.add (F32.add (AStarNode.g_score current) (DesignRules.cost_via (rules_ pf)))
             congestion_cost)
    (negotiated_cost (AStarNode.x current) (AStarNode.y current) new_layer).

Definition expand_via (current : AStarNode.t) (current_idx : Z)
    (st : Search) (new_layer : Z) : Search :=
  let x := AStarNode.x current in
  let y := AStarNode.y current in
  if via_blocked current new_layer then st
  else if bool_decide ((x, y, new_layer) ∈ closed_set st) then st
  else
    let new_g := via_g current new_layer in
    relax (AStarNode.mk (f_of new_g x y new_layer) new_g x y new_layer current_idx
                        true (AStarNode.dx current) (AStarNode.dy current)) st.

(** The [while] loop; [fuel] is [max_iterations - last_iterations_], the
    number of iterations the second conjunct of the loop condition still
    allows. *)
Fixpoint search_loop (fuel : nat) (st : Search) : Outcome :=
  match open_set st with
  | [] => OpenSetExhausted st
  | _ =>
    match fuel with
    | O => IterationCapReached st
    | S fuel' =>
      match OpenSet.pop (choose (iterations st)) (open_set st) with
      | None => OpenSetExhausted st
      | Some (current, rest) =>
        let key := (AStarNode.x current, AStarNode.y current,
                    AStarNode.layer current) in
        if bool_decide (key ∈ closed_set st) then
          search_loop fuel'
            (mkSearch rest (closed_set st) (g_scores st) (closed_list st)
                      (iterations st + 1) (nodes_explored st))
        else
          let current_idx := Z.of_nat (length (closed_list st)) in
          let st :=
            mkSearch rest ({[key]} ∪ closed_set st) (g_scores st)
                     (closed_list st ++ [current])
                     (iterations st + 1) (nodes_explored st + 1) in
          if goal_test current then Found current_idx st
          else
            let st := fold_left (expand_neighbor current current_idx)
                                (neighbors_2d_ pf) st in
            let st := fold_left (expand_via current current_idx)
                                (routable_layers_ pf) st in
            search_loop fuel' st
      end
    end
  end.

Definition search : Outcome :=
  search_loop (Z.to_nat max_iterations) initial_search.

(** *** [Pathfinder::reconstruct_path] *)

(** The first loop: follow the parent indices from [idx]; the entries are
    (world x, world y, layer, via_from_parent), goal first. *)
Fixpoint walk_parents (fuel : nat) (closed : list AStarNode.t) (idx : Z)
    (path : list (float * float * Z * bool)) : option (list (float * float * Z * bool)) :=
  if (0 <=? idx) && (idx <? Z.of_nat (length closed)) then
    match fuel with
    | O => None
    | S fuel' =>
      match closed !! Z.to_nat idx with
      | Some node =>
          let '(wx, wy) :=
            Grid3D.grid_to_world (grid_ pf) (AStarNode.x node) (AStarNode.y node) in
          walk_parents fuel' closed (AStarNode.parent_idx node)
            (path ++ [(wx, wy, AStarNode.layer node, AStarNode.via_from_parent node)])
      | None => Some path
      end
    end
  else Some path.

Definition moved (ax ay bx by_ : float) : bool :=
  F32.gtb (F32.abs (F32.sub ax bx)) (F32.ratio 1 100)
  || F32.gtb (F32.abs (F32.sub ay by_)) (F32.ratio 1 100).

(** The state of the second loop: the current point and layer, and the
    result under construction. *)
Record Pen : Type := mkPen {
  current_x : float;
  current_y : float;
  current_layer : Z;
  segments : list Segment.t;
  vias : list Via.t
}.

Definition emit (pen : Pen) (entry : float * float * Z * bool) : Pen :=
  let '(wx, wy, layer, is_via) := entry in
  if is_via then
    let via :=
      Via.mk (current_x pen) (current_y pen)
             (DesignRules.via_drill (rules_ pf)) (DesignRules.via_diameter (rules_ pf))
             (current_layer pen) layer net in
    mkPen (current_x pen) (current_y pen) layer (segments pen) (vias pen ++ [via])
  else if moved wx wy (current_x pen) (current_y pen) then
    let seg :=
      Segment.mk (current_x pen) (current_y pen) wx wy
                 (DesignRules.trace_width (rules_ pf)) layer net in
    mkPen wx wy layer (segments pen ++ [seg]) (vias pen)
  else pen.

Definition reconstruct_path (closed : list AStarNode.t) (end_idx : Z)
    : option RouteResult.t :=
  match walk_parents (length closed) closed end_idx [] with
  | None => None
  | Some rpath =>
    let path := rev rpath in
    match path with
    | [] | [_] => Some (RouteResult.mk [] [] net true)
    | (_, _, layer0, _) :: _ =>
      let pen := fold_left emit path (mkPen start_x start_y layer0 [] []) in
      let segments :=
        if moved end_x end_y (current_x pen) (current_y pen) then
          segments pen ++
          [Segment.mk (current_x pen) (current_y pen) end_x end_y
                      (DesignRules.trace_width (rules_ pf)) (current_layer pen) net]
        else segments pen in
      Some (RouteResult.mk segments (vias pen) net true)
    end
  end.

Definition with_statistics (st : Search) : t :=
  mk (grid_ pf) (rules_ pf) (diagonal_routing_ pf) (neighbors_2d_ pf)
     (trace_half_width_cells_ pf) (via_half_cells_ pf) (routable_layers_ pf)
     (iterations st) (nodes_explored st).

(** [route]: the result and the pathfinder after the call; [None] stands
    for a call that does not return. *)
Definition route : option (RouteResult.t * t) :=
  match search with
  | Found current_idx st =>
      match reconstruct_path (closed_list st) current_idx with
      | Some result =>
          Some (RouteResult.mk (RouteResult.segments result) (RouteResult.vias result)
                               (RouteResult.net result) true,
                with_statistics st)
      | None => None
      end
  | OpenSetExhausted st | IterationCapReached st =>
      Some (RouteResult.mk [] [] net false, with_statistics st)
  end.

End Route.

End Pathfinder.

(** ** Vocabulary of the properties *)

Module GridSpec.

(** The grids the constructor builds, up to the contents of the cells and
    of the counters. *)
Record wf (g : Grid3D.t) : Prop := mk_wf {
  wf_cols : 0 <= Grid3D.cols_ g;
  wf_rows : 0 <= Grid3D.rows_ g;
  wf_layers : 0 <= Grid3D.layers_ g;
  wf_cells :
    Z.of_nat (length (Grid3D.cells_ g))
    = Grid3D.cols_ g * Grid3D.rows_ g * Grid3D.layers_ g;
  wf_congestion_cols :
    Grid3D.congestion_cols_ g = Z.max 1 (Grid3D.cols_ g ÷ Grid3D.congestion_size_);
  wf_congestion_rows :
    Grid3D.congestion_rows_ g = Z.max 1 (Grid3D.rows_ g ÷ Grid3D.congestion_size_);
  wf_congestion :
    Z.of_nat (length (Grid3D.congestion_ g))
    = Grid3D.layers_ g * Grid3D.congestion_rows_ g * Grid3D.congestion_cols_ g
}.

(** The visitor that records the cells of the line. *)
Definition record_point (x y : Z) (acc : list (Z * Z)) : list (Z * Z) :=
  acc ++ [(x, y)].

(** The cells of the line [mark_segment] and [unmark_segment] walk, in
    the order of the walk. *)
Definition line_points (x1 y1 x2 y2 : Z) : option (list (Z * Z)) :=
  bresenham record_point x1 y1 x2 y2 [].

(** (x, y) lies in the square of radius [k] around (gx, gy). *)
Definition in_square (k gx gy x y : Z) : Prop :=
  gx - k <= x <= gx + k /\ gy - k <= y <= gy + k.

(** (x, y) lies in the inflated footprint of the segment. *)
Definition segment_covers (x1 y1 x2 y2 k x y : Z) : Prop :=
  exists pts gx gy,
    line_points x1 y1 x2 y2 = Some pts /\ (gx, gy) ∈ pts /\ in_square k gx gy x y.

(** All cell coordinates (x, y, layer) of the grid. *)
Definition all_cells (g : Grid3D.t) : list (Z * Z * Z) :=
  layer ← seqZ 0 (Grid3D.layers_ g);
  y ← seqZ 0 (Grid3D.rows_ g);
  x ← seqZ 0 (Grid3D.cols_ g);
  [(x, y, layer)].

(** The cell (x, y, layer) is counted in block [j], is unblocked in [g]
    and blocked in [g']. *)
Definition newly_blocked_in (g g' : Grid3D.t) (j : nat) (p : Z * Z * Z) : bool :=
  let '(x, y, layer) := p in
  bool_decide (Z.to_nat (Grid3D.congestion_index g x y layer) = j)
  && negb (GridCell.blocked (Grid3D.at_ g x y layer))
  && GridCell.blocked (Grid3D.at_ g' x y layer).

(** The number of cells of block [j] that are unblocked in [g] and
    blocked in [g']. *)
Definition newly_blocked (g g' : Grid3D.t) (j : nat) : Z :=
  Z.of_nat (length (List.filter (newly_blocked_in g g' j) (all_cells g))).

(** The congestion of a cell as the sentence of the specification reads:
    the counter of block (layer, y/B, x/B) in the row-major block grid,
    over B², capped at 1. *)
Definition get_congestion_unclamped (g : Grid3D.t) (x y layer : Z) : float :=
  let cx := x ÷ Grid3D.congestion_size_ in
  let cy := y ÷ Grid3D.congestion_size_ in
  let idx :=
    layer * Grid3D.congestion_rows_ g * Grid3D.congestion_cols_ g
    + cy * Grid3D.congestion_cols_ g + cx in
  let count := default 0 (Grid3D.congestion_ g !! Z.to_nat idx) in
  F32.min F32.one
          (F32.div (F32.of_int count)
                   (F32.of_int (Grid3D.congestion_size_ * Grid3D.congestion_size_))).

(** What [get_congestion] computes from a counter. *)
Definition congestion_value (count : Z) : float :=
  F32.min F32.one
          (F32.div (F32.of_int count)
                   (F32.of_int (Grid3D.congestion_size_ * Grid3D.congestion_size_))).

(** [congestion_value count] stands for the rational min(1, count/64). *)
Definition congestion_value_exact (count : Z) : bool :=
  match F32.to_Q (congestion_value count) with
  | Some q => Qeq_bool q (Qmin 1 (count # 64))
  | None => false
  end.

(** Marking a segment and ripping it up again, on the cells of its
    footprint, as the specification states it: a cell that was unblocked
    and is not pad-blocked ends unblocked with net 0, and a cell that was
    blocked by another net keeps its blocked flag and its net. *)
Definition ripup_inverts_marking (g : Grid3D.t) (x1 y1 x2 y2 layer net k : Z)
    : Prop :=
  exists g1 g2,
    Grid3D.mark_segment x1 y1 x2 y2 layer net k g = Some g1 /\
    Grid3D.unmark_segment x1 y1 x2 y2 layer net k g1 = Some g2 /\
    forall x y,
      Grid3D.is_valid g x y layer = true ->
      segment_covers x1 y1 x2 y2 k x y ->
      let c := Grid3D.at_ g x y layer in
      let c2 := Grid3D.at_ g2 x y layer in
      (GridCell.blocked c = false -> GridCell.pad_blocked c = false ->
       GridCell.blocked c2 = false /\ GridCell.net c2 = 0) /\
      (GridCell.blocked c = true -> GridCell.net c <> net ->
       GridCell.blocked c2 = GridCell.blocked c /\ GridCell.net c2 = GridCell.net c).

(** *** Vocabulary of the proofs *)

(** The offsets of a square footprint, in the order of the two loops. *)
Definition square (k : Z) : list (Z * Z) :=
  dy ← Pathfinder.offsets k; dx ← Pathfinder.offsets k; [(dx, dy)].

(** The dimensions of a grid: what [is_valid], [index] and
    [congestion_index] depend on. *)
Definition shape (g : Grid3D.t) : Z * Z * Z * Z * Z :=
  (Grid3D.cols_ g, Grid3D.rows_ g, Grid3D.layers_ g,
   Grid3D.congestion_cols_ g, Grid3D.congestion_rows_ g).

(** [V x y layer] applies [f] to the cell (x, y, layer) when it is valid,
    and leaves every other cell and the dimensions alone. *)
Definition acts_as (f : GridCell.t -> GridCell.t)
    (V : Z -> Z -> Z -> Grid3D.t -> Grid3D.t) : Prop :=
  forall g x y layer,
    wf g ->
    wf (V x y layer g) /\ shape (V x y layer g) = shape g /\
    forall x' y' layer',
      Grid3D.is_valid g x' y' layer' = true ->
      Grid3D.at_ (V x y layer g) x' y' layer'
      = if decide ((x, y, layer) = (x', y', layer'))
        then f (Grid3D.at_ g x' y' layer') else Grid3D.at_ g x' y' layer'.

Definition visit_all (V : Z -> Z -> Z -> Grid3D.t -> Grid3D.t)
    (ps : list (Z * Z * Z)) (g : Grid3D.t) : Grid3D.t :=
  fold_left (fun g p => V p.1.1 p.1.2 p.2 g) ps g.

(** What marking does to a cell of the footprint. *)
Definition mark_cell (net : Z) (c : GridCell.t) : GridCell.t :=
  GridCell.set_blocked true (if GridCell.blocked c then c else GridCell.set_net net c).

(** The cells the inner loops visit along a line, in order. *)
Definition segment_cells (pts : list (Z * Z)) (k layer : Z) : list (Z * Z * Z) :=
  p ← pts; d ← square k; [(p.1 + d.1, p.2 + d.2, layer)].

(** The cells the loops of [mark_via] and [unmark_via] visit, in order. *)
Definition via_cells (g : Grid3D.t) (x y k : Z) : list (Z * Z * Z) :=
  layer ← seqZ 0 (Grid3D.layers_ g - 1 - 0 + 1);
  d ← square k; [(x + d.1, y + d.2, layer)].

(** [V] counts a cell in its congestion block exactly when it blocks it. *)
Definition counts_blocking (V : Z -> Z -> Z -> Grid3D.t -> Grid3D.t) : Prop :=
  forall g x y layer,
    Grid3D.congestion_ (V x y layer g)
    = if Grid3D.is_valid g x y layer
         && negb (GridCell.blocked (Grid3D.at_ g x y layer))
      then alter (fun c => c + 1) (Z.to_nat (Grid3D.congestion_index g x y layer))
                 (Grid3D.congestion_ g)
      else Grid3D.congestion_ g.

(** The invariant of a marking pass started in [g0]. *)
Record accounted (g0 g : Grid3D.t) : Prop := mk_accounted {
  acc_wf : wf g;
  acc_shape : shape g = shape g0;
  acc_mono : forall x y layer,
    Grid3D.is_valid g0 x y layer = true ->
    GridCell.blocked (Grid3D.at_ g0 x y layer) = true ->
    GridCell.blocked (Grid3D.at_ g x y layer) = true;
  acc_count : forall j count,
    Grid3D.congestion_ g0 !! j = Some count ->
    Grid3D.congestion_ g !! j = Some (count + newly_blocked g0 g j)
}.

End GridSpec.

Module RouteSpec.

Section Route.

Variable pf : Pathfinder.t.
Variables (start_x start_y : float) (start_layer : Z).
Variables (end_x end_y : float) (end_layer : Z).
Variable net : Z.
Variables start_layers end_layers : list Z.
Variable negotiated_mode : bool.
Variable present_cost_factor : float.

Let start_cell := Pathfinder.start_cell pf start_x start_y.
Let end_cell := Pathfinder.end_cell pf end_x end_y.
Let valid_start_layers := Pathfinder.valid_start_layers start_layer start_layers.
Let valid_end_layers := Pathfinder.valid_end_layers end_layer end_layers.

(** *** Clearance of a route *)

(** The grid cells a segment passes over: the line between the cells of
    its two end points. *)
Definition segment_points (seg : Segment.t) : list (Z * Z) :=
  let a := Grid3D.world_to_grid (Pathfinder.grid_ pf) (Segment.x1 seg) (Segment.y1 seg) in
  let b := Grid3D.world_to_grid (Pathfinder.grid_ pf) (Segment.x2 seg) (Segment.y2 seg) in
  default [] (GridSpec.line_points a.1 a.2 b.1 b.2).

(** The cell is free, belongs to the routed net, or is a start or end pad
    cell of the routed net. *)
Definition cell_tolerated (x y layer : Z) : bool :=
  let cell := Grid3D.at_ (Pathfinder.grid_ pf) x y layer in
  let is_start :=
    (x =? start_cell.1) && (y =? start_cell.2)
    && Pathfinder.contains valid_start_layers layer in
  let is_end :=
    (x =? end_cell.1) && (y =? end_cell.2)
    && Pathfinder.contains valid_end_layers layer in
  negb (GridCell.blocked cell)
  || (GridCell.net cell =? net)
  || ((is_start || is_end) && (GridCell.net cell =? net)).

(** Every cell of the grid within Chebyshev distance
    [trace_half_width_cells_] of (px, py) on the layer is tolerated. *)
Definition footprint_clear (px py layer : Z) : bool :=
  let k := Pathfinder.trace_half_width_cells_ pf in
  forallb (fun dy =>
    forallb (fun dx =>
               negb (Grid3D.is_valid (Pathfinder.grid_ pf) (px + dx) (py + dy) layer)
               || cell_tolerated (px + dx) (py + dy) layer)
            (Pathfinder.offsets k))
    (Pathfinder.offsets k).

(** The footprint is clear at every grid point of every segment, the
    start and end cells of the route apart. *)
Definition clearance_enforced (result : RouteResult.t) : bool :=
  forallb (fun seg =>
    forallb (fun p =>
               ((p.1 =? start_cell.1) && (p.2 =? start_cell.2))
               || ((p.1 =? end_cell.1) && (p.2 =? end_cell.2))
               || footprint_clear p.1 p.2 (Segment.layer seg))
            (segment_points seg))
    (RouteResult.segments result).

(** *** Legal paths and their cost *)

(** A move of the search: the 2-D offset at position [i] of
    [neighbors_2d_], or a via to a layer of [routable_layers_]. *)
Inductive Move : Type :=
  | Step (i : nat)
  | ChangeLayer (new_layer : Z).

(** The position, direction and g-score a move leads to from [current],
    as [route] computes them; [None] when [route] skips the move for a
    reason other than the closed set. *)
Definition apply_move (current : AStarNode.t) (m : Move) : option AStarNode.t :=
  match m with
  | Step i =>
      match Pathfinder.neighbors_2d_ pf !! i with
      | None => None
      | Some nb =>
          if Pathfinder.step_blocked pf start_x start_y start_layer end_x end_y
               end_layer net start_layers end_layers negotiated_mode current nb
          then None
          else
            Some (AStarNode.mk F32.zero
                    (Pathfinder.step_g pf negotiated_mode present_cost_factor current nb)
                    (AStarNode.x current + Neighbor.dx nb)
                    (AStarNode.y current + Neighbor.dy nb)
                    (AStarNode.layer current) (-1) false
                    (Neighbor.dx nb) (Neighbor.dy nb))
      end
  | ChangeLayer new_layer =>
      if negb (Pathfinder.contains (Pathfinder.routable_layers_ pf) new_layer)
         || Pathfinder.via_blocked pf net negotiated_mode current new_layer
      then None
      else
        Some (AStarNode.mk F32.zero
                (Pathfinder.via_g pf negotiated_mode present_cost_factor current new_layer)
                (AStarNode.x current) (AStarNode.y current) new_layer (-1) true
                (AStarNode.dx current) (AStarNode.dy current))
  end.

Fixpoint follow (current : AStarNode.t) (moves : list Move) : option AStarNode.t :=
  match moves with
  | [] => Some current
  | m :: moves =>
      match apply_move current m with
      | Some next => follow next moves
      | None => None
      end
  end.

(** The total cost of the path that starts at the start cell on layer
    [sl] and makes [moves], when [sl] is a valid start layer, every move
    is allowed and the path ends at the end cell on a valid end layer. *)
Definition legal_path_cost (sl : Z) (moves : list Move) : option float :=
  if Pathfinder.contains valid_start_layers sl then
    match follow (AStarNode.mk F32.zero F32.zero start_cell.1 start_cell.2 sl (-1)
                               false 0 0) moves with
    | Some n =>
        if Pathfinder.goal_test pf end_x end_y end_layer end_layers n
        then Some (AStarNode.g_score n) else None
    | None => None
    end
  else None.

(** No legal path costs less than [g]. *)
Definition minimal_cost (g : float) : Prop :=
  forall sl moves c, legal_path_cost sl moves = Some c -> F32.ltb c g = false.

End Route.

(** *** Vocabulary of the proofs *)

Section Realizable.
Variable pf : Pathfinder.t.
Variables (start_x start_y : float) (start_layer : Z).
Variables (end_x end_y : float) (end_layer : Z).
Variable net : Z.
Variables start_layers end_layers : list Z.
Variable negotiated_mode : bool.
Variable present_cost_factor : float.

(** Two nodes at the same position, with the same direction and g-score. *)
Definition same_state (n n' : AStarNode.t) : Prop :=
  AStarNode.x n = AStarNode.x n' /\ AStarNode.y n = AStarNode.y n' /\
  AStarNode.layer n = AStarNode.layer n' /\
  AStarNode.dx n = AStarNode.dx n' /\ AStarNode.dy n = AStarNode.dy n' /\
  AStarNode.g_score n = AStarNode.g_score n'.

(** The node stands at the end of a path of allowed moves from the start
    cell on a valid start layer, with the cost of that path as g-score. *)
Definition realizable (n : AStarNode.t) : Prop :=
  exists sl moves n',
    Pathfinder.contains (Pathfinder.valid_start_layers start_layer start_layers) sl = true /\
    follow pf start_x start_y start_layer end_x end_y end_layer net start_layers
      end_layers negotiated_mode present_cost_factor
      (AStarNode.mk F32.zero F32.zero (Pathfinder.start_cell pf start_x start_y).1
                    (Pathfinder.start_cell pf start_x start_y).2 sl (-1) false 0 0)
      moves = Some n' /\
    same_state n n'.

Definition all_realizable (st : Pathfinder.Search) : Prop :=
  forall n, n ∈ Pathfinder.open_set st \/ n ∈ Pathfinder.closed_list st -> realizable n.
End Realizable.

(** What the expansions of a node leave alone: the closed containers and
    the counters; the nodes they push have [idx] as parent. *)
Definition extends (idx : Z) (st st' : Pathfinder.Search) : Prop :=
  Pathfinder.closed_set st' = Pathfinder.closed_set st /\
  Pathfinder.closed_list st' = Pathfinder.closed_list st /\
  Pathfinder.iterations st' = Pathfinder.iterations st /\
  Pathfinder.nodes_explored st' = Pathfinder.nodes_explored st /\
  forall n, n ∈ Pathfinder.open_set st' -> n ∈ Pathfinder.open_set st \/ AStarNode.parent_idx n = idx.

(** Parents precede their children in the closed list. *)
Definition parents_before (closed : list AStarNode.t) : Prop :=
  forall i n, closed !! i = Some n -> AStarNode.parent_idx n < Z.of_nat i.

Definition parents_ok (st : Pathfinder.Search) : Prop :=
  parents_before (Pathfinder.closed_list st) /\
  forall n, n ∈ Pathfinder.open_set st ->
    AStarNode.parent_idx n < Z.of_nat (length (Pathfinder.closed_list st)).

End RouteSpec.

(** ** Grids and calls used below *)

Module Scenario.

(** The default design rules, for a grid of resolution 1. *)
Definition rules : DesignRules.t :=
  DesignRules.mk (F32.ratio 127 1000) (F32.ratio 127 1000) (F32.ratio 3 10)
                 (F32.ratio 6 10) (F32.ratio 127 1000) F32.one
                 F32.one (F32.ratio 3 2) (F32.of_int 10) (F32.of_int 5)
                 (F32.ratio 1 2).

(** A 1 x 1 grid whose only cell is a pad of net 3 that net 5 was marked
    over. *)
Definition pad_grid : Grid3D.t :=
  Grid3D.mk [GridCell.mk true 5 0 F32.zero false false true 3]
            1 1 1 F32.one F32.zero F32.zero [0] 1 1.

(** A 3 x 3 grid whose centre is a static obstacle of no net. *)
Definition obstacle_grid : Grid3D.t :=
  Grid3D.mark_blocked 1 1 0 0 true (Grid3D.new 3 3 1 F32.one F32.zero F32.zero).

(** A 20 x 20 grid (2 x 2 congestion blocks) with a via of net 1 marked at
    (12, 4) with radius 2. *)
Definition via_grid : Grid3D.t :=
  Grid3D.mark_via 12 4 1 2 (Grid3D.new 20 20 1 F32.one F32.zero F32.zero).

(** A 4 x 2 grid of resolution 1 whose row y = 1 is a static obstacle, and
    a pathfinder with [rules] on it. *)
Definition corridor_grid : Grid3D.t :=
  Grid3D.mark_rect_blocked 0 1 3 1 0 0 true
    (Grid3D.new 4 2 1 F32.one F32.zero F32.zero).

Definition corridor_pathfinder : Pathfinder.t :=
  Pathfinder.new corridor_grid rules true.

(** Net 7 from (0.0, 0.0) to (3.0, 0.0) on layer 0, every other argument
    at its default. *)
Definition corridor_route (choose : Z -> list AStarNode.t -> nat)
    : option (RouteResult.t * Pathfinder.t) :=
  Pathfinder.route choose corridor_pathfinder
    F32.zero F32.zero 0 (F32.of_int 3) F32.zero 0 7 [] [] false F32.zero F32.one.

(** A 4 x 5 grid of resolution 1 with static obstacles that leave two
    ways from (0, 1) to (3, 3), and from there one step to (3, 4):
<<
      x  0 1 2 3
    y=0  . . . .
    y=1  S # # .
    y=2  . . # .
    y=3  # . . X
    y=4  # # # G
>>
    and a pathfinder with [rules] and no diagonal moves. *)
Definition maze_grid : Grid3D.t :=
  fold_left (fun g p => Grid3D.mark_blocked p.1 p.2 0 0 true g)
            [(1, 1); (2, 1); (2, 2); (0, 3); (0, 4); (1, 4); (2, 4)]
            (Grid3D.new 4 5 1 F32.one F32.zero F32.zero).

Definition maze_pathfinder : Pathfinder.t :=
  Pathfinder.new maze_grid rules false.

(** Net 7 from (0.0, 1.0) to (3.0, 4.0) on layer 0, weight 1, negotiated
    mode off. *)
Definition maze_search (choose : Z -> list AStarNode.t -> nat) : Pathfinder.Outcome :=
  Pathfinder.search choose maze_pathfinder
    F32.zero F32.one 0 (F32.of_int 3) (F32.of_int 4) 0 7 [] [] false F32.zero F32.one.

(** Up, three times right, four times down. *)
Definition maze_detour : list RouteSpec.Move :=
  [RouteSpec.Step 3; RouteSpec.Step 0; RouteSpec.Step 0; RouteSpec.Step 0;
   RouteSpec.Step 2; RouteSpec.Step 2; RouteSpec.Step 2; RouteSpec.Step 2].

(** Down, right, down, twice right, down: the path the search returns. *)
Definition maze_found : list RouteSpec.Move :=
  [RouteSpec.Step 2; RouteSpec.Step 0; RouteSpec.Step 2; RouteSpec.Step 0;
   RouteSpec.Step 0; RouteSpec.Step 2].

(** A 3 x 1 grid whose middle cell is a static obstacle. *)
Definition walled_grid : Grid3D.t :=
  Grid3D.mark_blocked 1 0 0 0 true (Grid3D.new 3 1 1 F32.one F32.zero F32.zero).

Definition walled_pathfinder : Pathfinder.t :=
  Pathfinder.new walled_grid rules true.

End Scenario.

(** ** Vocabulary of further properties *)

Module LineSpec.

(** Two distinct cells that touch by a side or by a corner. *)
Definition adjacent (p q : Z * Z) : Prop :=
  Z.abs (q.1 - p.1) <= 1 /\ Z.abs (q.2 - p.2) <= 1 /\ p <> q.

(** Every cell of the list is adjacent to the next one. *)
Fixpoint stepwise (pts : list (Z * Z)) : Prop :=
  match pts with
  | p :: (q :: _) as rest => adjacent p q /\ stepwise rest
  | _ => True
  end.

(** The cell lies in the bounding box of (x1, y1) and (x2, y2). *)
Definition in_box (x1 y1 x2 y2 : Z) (p : Z * Z) : Prop :=
  Z.min x1 x2 <= p.1 <= Z.max x1 x2 /\ Z.min y1 y2 <= p.2 <= Z.max y1 y2.

End LineSpec.

Module FrameSpec.

(** The fields no marking or rip-up operation writes are the same in both
    cells. *)
Definition same_bookkeeping (c c' : GridCell.t) : Prop :=
  GridCell.usage_count c' = GridCell.usage_count c /\
  GridCell.history_cost c' = GridCell.history_cost c /\
  GridCell.is_obstacle c' = GridCell.is_obstacle c /\
  GridCell.is_zone c' = GridCell.is_zone c /\
  GridCell.pad_blocked c' = GridCell.pad_blocked c /\
  GridCell.original_net c' = GridCell.original_net c.

(** The two grids have the same dimensions, resolution and origin. *)
Definition same_frame (g g' : Grid3D.t) : Prop :=
  Grid3D.cols_ g' = Grid3D.cols_ g /\ Grid3D.rows_ g' = Grid3D.rows_ g /\
  Grid3D.layers_ g' = Grid3D.layers_ g /\
  Grid3D.resolution_ g' = Grid3D.resolution_ g /\
  Grid3D.origin_x_ g' = Grid3D.origin_x_ g /\
  Grid3D.origin_y_ g' = Grid3D.origin_y_ g.

(** The cells [mark_rect_blocked] visits, in order. *)
Definition rect_cells (x1 y1 x2 y2 layer : Z) : list (Z * Z * Z) :=
  y ← seqZ y1 (y2 - y1 + 1); x ← seqZ x1 (x2 - x1 + 1); [(x, y, layer)].

(** What [mark_blocked] writes into a cell. *)
Definition blocked_cell (net : Z) (obs : bool) (c : GridCell.t) : GridCell.t :=
  GridCell.set_is_obstacle obs (GridCell.set_net net (GridCell.set_blocked true c)).

End FrameSpec.

Module UsageSpec.

(** What a cell adds to [get_total_overflow]. *)
Definition overflow_of (c : GridCell.t) : Z :=
  if GridCell.usage_count c >? 1 then GridCell.usage_count c - 1 else 0.

End UsageSpec.

Module FloatSpec.

(** [v] carries the sign [s], or is a NaN. *)
Definition signed_of (s : bool) (v : float) : Prop :=
  match v with
  | S754_zero s' | S754_infinity s' | S754_finite s' _ _ => s' = s
  | S754_nan => True
  end.

End FloatSpec.

Module PathSpec.

(** The segments form a polyline from (x, y): each starts where the one
    before it ends. *)
Fixpoint chain (x y : float) (segs : list Segment.t) : Prop :=
  match segs with
  | [] => True
  | s :: rest =>
      Segment.x1 s = x /\ Segment.y1 s = y /\ chain (Segment.x2 s) (Segment.y2 s) rest
  end.

(** Where the polyline ends. *)
Definition chain_end (x y : float) (segs : list Segment.t) : float * float :=
  fold_left (fun _ s => (Segment.x2 s, Segment.y2 s)) segs (x, y).

(** A segment [reconstruct_path] emits for [net] under [rules]: it
    carries the net and the trace width, and its ends differ in the sense
    of the test that precedes its emission. *)
Definition segment_ok (rules : DesignRules.t) (net : Z) (s : Segment.t) : Prop :=
  Segment.net s = net /\
  Segment.width s = DesignRules.trace_width rules /\
  Pathfinder.moved (Segment.x2 s) (Segment.y2 s) (Segment.x1 s) (Segment.y1 s) = true.

Definition via_ok (rules : DesignRules.t) (net : Z) (v : Via.t) : Prop :=
  Via.net v = net /\
  Via.drill v = DesignRules.via_drill rules /\
  Via.diameter v = DesignRules.via_diameter rules.

(** The state of the second loop of [reconstruct_path] after at most [n]
    entries: the segments are a polyline from the start point to the
    current point. *)
Definition pen_ok (rules : DesignRules.t) (net : Z) (start_x start_y : float)
    (n : nat) (pen : Pathfinder.Pen) : Prop :=
  chain start_x start_y (Pathfinder.segments pen) /\
  chain_end start_x start_y (Pathfinder.segments pen)
  = (Pathfinder.current_x pen, Pathfinder.current_y pen) /\
  Forall (segment_ok rules net) (Pathfinder.segments pen) /\
  Forall (via_ok rules net) (Pathfinder.vias pen) /\
  (length (Pathfinder.segments pen) <= n)%nat /\
  (length (Pathfinder.vias pen) <= n)%nat.

End PathSpec.

Module SearchSpec.

(** The key of a node in the closed set. *)
Definition key (n : AStarNode.t) : Z * Z * Z :=
  (AStarNode.x n, AStarNode.y n, AStarNode.layer n).

(** The closed list holds each key once, the closed set holds the keys of
    the list, and the counters count what they are named after. *)
Definition closed_consistent (st : Pathfinder.Search) : Prop :=
  Pathfinder.nodes_explored st = Z.of_nat (length (Pathfinder.closed_list st)) /\
  Pathfinder.nodes_explored st <= Pathfinder.iterations st /\
  NoDup (key <$> Pathfinder.closed_list st) /\
  forall k, k ∈ Pathfinder.closed_set st <-> k ∈ key <$> Pathfinder.closed_list st.

(** How a node relates to the layer of the node before it on the path: a
    via leads to another layer, which is routable; a move in the plane
    keeps the layer. *)
Definition layer_step (pf : Pathfinder.t) (prev : Z) (n : AStarNode.t) : Prop :=
  if AStarNode.via_from_parent n then
    AStarNode.layer n <> prev /\
    Pathfinder.contains (Pathfinder.routable_layers_ pf) (AStarNode.layer n) = true
  else AStarNode.layer n = prev.

(** A node is a root, or its parent is in the closed list and the node
    is one [layer_step] from it. *)
Definition link_ok (pf : Pathfinder.t) (closed : list AStarNode.t)
    (n : AStarNode.t) : Prop :=
  (AStarNode.parent_idx n = -1 /\ AStarNode.via_from_parent n = false) \/
  exists p,
    0 <= AStarNode.parent_idx n /\
    closed !! Z.to_nat (AStarNode.parent_idx n) = Some p /\
    layer_step pf (AStarNode.layer p) n.

Definition linked (pf : Pathfinder.t) (st : Pathfinder.Search) : Prop :=
  forall n, n ∈ Pathfinder.open_set st \/ n ∈ Pathfinder.closed_list st ->
            link_ok pf (Pathfinder.closed_list st) n.

(** The nodes [walk_parents] visits from [idx], goal first. *)
Fixpoint ancestors (fuel : nat) (closed : list AStarNode.t) (idx : Z)
    : list AStarNode.t :=
  if (0 <=? idx) && (idx <? Z.of_nat (length closed)) then
    match fuel with
    | O => []
    | S fuel' =>
      match closed !! Z.to_nat idx with
      | Some node => node :: ancestors fuel' closed (AStarNode.parent_idx node)
      | None => []
      end
    end
  else [].

(** The entry [walk_parents] records for a node. *)
Definition entry_of (pf : Pathfinder.t) (n : AStarNode.t) : float * float * Z * bool :=
  let '(wx, wy) :=
    Grid3D.grid_to_world (Pathfinder.grid_ pf) (AStarNode.x n) (AStarNode.y n) in
  (wx, wy, AStarNode.layer n, AStarNode.via_from_parent n).

(** Every node of the list, root first, is one [layer_step] from the
    node before it; [prev] is the layer before the first. *)
Fixpoint trail (pf : Pathfinder.t) (prev : Z) (nodes : list AStarNode.t) : Prop :=
  match nodes with
  | [] => True
  | n :: rest => layer_step pf prev n /\ trail pf (AStarNode.layer n) rest
  end.

(** The layer the last node of the list is on. *)
Definition final_layer (prev : Z) (nodes : list AStarNode.t) : Z :=
  fold_left (fun _ n => AStarNode.layer n) nodes prev.

(** A via [reconstruct_path] emits on a path of the search. *)
Definition via_changes_layer (pf : Pathfinder.t) (v : Via.t) : Prop :=
  Via.layer_from v <> Via.layer_to v /\
  Pathfinder.contains (Pathfinder.routable_layers_ pf) (Via.layer_to v) = true.

End SearchSpec.

(** ** Facts about the grid *)

Module GridFacts.
Import GridSpec.

Lemma fold_left_bind {A B C : Type} (f : A -> C -> A) (h : B -> list C) (l : list B) (a : A) :
  fold_left f (l ≫= h) a = fold_left (fun a b => fold_left f (h b) a) l a.
Proof.
  revert a. induction l as [|b l IH]; intros a; simpl; [done|].
  by rewrite fold_left_app, IH.
Qed.

Lemma fold_left_ext {A B : Type} (f g : A -> B -> A) (l : list B) (a : A) :
  (forall a b, f a b = g a b) -> fold_left f l a = fold_left g l a.
Proof.
  intros H. revert a. induction l as [|b l IH]; intros a; simpl; [done|].
  by rewrite H, IH.
Qed.

Lemma for_square_fold {St : Type} k (body : Z -> Z -> St -> St) s :
  for_square k body s = fold_left (fun s d => body (fst d) (snd d) s) (square k) s.
Proof.
  unfold for_square, for_range, square, Pathfinder.offsets.
  rewrite fold_left_bind. apply fold_left_ext. intros a dy.
  rewrite fold_left_bind. by apply fold_left_ext.
Qed.

Lemma elem_of_offsets k d : d ∈ Pathfinder.offsets k <-> - k <= d <= k.
Proof. unfold Pathfinder.offsets. rewrite elem_of_seqZ. lia. Qed.

Lemma elem_of_square k dx dy :
  (dx, dy) ∈ square k <-> (- k <= dx <= k /\ - k <= dy <= k).
Proof.
  unfold square. rewrite list_elem_of_bind. split.
  - intros (y & Hin & Hy). apply list_elem_of_bind in Hin as (x & Hin & Hx).
    apply list_elem_of_singleton in Hin. inversion Hin; subst.
    apply elem_of_offsets in Hx, Hy. lia.
  - intros [Hx Hy]. exists dy. split; [|by apply elem_of_offsets].
    apply list_elem_of_bind. exists dx. split; [|by apply elem_of_offsets].
    by apply list_elem_of_singleton.
Qed.

(** *** Cells of a well-formed grid *)

Lemma is_valid_spec g x y layer :
  Grid3D.is_valid g x y layer = true <->
  (0 <= x < Grid3D.cols_ g /\ 0 <= y < Grid3D.rows_ g /\ 0 <= layer < Grid3D.layers_ g).
Proof. unfold Grid3D.is_valid. rewrite !andb_true_iff. lia. Qed.

Lemma index_bound g x y layer :
  wf g -> Grid3D.is_valid g x y layer = true ->
  0 <= Grid3D.index g x y layer < Z.of_nat (length (Grid3D.cells_ g)).
Proof.
  intros Hwf Hv. apply is_valid_spec in Hv. rewrite (wf_cells g Hwf).
  unfold Grid3D.index. destruct Hv as (Hx & Hy & Hl).
  set (c := Grid3D.cols_ g) in *. set (r := Grid3D.rows_ g) in *.
  set (n := Grid3D.layers_ g) in *.
  assert (0 <= y * c /\ y * c + c <= r * c) by nia.
  assert (0 <= layer * (r * c) /\ layer * (r * c) + r * c <= n * (r * c)) by nia.
  nia.
Qed.

Lemma index_inj g x y layer x' y' layer' :
  Grid3D.is_valid g x y layer = true -> Grid3D.is_valid g x' y' layer' = true ->
  Grid3D.index g x y layer = Grid3D.index g x' y' layer' ->
  (x, y, layer) = (x', y', layer').
Proof.
  intros Hv Hv' Hi. apply is_valid_spec in Hv, Hv'. unfold Grid3D.index in Hi.
  destruct Hv as (Hx & Hy & Hl), Hv' as (Hx' & Hy' & Hl').
  set (c := Grid3D.cols_ g) in *. set (r := Grid3D.rows_ g) in *.
  assert (0 <= y * c + x < r * c) by nia.
  assert (0 <= y' * c + x' < r * c) by nia.
  assert (layer = layer') by nia. subst layer'.
  assert (y = y') by nia. subst y'.
  assert (x = x') by lia. by subst.
Qed.

Lemma lookup_cell g x y layer :
  wf g -> Grid3D.is_valid g x y layer = true ->
  Grid3D.cells_ g !! Z.to_nat (Grid3D.index g x y layer)
  = Some (Grid3D.at_ g x y layer).
Proof.
  intros Hwf Hv. pose proof (index_bound g x y layer Hwf Hv) as Hb.
  unfold Grid3D.at_.
  destruct (lookup_lt_is_Some_2 (Grid3D.cells_ g) (Z.to_nat (Grid3D.index g x y layer)))
    as [c Hc]; [lia|]. by rewrite Hc.
Qed.

Lemma shape_is_valid g g' x y layer :
  shape g' = shape g -> Grid3D.is_valid g' x y layer = Grid3D.is_valid g x y layer.
Proof. unfold shape, Grid3D.is_valid. intros [= -> -> -> _ _]. done. Qed.

Lemma shape_congestion_index g g' x y layer :
  shape g' = shape g ->
  Grid3D.congestion_index g' x y layer = Grid3D.congestion_index g x y layer.
Proof. unfold shape, Grid3D.congestion_index. intros [= _ _ _ -> ->]. done. Qed.

Lemma wf_modify f x y layer g : wf g -> wf (Grid3D.modify f x y layer g).
Proof.
  intros [? ? ? Hc ? ? ?]. split; simpl; try done. by rewrite length_alter.
Qed.

Lemma at_modify f x y layer g x' y' layer' :
  wf g ->
  Grid3D.is_valid g x y layer = true ->
  Grid3D.is_valid g x' y' layer' = true ->
  Grid3D.at_ (Grid3D.modify f x y layer g) x' y' layer'
  = if decide ((x, y, layer) = (x', y', layer')) then f (Grid3D.at_ g x' y' layer')
    else Grid3D.at_ g x' y' layer'.
Proof.
  intros Hwf Hv Hv'.
  pose proof (index_bound g _ _ _ Hwf Hv) as Hb.
  pose proof (index_bound g _ _ _ Hwf Hv') as Hb'.
  unfold Grid3D.at_ at 1. unfold Grid3D.modify, Grid3D.index at 1. simpl.
  fold (Grid3D.index g x' y' layer').
  destruct (decide ((x, y, layer) = (x', y', layer'))) as [[= <- <- <-]|Hne].
  - rewrite list_lookup_alter_eq, (lookup_cell g x y layer Hwf Hv). done.
  - rewrite list_lookup_alter_ne.
    + by rewrite (lookup_cell g x' y' layer' Hwf Hv').
    + intros Heq. apply Hne. apply (index_inj g); [done..|]. lia.
Qed.

Lemma wf_update_congestion x y layer delta g :
  wf g -> wf (Grid3D.update_congestion x y layer delta g).
Proof.
  intros [? ? ? ? ? ? Hc]. split; simpl; try done. by rewrite length_alter.
Qed.

Create HintDb grid.
#[local] Hint Resolve wf_modify wf_update_congestion : grid.

Lemma at_update_congestion x y layer delta g x' y' layer' :
  Grid3D.at_ (Grid3D.update_congestion x y layer delta g) x' y' layer'
  = Grid3D.at_ g x' y' layer'.
Proof. done. Qed.

(** *** Visits that act on one cell *)

Lemma visit_all_spec f V ps g :
  acts_as f V -> (forall c, f (f c) = f c) -> wf g ->
  wf (visit_all V ps g) /\ shape (visit_all V ps g) = shape g /\
  forall x y layer,
    Grid3D.is_valid g x y layer = true ->
    Grid3D.at_ (visit_all V ps g) x y layer
    = if decide ((x, y, layer) ∈ ps) then f (Grid3D.at_ g x y layer)
      else Grid3D.at_ g x y layer.
Proof.
  intros HV Hf. revert g. induction ps as [|[[px py] pl] ps IH]; intros g Hwf.
  - split; [done|]. split; [done|]. intros x y layer _.
    destruct (decide _) as [Hin|]; [|done]. by apply elem_of_nil in Hin.
  - destruct (HV g px py pl Hwf) as (Hwf1 & Hs1 & Hat1).
    destruct (IH _ Hwf1) as (Hwf2 & Hs2 & Hat2).
    unfold visit_all in *. cbn [fold_left fst snd].
    split; [done|]. split; [congruence|].
    intros x y layer Hv.
    rewrite Hat2 by (by rewrite (shape_is_valid _ _ _ _ _ Hs1)).
    rewrite (Hat1 x y layer Hv).
    destruct (decide ((px, py, pl) = (x, y, layer))) as [Heq|Hne].
    + rewrite (decide_True (P := _ ∈ _ :: _)) by (rewrite Heq; left).
      destruct (decide _); [apply Hf|done].
    + destruct (decide ((x, y, layer) ∈ ps)) as [Hin|Hnin].
      * rewrite decide_True; [done|by right].
      * rewrite decide_False; [done|].
        apply not_elem_of_cons. split; [congruence|done].
Qed.

Lemma mark_cell_idem net c : mark_cell net (mark_cell net c) = mark_cell net c.
Proof. by destruct c as [[] ? ? ? ? ? ? ?]. Qed.

Lemma unmark_cell_idem net c :
  Grid3D.unmark_cell net (Grid3D.unmark_cell net c) = Grid3D.unmark_cell net c.
Proof.
  destruct c as [b n u h o z [] on]; unfold Grid3D.unmark_cell; cbn; [done|].
  destruct (n =? net) eqn:E; cbn; [|by rewrite E].
  by destruct net.
Qed.

Lemma acts_as_invalid f g x y layer x' y' layer' :
  Grid3D.is_valid g x y layer = false ->
  Grid3D.is_valid g x' y' layer' = true ->
  Grid3D.at_ g x' y' layer'
  = if decide ((x, y, layer) = (x', y', layer'))
    then f (Grid3D.at_ g x' y' layer') else Grid3D.at_ g x' y' layer'.
Proof. intros Hi Hv. destruct (decide _) as [[= <- <- <-]|]; [congruence|done]. Qed.

Lemma mark_segment_cell_acts net : acts_as (mark_cell net) (Grid3D.mark_segment_cell net).
Proof.
  intros g x y layer Hwf. unfold Grid3D.mark_segment_cell.
  destruct (Grid3D.is_valid g x y layer) eqn:Hv.
  - destruct (GridCell.blocked (Grid3D.at_ g x y layer)) eqn:Hb; simpl.
    + split; [auto with grid|]. split; [done|]. intros x' y' layer' Hv'.
      rewrite at_modify by done. unfold mark_cell.
      destruct (decide _) as [[= <- <- <-]|]; [by rewrite Hb|done].
    + split; [auto with grid|].
      split; [done|]. intros x' y' layer' Hv'.
      rewrite at_modify;
        [|auto with grid|done|done].
      rewrite at_update_congestion, at_modify by done. unfold mark_cell.
      destruct (decide _) as [[= <- <- <-]|]; [by rewrite Hb|done].
  - split; [done|]. split; [done|]. intros. by apply acts_as_invalid.
Qed.

Lemma mark_via_cell_acts net : acts_as (mark_cell net) (Grid3D.mark_via_cell net).
Proof.
  intros g x y layer Hwf. unfold Grid3D.mark_via_cell.
  destruct (Grid3D.is_valid g x y layer) eqn:Hv.
  - destruct (GridCell.blocked (Grid3D.at_ g x y layer)) eqn:Hb; simpl.
    + split; [auto with grid|]. split; [done|]. intros x' y' layer' Hv'.
      rewrite at_modify by done. unfold mark_cell.
      destruct (decide _) as [[= <- <- <-]|]; [by rewrite Hb|done].
    + split; [auto with grid|].
      split; [done|]. intros x' y' layer' Hv'.
      rewrite at_modify;
        [|auto with grid|done|done].
      rewrite at_modify; [|auto with grid|done|done].
      rewrite at_update_congestion. unfold mark_cell.
      destruct (decide _) as [[= <- <- <-]|]; [by rewrite Hb|done].
  - split; [done|]. split; [done|]. intros. by apply acts_as_invalid.
Qed.

Lemma unmark_at_acts net : acts_as (Grid3D.unmark_cell net) (Grid3D.unmark_at net).
Proof.
  intros g x y layer Hwf. unfold Grid3D.unmark_at.
  destruct (Grid3D.is_valid g x y layer) eqn:Hv.
  - split; [by apply wf_modify|]. split; [done|]. intros x' y' layer' Hv'.
    by rewrite at_modify.
  - split; [done|]. split; [done|]. intros. by apply acts_as_invalid.
Qed.

(** *** The line walk *)

Section Bresenham.
Context {St : Type} (visit : Z -> Z -> St -> St).
Variables x2 y2 dx dy sx sy : Z.

Lemma bresenham_loop_acc fuel x y err acc :
  bresenham_loop fuel record_point x2 y2 dx dy sx sy x y err acc
  = (fun pts => acc ++ pts) <$> bresenham_loop fuel record_point x2 y2 dx dy sx sy x y err [].
Proof.
  revert x y err acc. induction fuel as [|fuel IH]; intros x y err acc; [done|].
  cbn [bresenham_loop]. destruct ((x =? x2) && (y =? y2)); [done|].
  destruct (2 * err >? - dy), (2 * err <? dx); cbn;
    rewrite (IH _ _ _ (record_point x y acc)), (IH _ _ _ (record_point x y [])),
      <- option_fmap_compose;
    apply option_fmap_ext; intros pts; unfold record_point; simpl;
    by rewrite <- app_assoc.
Qed.

Lemma bresenham_loop_fold fuel x y err s :
  bresenham_loop fuel visit x2 y2 dx dy sx sy x y err s
  = (fun pts => fold_left (fun s p => visit p.1 p.2 s) pts s)
      <$> bresenham_loop fuel record_point x2 y2 dx dy sx sy x y err [].
Proof.
  revert x y err s. induction fuel as [|fuel IH]; intros x y err s; [done|].
  cbn [bresenham_loop]. destruct ((x =? x2) && (y =? y2)); [done|].
  destruct (2 * err >? - dy), (2 * err <? dx); cbn;
    rewrite IH, (bresenham_loop_acc _ _ _ _ (record_point x y [])),
      <- option_fmap_compose;
    by apply option_fmap_ext.
Qed.

Lemma bresenham_loop_some fuel x y err s rx ry :
  (sx = 1 \/ sx = -1) -> (sy = 1 \/ sy = -1) ->
  0 <= rx <= dx -> 0 <= ry <= dy ->
  x2 = x + sx * rx -> y2 = y + sy * ry ->
  err = dx - dy + rx * dy - ry * dx ->
  (Z.to_nat (rx + ry) < fuel)%nat ->
  is_Some (bresenham_loop fuel visit x2 y2 dx dy sx sy x y err s).
Proof.
  intros Hsx Hsy. revert x y err s rx ry.
  induction fuel as [|fuel IH]; intros x y err s rx ry Hrx Hry Hx Hy He Hf; [lia|].
  cbn [bresenham_loop].
  destruct ((x =? x2) && (y =? y2)) eqn:Hend; [done|].
  assert (0 < rx + ry) as Hpos.
  { apply andb_false_iff in Hend as [H|H]; apply Z.eqb_neq in H; nia. }
  destruct (2 * err >? - dy) eqn:E1, (2 * err <? dx) eqn:E2.
  - apply (IH _ _ _ _ (rx - 1) (ry - 1)); nia.
  - apply (IH _ _ _ _ (rx - 1) ry); nia.
  - apply (IH _ _ _ _ rx (ry - 1)); nia.
  - exfalso. nia.
Qed.

End Bresenham.

Example line_points_shallow :
  line_points 0 1 3 2 = Some [(0, 1); (1, 1); (2, 2); (3, 2)].
Proof. reflexivity. Qed.

Example line_points_steep_backwards :
  line_points 2 5 1 0 = Some [(2, 5); (2, 4); (2, 3); (1, 2); (1, 1); (1, 0)].
Proof. reflexivity. Qed.

Lemma line_points_some x1 y1 x2 y2 : is_Some (line_points x1 y1 x2 y2).
Proof.
  unfold line_points, bresenham.
  apply (bresenham_loop_some _ _ _ _ _ _ _ _ _ _ _ _
           (Z.abs (x2 - x1)) (Z.abs (y2 - y1)));
    try (destruct (_ <? _) eqn:E); lia.
Qed.

Lemma bresenham_line {St : Type} (visit : Z -> Z -> St -> St) x1 y1 x2 y2 s :
  exists pts,
    line_points x1 y1 x2 y2 = Some pts /\
    bresenham visit x1 y1 x2 y2 s
    = Some (fold_left (fun s p => visit p.1 p.2 s) pts s).
Proof.
  destruct (line_points_some x1 y1 x2 y2) as [pts Hpts]. exists pts.
  split; [done|]. unfold bresenham. rewrite bresenham_loop_fold.
  unfold line_points, bresenham in Hpts. by rewrite Hpts.
Qed.

(** *** Footprints *)

Lemma elem_of_segment_cells pts k layer x y l :
  (x, y, l) ∈ segment_cells pts k layer <->
  l = layer /\ exists gx gy, (gx, gy) ∈ pts /\ in_square k gx gy x y.
Proof.
  unfold segment_cells. rewrite list_elem_of_bind. split.
  - intros ([gx gy] & Hin & Hp). apply list_elem_of_bind in Hin as ([dx dy] & Hin & Hd).
    apply list_elem_of_singleton in Hin. simpl in Hin. inversion Hin; subst.
    apply elem_of_square in Hd. split; [done|]. exists gx, gy.
    split; [done|]. unfold in_square. lia.
  - intros (-> & gx & gy & Hp & Hsq). exists (gx, gy). split; [|done].
    apply list_elem_of_bind. exists (x - gx, y - gy). split.
    + apply list_elem_of_singleton. simpl. repeat f_equal; lia.
    + apply elem_of_square. unfold in_square in Hsq. lia.
Qed.

Lemma elem_of_via_cells g vx vy k x y l :
  (x, y, l) ∈ via_cells g vx vy k <->
  0 <= l < Grid3D.layers_ g /\ in_square k vx vy x y.
Proof.
  unfold via_cells. rewrite list_elem_of_bind. split.
  - intros (layer & Hin & Hl). apply list_elem_of_bind in Hin as ([dx dy] & Hin & Hd).
    apply list_elem_of_singleton in Hin. simpl in Hin. inversion Hin; subst.
    apply elem_of_square in Hd. apply elem_of_seqZ in Hl.
    unfold in_square. lia.
  - intros (Hl & Hsq). exists l. split; [|apply elem_of_seqZ; lia].
    apply list_elem_of_bind. exists (x - vx, y - vy). split.
    + apply list_elem_of_singleton. simpl. repeat f_equal; lia.
    + apply elem_of_square. unfold in_square in Hsq. lia.
Qed.

Lemma square_visits (V : Z -> Z -> Z -> Grid3D.t -> Grid3D.t) k gx gy layer g :
  for_square k (fun dx dy => V (gx + dx) (gy + dy) layer) g
  = visit_all V (d ← square k; [(gx + d.1, gy + d.2, layer)]) g.
Proof.
  rewrite for_square_fold. unfold visit_all. by rewrite fold_left_bind.
Qed.

Lemma segment_visits (V : Z -> Z -> Z -> Grid3D.t -> Grid3D.t)
    x1 y1 x2 y2 layer k g :
  exists pts,
    line_points x1 y1 x2 y2 = Some pts /\
    bresenham (fun gx gy =>
                 for_square k (fun dx dy => V (gx + dx) (gy + dy) layer))
              x1 y1 x2 y2 g
    = Some (visit_all V (segment_cells pts k layer) g).
Proof.
  destruct (bresenham_line
              (fun gx gy => for_square k (fun dx dy => V (gx + dx) (gy + dy) layer))
              x1 y1 x2 y2 g) as (pts & Hpts & Hb).
  exists pts. split; [done|]. rewrite Hb. f_equal.
  unfold visit_all at 1, segment_cells. rewrite fold_left_bind.
  apply fold_left_ext. intros a p. apply square_visits.
Qed.

Lemma via_visits (V : Z -> Z -> Z -> Grid3D.t -> Grid3D.t) x y k g :
  for_range 0 (Grid3D.layers_ g - 1)
    (fun layer => for_square k (fun dx dy => V (x + dx) (y + dy) layer)) g
  = visit_all V (via_cells g x y k) g.
Proof.
  unfold for_range, visit_all at 1, via_cells. rewrite fold_left_bind.
  apply fold_left_ext. intros a l. apply square_visits.
Qed.

(** A pass over a segment footprint applies the cell function to the
    valid cells it covers and to no other cell. *)
Lemma segment_pass f V x1 y1 x2 y2 layer k g :
  acts_as f V -> (forall c, f (f c) = f c) -> wf g ->
  exists g',
    bresenham (fun gx gy =>
                 for_square k (fun dx dy => V (gx + dx) (gy + dy) layer))
              x1 y1 x2 y2 g = Some g' /\
    wf g' /\ shape g' = shape g /\
    forall x y l,
      Grid3D.is_valid g x y l = true ->
      (l = layer -> segment_covers x1 y1 x2 y2 k x y ->
       Grid3D.at_ g' x y l = f (Grid3D.at_ g x y l)) /\
      (~ (l = layer /\ segment_covers x1 y1 x2 y2 k x y) ->
       Grid3D.at_ g' x y l = Grid3D.at_ g x y l).
Proof.
  intros HV Hf Hwf.
  destruct (segment_visits V x1 y1 x2 y2 layer k g) as (pts & Hpts & Hb).
  destruct (visit_all_spec f V (segment_cells pts k layer) g HV Hf Hwf)
    as (Hwf' & Hs & Hat).
  eexists. split; [exact Hb|]. split; [done|]. split; [done|].
  intros x y l Hv. rewrite (Hat x y l Hv). split.
  - intros -> (pts' & gx & gy & Hpts' & Hin & Hsq).
    rewrite decide_True; [done|]. apply elem_of_segment_cells.
    split; [done|]. exists gx, gy. split; [congruence|done].
  - intros Hn. rewrite decide_False; [done|].
    intros (-> & gx & gy & Hin & Hsq)%elem_of_segment_cells.
    apply Hn. split; [done|]. by exists pts, gx, gy.
Qed.

Lemma via_pass f V vx vy k g :
  acts_as f V -> (forall c, f (f c) = f c) -> wf g ->
  let g' := for_range 0 (Grid3D.layers_ g - 1)
              (fun layer => for_square k (fun dx dy => V (vx + dx) (vy + dy) layer)) g in
  wf g' /\ shape g' = shape g /\
  forall x y l,
    Grid3D.is_valid g x y l = true ->
    (in_square k vx vy x y -> Grid3D.at_ g' x y l = f (Grid3D.at_ g x y l)) /\
    (~ in_square k vx vy x y -> Grid3D.at_ g' x y l = Grid3D.at_ g x y l).
Proof.
  intros HV Hf Hwf g'. subst g'. rewrite via_visits.
  destruct (visit_all_spec f V (via_cells g vx vy k) g HV Hf Hwf)
    as (Hwf' & Hs & Hat).
  split; [done|]. split; [done|].
  intros x y l Hv. rewrite (Hat x y l Hv).
  pose proof (proj1 (is_valid_spec _ _ _ _) Hv) as (_ & _ & Hl). split.
  - intros Hsq. rewrite decide_True; [done|]. by apply elem_of_via_cells.
  - intros Hn. rewrite decide_False; [done|].
    by intros [_ Hsq]%elem_of_via_cells.
Qed.

(** *** Counting the cells a marking pass blocks *)

Lemma elem_of_all_cells g x y layer :
  (x, y, layer) ∈ all_cells g <-> Grid3D.is_valid g x y layer = true.
Proof.
  rewrite is_valid_spec. unfold all_cells. rewrite list_elem_of_bind. split.
  - intros (l & Hin & Hl%elem_of_seqZ).
    apply list_elem_of_bind in Hin as (y' & Hin & Hy%elem_of_seqZ).
    apply list_elem_of_bind in Hin as (x' & Hin & Hx%elem_of_seqZ).
    apply list_elem_of_singleton in Hin. inversion Hin; subst. lia.
  - intros (Hx & Hy & Hl). exists layer. split; [|apply elem_of_seqZ; lia].
    apply list_elem_of_bind. exists y. split; [|apply elem_of_seqZ; lia].
    apply list_elem_of_bind. exists x. split; [|apply elem_of_seqZ; lia].
    by apply list_elem_of_singleton.
Qed.

Lemma NoDup_all_cells g : NoDup (all_cells g).
Proof.
  unfold all_cells. apply NoDup_bind; [| |apply NoDup_seqZ].
  - intros l1 l2 [[x y] l] _ _ H1 H2.
    apply list_elem_of_bind in H1 as (? & H1 & _), H2 as (? & H2 & _).
    apply list_elem_of_bind in H1 as (? & H1 & _), H2 as (? & H2 & _).
    apply list_elem_of_singleton in H1, H2. congruence.
  - intros l _. apply NoDup_bind; [| |apply NoDup_seqZ].
    + intros y1 y2 [[x y] l'] _ _ H1 H2.
      apply list_elem_of_bind in H1 as (? & H1 & _), H2 as (? & H2 & _).
      apply list_elem_of_singleton in H1, H2. congruence.
    + intros y _. apply NoDup_bind; [| |apply NoDup_seqZ].
      * intros x1 x2 p _ _ H1 H2.
        apply list_elem_of_singleton in H1, H2. congruence.
      * intros x _. apply NoDup_singleton.
Qed.

Lemma filter_length_ext {A : Type} (F F' : A -> bool) (l : list A) :
  (forall q, q ∈ l -> F' q = F q) ->
  length (List.filter F' l) = length (List.filter F l).
Proof.
  induction l as [|a l IH]; intros H; [done|]. simpl.
  rewrite (H a) by left.
  destruct (F a); simpl; rewrite IH; auto using list_elem_of_further.
Qed.

Lemma filter_length_flip {A : Type} (F F' : A -> bool) (l : list A) (p : A) :
  NoDup l -> p ∈ l ->
  (forall q, q ∈ l -> q <> p -> F' q = F q) ->
  F p = false -> F' p = true ->
  length (List.filter F' l) = S (length (List.filter F l)).
Proof.
  intros Hnd Hin Hq Hp Hp'. induction Hnd as [|a l Hni Hnd IH]; [by apply elem_of_nil in Hin|].
  simpl. apply elem_of_cons in Hin as [<-|Hin].
  - rewrite Hp, Hp'. simpl. f_equal. apply filter_length_ext.
    intros q Hql. apply Hq; [by right|]. intros ->. done.
  - rewrite (Hq a); [|by left|by intros ->].
    destruct (F a); simpl; rewrite IH; auto using list_elem_of_further.
Qed.

Lemma mark_segment_cell_counts net : counts_blocking (Grid3D.mark_segment_cell net).
Proof.
  intros g x y layer. unfold Grid3D.mark_segment_cell.
  destruct (Grid3D.is_valid g x y layer); [|done].
  by destruct (GridCell.blocked (Grid3D.at_ g x y layer)).
Qed.

Lemma mark_via_cell_counts net : counts_blocking (Grid3D.mark_via_cell net).
Proof.
  intros g x y layer. unfold Grid3D.mark_via_cell.
  destruct (Grid3D.is_valid g x y layer); [|done].
  by destruct (GridCell.blocked (Grid3D.at_ g x y layer)).
Qed.

Lemma newly_blocked_refl g j : newly_blocked g g j = 0.
Proof.
  unfold newly_blocked.
  rewrite (filter_length_ext (fun _ => false)).
  - by induction (all_cells g).
  - intros [[x y] l] _. unfold newly_blocked_in.
    by destruct (GridCell.blocked _), (bool_decide _).
Qed.

Lemma accounted_refl g : wf g -> accounted g g.
Proof.
  intros Hwf. split; try done.
  intros j count Hj. rewrite newly_blocked_refl, Z.add_0_r. done.
Qed.

Lemma accounted_step net V g0 g x y layer :
  acts_as (mark_cell net) V -> counts_blocking V ->
  accounted g0 g -> accounted g0 (V x y layer g).
Proof.
  intros HV HC [Hwf Hs Hmono Hcount].
  destruct (HV g x y layer Hwf) as (Hwf' & Hs' & Hat).
  assert (forall x' y' l', Grid3D.is_valid g0 x' y' l' = true ->
            Grid3D.is_valid g x' y' l' = true) as Hval.
  { intros. by rewrite (shape_is_valid _ _ _ _ _ Hs). }
  split; [done|congruence| |].
  - intros x' y' l' Hv' Hb. rewrite Hat by auto.
    destruct (decide _); [by destruct (Grid3D.at_ g x' y' l') as [[] ? ? ? ? ? ? ?]|auto].
  - intros j count Hj. rewrite HC.
    destruct (Grid3D.is_valid g x y layer
              && negb (GridCell.blocked (Grid3D.at_ g x y layer))) eqn:E.
    + apply andb_true_iff in E as [Hv Hb]. apply negb_true_iff in Hb.
      assert (Grid3D.is_valid g0 x y layer = true) as Hv0
        by (by rewrite <- (shape_is_valid _ _ _ _ _ Hs)).
      assert (GridCell.blocked (Grid3D.at_ g0 x y layer) = false) as Hb0.
      { destruct (GridCell.blocked (Grid3D.at_ g0 x y layer)) eqn:E0; [|done].
        rewrite (Hmono x y layer Hv0 E0) in Hb. done. }
      rewrite (shape_congestion_index _ _ _ _ _ Hs).
      destruct (decide (Z.to_nat (Grid3D.congestion_index g0 x y layer) = j)) as [Hj'|Hj'].
      * rewrite Hj', list_lookup_alter_eq, (Hcount j count Hj). simpl. f_equal.
        unfold newly_blocked.
        rewrite (filter_length_flip (newly_blocked_in g0 g j)
                   (newly_blocked_in g0 (V x y layer g) j) _ (x, y, layer)).
        -- lia.
        -- apply NoDup_all_cells.
        -- by apply elem_of_all_cells.
        -- intros [[x' y'] l'] Hin Hne. apply elem_of_all_cells in Hin.
           unfold newly_blocked_in. rewrite Hat by auto.
           rewrite decide_False by congruence. done.
        -- unfold newly_blocked_in. by rewrite Hb, andb_false_r.
        -- unfold newly_blocked_in. rewrite Hat by auto.
           rewrite decide_True by done. rewrite Hb0, bool_decide_eq_true_2 by done.
           by destruct (Grid3D.at_ g x y layer) as [[] ? ? ? ? ? ? ?].
      * rewrite list_lookup_alter_ne by done. rewrite (Hcount j count Hj).
        do 2 f_equal. unfold newly_blocked. f_equal. apply filter_length_ext.
        intros [[x' y'] l'] Hin. apply elem_of_all_cells in Hin.
        unfold newly_blocked_in. rewrite Hat by auto.
        destruct (decide _) as [[= <- <- <-]|]; [|done].
        by rewrite bool_decide_eq_false_2.
    + rewrite (Hcount j count Hj). do 2 f_equal. unfold newly_blocked. f_equal.
      apply filter_length_ext.
      intros [[x' y'] l'] Hin. apply elem_of_all_cells in Hin.
      unfold newly_blocked_in. rewrite Hat by auto.
      destruct (decide _) as [[= <- <- <-]|]; [|done].
      rewrite (Hval _ _ _ Hin) in E. simpl in E. apply negb_false_iff in E.
      by destruct (Grid3D.at_ g x y layer) as [[] ? ? ? ? ? ? ?].
Qed.

Lemma accounted_visit_all net V ps g0 g :
  acts_as (mark_cell net) V -> counts_blocking V ->
  accounted g0 g -> accounted g0 (visit_all V ps g).
Proof.
  intros HV HC. revert g. induction ps as [|p ps IH]; intros g Hacc; [done|].
  unfold visit_all. cbn [fold_left]. apply IH. by apply (accounted_step net).
Qed.

Lemma unmark_all_congestion net ps g :
  Grid3D.congestion_ (visit_all (Grid3D.unmark_at net) ps g) = Grid3D.congestion_ g.
Proof.
  revert g. induction ps as [|p ps IH]; intros g; [done|].
  change (visit_all (Grid3D.unmark_at net) (p :: ps) g)
    with (visit_all (Grid3D.unmark_at net) ps (Grid3D.unmark_at net p.1.1 p.1.2 p.2 g)).
  rewrite IH. unfold Grid3D.unmark_at. by destruct (Grid3D.is_valid _ _ _ _).
Qed.

(** Up to 4096 in absolute value, far above the 64 cells of a block, the
    binary32 computation of [get_congestion] is exact. *)
Lemma congestion_value_is_exact count :
  -4096 <= count <= 4096 -> congestion_value_exact count = true.
Proof.
  intros H.
  assert (forallb congestion_value_exact (seqZ (-4096) 8193) = true) as Hall
    by (vm_compute; reflexivity).
  rewrite forallb_forall in Hall. apply Hall.
  apply list_elem_of_In, elem_of_seqZ. lia.
Qed.

Lemma wf_new cols rows layers resolution origin_x origin_y :
  0 <= cols -> 0 <= rows -> 0 <= layers ->
  wf (Grid3D.new cols rows layers resolution origin_x origin_y).
Proof.
  intros Hc Hr Hl. unfold Grid3D.new. split; simpl; try done.
  - rewrite length_replicate. nia.
  - rewrite length_replicate. nia.
Qed.

Lemma congestion_index_bound g x y layer :
  wf g -> Grid3D.is_valid g x y layer = true ->
  0 <= Grid3D.congestion_index g x y layer
     < Z.of_nat (length (Grid3D.congestion_ g)).
Proof.
  intros Hwf Hv. apply is_valid_spec in Hv as (Hx & Hy & Hl).
  rewrite (wf_congestion g Hwf). unfold Grid3D.congestion_index.
  pose proof (wf_congestion_cols g Hwf) as Hcc.
  pose proof (wf_congestion_rows g Hwf) as Hcr.
  set (cc := Grid3D.congestion_cols_ g) in *.
  set (cr := Grid3D.congestion_rows_ g) in *.
  set (n := Grid3D.layers_ g) in *.
  unfold Grid3D.congestion_size_ in *.
  assert (0 <= x ÷ 8) by (apply Z.quot_pos; lia).
  assert (0 <= y ÷ 8) by (apply Z.quot_pos; lia).
  set (cx := Z.min (x ÷ 8) (cc - 1)). set (cy := Z.min (y ÷ 8) (cr - 1)).
  assert (0 <= cx < cc) by lia. assert (0 <= cy < cr) by lia.
  assert (0 <= cy * cc /\ cy * cc + cc <= cr * cc) by nia.
  assert (0 <= layer * (cr * cc) /\ layer * (cr * cc) + cr * cc <= n * (cr * cc)) by nia.
  nia.
Qed.

End GridFacts.

Import GridSpec GridFacts.

(** C3, as stated, fails: the pad cell of [Scenario.pad_grid] is blocked by net 5,
    and marking then ripping up net 7 over it leaves it with net 3. *)
Lemma ripup_inverts_marking_fails_on_pad :
  ~ ripup_inverts_marking Scenario.pad_grid 0 0 0 0 0 7 0.
Proof.
  intros (g1 & g2 & H1 & H2 & H).
  vm_compute in H1. injection H1 as <-.
  vm_compute in H2. injection H2 as <-.
  destruct (H 0 0) as [_ Hnet]; [done| |].
  - exists [(0, 0)], 0, 0. split; [done|]. split; [left|]. unfold in_square. lia.
  - destruct Hnet as [_ Hnet]; [done|done|]. vm_compute in Hnet. done.
Qed.

(** C3 (amended).  [mark_segment] followed by [unmark_segment] with the same
    arguments returns, and on every valid cell of the inflated footprint:
    a cell that was unblocked and is not pad-blocked ends unblocked with
    net 0; a cell that was blocked by another net and is not pad-blocked
    keeps its blocked flag and its net; a pad-blocked cell ends blocked
    with its net set to [original_net]. *)
Theorem mark_unmark_segment_restores g x1 y1 x2 y2 layer net k :
  wf g ->
  exists g1 g2,
    Grid3D.mark_segment x1 y1 x2 y2 layer net k g = Some g1 /\
    Grid3D.unmark_segment x1 y1 x2 y2 layer net k g1 = Some g2 /\
    forall x y,
      Grid3D.is_valid g x y layer = true ->
      segment_covers x1 y1 x2 y2 k x y ->
      let c := Grid3D.at_ g x y layer in
      let c2 := Grid3D.at_ g2 x y layer in
      (GridCell.blocked c = false -> GridCell.pad_blocked c = false ->
       GridCell.blocked c2 = false /\ GridCell.net c2 = 0) /\
      (GridCell.blocked c = true -> GridCell.net c <> net ->
       GridCell.pad_blocked c = false ->
       GridCell.blocked c2 = GridCell.blocked c /\ GridCell.net c2 = GridCell.net c) /\
      (GridCell.pad_blocked c = true ->
       GridCell.blocked c2 = true /\ GridCell.net c2 = GridCell.original_net c).
Proof.
  intros Hwf.
  destruct (segment_pass _ _ x1 y1 x2 y2 layer k g
              (mark_segment_cell_acts net) (mark_cell_idem net) Hwf)
    as (g1 & Hm & Hwf1 & Hs1 & Hat1).
  destruct (segment_pass _ _ x1 y1 x2 y2 layer k g1
              (unmark_at_acts net) (unmark_cell_idem net) Hwf1)
    as (g2 & Hu & Hwf2 & Hs2 & Hat2).
  exists g1, g2. split; [exact Hm|]. split; [exact Hu|].
  intros x y Hv Hcov c c2. subst c c2.
  assert (Grid3D.is_valid g1 x y layer = true) as Hv1
    by (by rewrite (shape_is_valid _ _ _ _ _ Hs1)).
  rewrite (proj1 (Hat2 x y layer Hv1) eq_refl Hcov).
  rewrite (proj1 (Hat1 x y layer Hv) eq_refl Hcov).
  destruct (Grid3D.at_ g x y layer) as [b n u h o z p on].
  unfold Grid3D.unmark_cell, mark_cell. cbn. split; [|split].
  - intros -> ->. cbn. by rewrite Z.eqb_refl.
  - intros -> Hn ->. cbn. by rewrite (proj2 (Z.eqb_neq n net) Hn).
  - intros ->. by destruct b.
Qed.

Lemma mark_unmark_segment_restores_witness :
  let g := Grid3D.new 4 4 1 F32.one F32.zero F32.zero in
  wf g /\
  exists g1 g2,
    Grid3D.mark_segment 0 1 3 2 0 7 1 g = Some g1 /\
    Grid3D.unmark_segment 0 1 3 2 0 7 1 g1 = Some g2 /\
    forall x y,
      Grid3D.is_valid g x y 0 = true ->
      segment_covers 0 1 3 2 1 x y ->
      let c := Grid3D.at_ g x y 0 in
      let c2 := Grid3D.at_ g2 x y 0 in
      (GridCell.blocked c = false -> GridCell.pad_blocked c = false ->
       GridCell.blocked c2 = false /\ GridCell.net c2 = 0) /\
      (GridCell.blocked c = true -> GridCell.net c <> 7 ->
       GridCell.pad_blocked c = false ->
       GridCell.blocked c2 = GridCell.blocked c /\ GridCell.net c2 = GridCell.net c) /\
      (GridCell.pad_blocked c = true ->
       GridCell.blocked c2 = true /\ GridCell.net c2 = GridCell.original_net c).
Proof.
  split; [apply wf_new; lia|].
  apply (mark_unmark_segment_restores _ 0 1 3 2 0 7 1). apply wf_new; lia.
Defined.

(** C4.  Pad protection: a valid cell that is pad-blocked and blocked, with
    [original_net] P, is left blocked with net P by [unmark_segment] and by
    [unmark_via], for any net argument, whenever their footprint covers
    the cell. *)
Theorem unmark_keeps_pads g x y layer P :
  wf g ->
  Grid3D.is_valid g x y layer = true ->
  GridCell.pad_blocked (Grid3D.at_ g x y layer) = true ->
  GridCell.original_net (Grid3D.at_ g x y layer) = P ->
  GridCell.blocked (Grid3D.at_ g x y layer) = true ->
  (forall x1 y1 x2 y2 net k,
     segment_covers x1 y1 x2 y2 k x y ->
     exists g',
       Grid3D.unmark_segment x1 y1 x2 y2 layer net k g = Some g' /\
       GridCell.blocked (Grid3D.at_ g' x y layer) = true /\
       GridCell.net (Grid3D.at_ g' x y layer) = P) /\
  (forall vx vy net r,
     in_square r vx vy x y ->
     let g' := Grid3D.unmark_via vx vy net r g in
     GridCell.blocked (Grid3D.at_ g' x y layer) = true /\
     GridCell.net (Grid3D.at_ g' x y layer) = P).
Proof.
  intros Hwf Hv Hpad Hon Hb. split.
  - intros x1 y1 x2 y2 net k Hcov.
    destruct (segment_pass _ _ x1 y1 x2 y2 layer k g
                (unmark_at_acts net) (unmark_cell_idem net) Hwf)
      as (g' & Hu & _ & _ & Hat).
    exists g'. split; [exact Hu|].
    rewrite (proj1 (Hat x y layer Hv) eq_refl Hcov).
    unfold Grid3D.unmark_cell. rewrite Hpad. by cbn.
  - intros vx vy net r Hsq g'. subst g'.
    destruct (via_pass _ _ vx vy r g (unmark_at_acts net) (unmark_cell_idem net) Hwf)
      as (_ & _ & Hat).
    unfold Grid3D.unmark_via. rewrite (proj1 (Hat x y layer Hv) Hsq).
    unfold Grid3D.unmark_cell. rewrite Hpad. by cbn.
Qed.

Lemma unmark_keeps_pads_witness :
  wf Scenario.pad_grid /\
  (forall x1 y1 x2 y2 net k,
     segment_covers x1 y1 x2 y2 k 0 0 ->
     exists g',
       Grid3D.unmark_segment x1 y1 x2 y2 0 net k Scenario.pad_grid = Some g' /\
       GridCell.blocked (Grid3D.at_ g' 0 0 0) = true /\
       GridCell.net (Grid3D.at_ g' 0 0 0) = 3) /\
  (forall vx vy net r,
     in_square r vx vy 0 0 ->
     let g' := Grid3D.unmark_via vx vy net r Scenario.pad_grid in
     GridCell.blocked (Grid3D.at_ g' 0 0 0) = true /\
     GridCell.net (Grid3D.at_ g' 0 0 0) = 3).
Proof.
  assert (wf Scenario.pad_grid) as Hwf by (split; vm_compute; congruence).
  split; [exact Hwf|].
  apply (unmark_keeps_pads Scenario.pad_grid 0 0 0 3 Hwf); reflexivity.
Defined.

(** C10.  Rip-up does not protect static obstacles: a valid footprint cell
    that is not pad-blocked and whose net is the net argument is set to
    unblocked with net 0 by [unmark_segment] and by [unmark_via], and its
    [is_obstacle] flag is left as it was, true included; with net 0 this
    clears the no-net static obstacles of the footprint. *)
Theorem unmark_clears_obstacles g x y layer net :
  wf g ->
  Grid3D.is_valid g x y layer = true ->
  GridCell.pad_blocked (Grid3D.at_ g x y layer) = false ->
  GridCell.net (Grid3D.at_ g x y layer) = net ->
  (forall x1 y1 x2 y2 k,
     segment_covers x1 y1 x2 y2 k x y ->
     exists g',
       Grid3D.unmark_segment x1 y1 x2 y2 layer net k g = Some g' /\
       GridCell.blocked (Grid3D.at_ g' x y layer) = false /\
       GridCell.net (Grid3D.at_ g' x y layer) = 0 /\
       GridCell.is_obstacle (Grid3D.at_ g' x y layer)
       = GridCell.is_obstacle (Grid3D.at_ g x y layer)) /\
  (forall vx vy r,
     in_square r vx vy x y ->
     let g' := Grid3D.unmark_via vx vy net r g in
     GridCell.blocked (Grid3D.at_ g' x y layer) = false /\
     GridCell.net (Grid3D.at_ g' x y layer) = 0 /\
     GridCell.is_obstacle (Grid3D.at_ g' x y layer)
     = GridCell.is_obstacle (Grid3D.at_ g x y layer)).
Proof.
  intros Hwf Hv Hpad Hnet. split.
  - intros x1 y1 x2 y2 k Hcov.
    destruct (segment_pass _ _ x1 y1 x2 y2 layer k g
                (unmark_at_acts net) (unmark_cell_idem net) Hwf)
      as (g' & Hu & _ & _ & Hat).
    exists g'. split; [exact Hu|].
    rewrite (proj1 (Hat x y layer Hv) eq_refl Hcov).
    unfold Grid3D.unmark_cell. rewrite Hpad, Hnet, Z.eqb_refl. by cbn.
  - intros vx vy r Hsq g'. subst g'.
    destruct (via_pass _ _ vx vy r g (unmark_at_acts net) (unmark_cell_idem net) Hwf)
      as (_ & _ & Hat).
    unfold Grid3D.unmark_via. rewrite (proj1 (Hat x y layer Hv) Hsq).
    unfold Grid3D.unmark_cell. rewrite Hpad, Hnet, Z.eqb_refl. by cbn.
Qed.

Lemma unmark_clears_obstacles_witness :
  wf Scenario.obstacle_grid /\
  GridCell.is_obstacle (Grid3D.at_ Scenario.obstacle_grid 1 1 0) = true /\
  (forall x1 y1 x2 y2 k,
     segment_covers x1 y1 x2 y2 k 1 1 ->
     exists g',
       Grid3D.unmark_segment x1 y1 x2 y2 0 0 k Scenario.obstacle_grid = Some g' /\
       GridCell.blocked (Grid3D.at_ g' 1 1 0) = false /\
       GridCell.net (Grid3D.at_ g' 1 1 0) = 0 /\
       GridCell.is_obstacle (Grid3D.at_ g' 1 1 0)
       = GridCell.is_obstacle (Grid3D.at_ Scenario.obstacle_grid 1 1 0)) /\
  (forall vx vy r,
     in_square r vx vy 1 1 ->
     let g' := Grid3D.unmark_via vx vy 0 r Scenario.obstacle_grid in
     GridCell.blocked (Grid3D.at_ g' 1 1 0) = false /\
     GridCell.net (Grid3D.at_ g' 1 1 0) = 0 /\
     GridCell.is_obstacle (Grid3D.at_ g' 1 1 0)
     = GridCell.is_obstacle (Grid3D.at_ Scenario.obstacle_grid 1 1 0)).
Proof.
  assert (wf Scenario.obstacle_grid) as Hwf by (split; vm_compute; congruence).
  split; [exact Hwf|]. split; [reflexivity|].
  apply (unmark_clears_obstacles Scenario.obstacle_grid 1 1 0 0 Hwf); reflexivity.
Defined.

(** C8.  Congestion accounting: [mark_segment] and [mark_via] add to every
    congestion counter the number of cells of its block that go from
    unblocked to blocked, and [unmark_segment] and [unmark_via] leave the
    counters as they are. *)
Theorem congestion_accounting g :
  wf g ->
  (forall x1 y1 x2 y2 layer net k,
     exists g',
       Grid3D.mark_segment x1 y1 x2 y2 layer net k g = Some g' /\
       forall j count,
         Grid3D.congestion_ g !! j = Some count ->
         Grid3D.congestion_ g' !! j = Some (count + newly_blocked g g' j)) /\
  (forall x y net r,
     let g' := Grid3D.mark_via x y net r g in
     forall j count,
       Grid3D.congestion_ g !! j = Some count ->
       Grid3D.congestion_ g' !! j = Some (count + newly_blocked g g' j)) /\
  (forall x1 y1 x2 y2 layer net k,
     exists g',
       Grid3D.unmark_segment x1 y1 x2 y2 layer net k g = Some g' /\
       Grid3D.congestion_ g' = Grid3D.congestion_ g) /\
  (forall x y net r,
     Grid3D.congestion_ (Grid3D.unmark_via x y net r g) = Grid3D.congestion_ g).
Proof.
  intros Hwf. split; [|split; [|split]].
  - intros x1 y1 x2 y2 layer net k.
    destruct (segment_visits (Grid3D.mark_segment_cell net) x1 y1 x2 y2 layer k g)
      as (pts & _ & Hb).
    eexists. split; [exact Hb|].
    apply (accounted_visit_all net);
      auto using mark_segment_cell_acts, mark_segment_cell_counts, accounted_refl.
  - intros x y net r g'. subst g'. unfold Grid3D.mark_via. rewrite via_visits.
    apply (accounted_visit_all net);
      auto using mark_via_cell_acts, mark_via_cell_counts, accounted_refl.
  - intros x1 y1 x2 y2 layer net k.
    destruct (segment_visits (Grid3D.unmark_at net) x1 y1 x2 y2 layer k g)
      as (pts & _ & Hb).
    eexists. split; [exact Hb|]. apply unmark_all_congestion.
  - intros x y net r. unfold Grid3D.unmark_via. rewrite via_visits.
    apply unmark_all_congestion.
Qed.

Lemma congestion_accounting_witness :
  let g := Grid3D.new 4 4 1 F32.one F32.zero F32.zero in
  wf g /\
  (forall x1 y1 x2 y2 layer net k,
     exists g',
       Grid3D.mark_segment x1 y1 x2 y2 layer net k g = Some g' /\
       forall j count,
         Grid3D.congestion_ g !! j = Some count ->
         Grid3D.congestion_ g' !! j = Some (count + newly_blocked g g' j)) /\
  (forall x y net r,
     let g' := Grid3D.mark_via x y net r g in
     forall j count,
       Grid3D.congestion_ g !! j = Some count ->
       Grid3D.congestion_ g' !! j = Some (count + newly_blocked g g' j)) /\
  (forall x1 y1 x2 y2 layer net k,
     exists g',
       Grid3D.unmark_segment x1 y1 x2 y2 layer net k g = Some g' /\
       Grid3D.congestion_ g' = Grid3D.congestion_ g) /\
  (forall x y net r,
     Grid3D.congestion_ (Grid3D.unmark_via x y net r g) = Grid3D.congestion_ g).
Proof.
  split; [apply wf_new; lia|].
  apply (congestion_accounting (Grid3D.new 4 4 1 F32.one F32.zero F32.zero)).
  apply wf_new; lia.
Defined.

(** C7, as stated, fails: in [Scenario.via_grid] the cell (16, 0) is counted in the
    last block of its row, block 1, which holds the 25 cells of the via,
    and not in a block 16/8 = 2. *)
Lemma get_congestion_not_unclamped :
  Grid3D.is_valid Scenario.via_grid 16 0 0 = true /\
  Grid3D.get_congestion Scenario.via_grid 16 0 0 = F32.ratio 25 64 /\
  get_congestion_unclamped Scenario.via_grid 16 0 0 = F32.zero /\
  Grid3D.get_congestion Scenario.via_grid 16 0 0 <> get_congestion_unclamped Scenario.via_grid 16 0 0.
Proof. vm_compute. repeat split; congruence. Qed.

(** C7 (amended).  The congestion grid the constructor builds has
    max(1, cols/B) x max(1, rows/B) blocks per layer with B = 8, and for
    every valid cell (x, y, layer) [get_congestion] is min(1.0, count/B²),
    computed in binary32, where count is the counter of the block
    cx = min(x/B, congestion_cols - 1), cy = min(y/B, congestion_rows - 1)
    of that layer; cx is x/B and cy is y/B wherever such a block exists. *)
Theorem get_congestion_block g x y layer :
  wf g ->
  Grid3D.is_valid g x y layer = true ->
  let B := Grid3D.congestion_size_ in
  let cx := Z.min (x ÷ B) (Grid3D.congestion_cols_ g - 1) in
  let cy := Z.min (y ÷ B) (Grid3D.congestion_rows_ g - 1) in
  B = 8 /\
  (forall cols rows layers resolution origin_x origin_y,
     let g0 := Grid3D.new cols rows layers resolution origin_x origin_y in
     Grid3D.congestion_cols_ g0 = Z.max 1 (cols ÷ B) /\
     Grid3D.congestion_rows_ g0 = Z.max 1 (rows ÷ B) /\
     length (Grid3D.congestion_ g0)
     = Z.to_nat (layers * Z.max 1 (rows ÷ B) * Z.max 1 (cols ÷ B))) /\
  0 <= cx < Grid3D.congestion_cols_ g /\
  0 <= cy < Grid3D.congestion_rows_ g /\
  (x ÷ B < Grid3D.congestion_cols_ g -> cx = x ÷ B) /\
  (y ÷ B < Grid3D.congestion_rows_ g -> cy = y ÷ B) /\
  exists count,
    Grid3D.congestion_ g
      !! Z.to_nat (layer * Grid3D.congestion_rows_ g * Grid3D.congestion_cols_ g
                   + cy * Grid3D.congestion_cols_ g + cx) = Some count /\
    Grid3D.get_congestion g x y layer
    = F32.min F32.one (F32.div (F32.of_int count) (F32.of_int (B * B))).
Proof.
  intros Hwf Hv B cx cy.
  pose proof (congestion_index_bound g x y layer Hwf Hv) as Hb.
  pose proof (wf_congestion_cols g Hwf) as Hcc.
  pose proof (wf_congestion_rows g Hwf) as Hcr.
  apply is_valid_spec in Hv as (Hx & Hy & Hl).
  assert (0 <= x ÷ 8) by (apply Z.quot_pos; lia).
  assert (0 <= y ÷ 8) by (apply Z.quot_pos; lia).
  subst B cx cy. unfold Grid3D.congestion_size_ in *.
  split; [done|]. split.
  { intros cols rows layers ? ? ?. cbn. by rewrite length_replicate. }
  split; [lia|]. split; [lia|]. split; [lia|]. split; [lia|].
  unfold Grid3D.get_congestion.
  change (Grid3D.congestion_index g x y layer)
    with (layer * Grid3D.congestion_rows_ g * Grid3D.congestion_cols_ g
          + Z.min (y ÷ 8) (Grid3D.congestion_rows_ g - 1) * Grid3D.congestion_cols_ g
          + Z.min (x ÷ 8) (Grid3D.congestion_cols_ g - 1)) in *.
  destruct (lookup_lt_is_Some_2 (Grid3D.congestion_ g)
              (Z.to_nat (layer * Grid3D.congestion_rows_ g * Grid3D.congestion_cols_ g
          + Z.min (y ÷ 8) (Grid3D.congestion_rows_ g - 1) * Grid3D.congestion_cols_ g
          + Z.min (x ÷ 8) (Grid3D.congestion_cols_ g - 1)))) as [count Hc]; [lia|].
  exists count. split; [done|]. by rewrite Hc.
Qed.

Lemma get_congestion_block_witness :
  wf Scenario.via_grid /\
  Grid3D.is_valid Scenario.via_grid 16 0 0 = true /\
  let g := Scenario.via_grid in
  let B := Grid3D.congestion_size_ in
  let cx := Z.min (16 ÷ B) (Grid3D.congestion_cols_ g - 1) in
  let cy := Z.min (0 ÷ B) (Grid3D.congestion_rows_ g - 1) in
  B = 8 /\
  (forall cols rows layers resolution origin_x origin_y,
     let g0 := Grid3D.new cols rows layers resolution origin_x origin_y in
     Grid3D.congestion_cols_ g0 = Z.max 1 (cols ÷ B) /\
     Grid3D.congestion_rows_ g0 = Z.max 1 (rows ÷ B) /\
     length (Grid3D.congestion_ g0)
     = Z.to_nat (layers * Z.max 1 (rows ÷ B) * Z.max 1 (cols ÷ B))) /\
  0 <= cx < Grid3D.congestion_cols_ g /\
  0 <= cy < Grid3D.congestion_rows_ g /\
  (16 ÷ B < Grid3D.congestion_cols_ g -> cx = 16 ÷ B) /\
  (0 ÷ B < Grid3D.congestion_rows_ g -> cy = 0 ÷ B) /\
  exists count,
    Grid3D.congestion_ g
      !! Z.to_nat (0 * Grid3D.congestion_rows_ g * Grid3D.congestion_cols_ g
                   + cy * Grid3D.congestion_cols_ g + cx) = Some count /\
    Grid3D.get_congestion g 16 0 0
    = F32.min F32.one (F32.div (F32.of_int count) (F32.of_int (B * B))).
Proof.
  assert (wf Scenario.via_grid) as Hwf by (split; vm_compute; congruence).
  split; [exact Hwf|]. split; [reflexivity|].
  exact (get_congestion_block Scenario.via_grid 16 0 0 Hwf eq_refl).
Defined.

(** ** Facts about the search *)

Module RouteFacts.
Import Pathfinder RouteSpec.

(** *** The open set *)

Lemma finite_lt_pos m1 e1 m2 e2 :
  SFltb (S754_finite false m1 e1) (S754_finite false m2 e2) = true <->
  e1 < e2 \/ (e1 = e2 /\ (m1 < m2)%positive).
Proof.
  unfold SFltb. simpl. change (Pos.compare_cont Eq m1 m2) with (m1 ?= m2)%positive.
  destruct (Z.compare_spec e1 e2), (Pos.compare_spec m1 m2); split; try done; lia.
Qed.

Lemma finite_lt_neg m1 e1 m2 e2 :
  SFltb (S754_finite true m1 e1) (S754_finite true m2 e2) = true <->
  e2 < e1 \/ (e1 = e2 /\ (m2 < m1)%positive).
Proof.
  unfold SFltb. simpl. change (Pos.compare_cont Eq m1 m2) with (m1 ?= m2)%positive.
  destruct (Z.compare_spec e1 e2), (Pos.compare_spec m1 m2); split; simpl; try done; lia.
Qed.

Lemma ltb_irrefl a : F32.ltb a a = false.
Proof.
  unfold F32.ltb. destruct a as [s|s| |[] m e]; try done; try by destruct s.
  - apply not_true_is_false. intros H%finite_lt_neg. lia.
  - apply not_true_is_false. intros H%finite_lt_pos. lia.
Qed.

Lemma ltb_trans a b c :
  F32.ltb a b = true -> F32.ltb b c = true -> F32.ltb a c = true.
Proof.
  unfold F32.ltb.
  destruct a as [sa|sa| |sa ma ea], b as [sb|sb| |sb mb eb], c as [sc|sc| |sc mc ec];
    try done; try (destruct sa); try (destruct sb); try (destruct sc); try done.
  - intros H1%finite_lt_neg H2%finite_lt_neg. apply finite_lt_neg. lia.
  - intros H1%finite_lt_pos H2%finite_lt_pos. apply finite_lt_pos. lia.
Qed.




Lemma pop_elem choose q n rest :
  OpenSet.pop choose q = Some (n, rest) ->
  n ∈ q /\ forall m, m ∈ rest -> m ∈ q.
Proof.
  unfold OpenSet.pop. set (i := match OpenSet.candidates q with [i] => i | _ => _ end).
  destruct (q !! i) as [n'|] eqn:Hi; [|done]. intros [= <- <-]. split.
  - by eapply list_elem_of_lookup_2.
  - intros m Hm. by eapply list_elem_of_delete_inv.
Qed.

Section Route.
Variable choose : Z -> list AStarNode.t -> nat.
Variable pf : t.
Variables (start_x start_y : float) (start_layer : Z).
Variables (end_x end_y : float) (end_layer : Z).
Variable net : Z.
Variables start_layers end_layers : list Z.
Variable negotiated_mode : bool.
Variables present_cost_factor weight : float.

Local Abbreviation relax := Pathfinder.relax.
Local Abbreviation expand_neighbor :=
  (Pathfinder.expand_neighbor pf start_x start_y start_layer end_x end_y end_layer
     net start_layers end_layers negotiated_mode present_cost_factor weight).
Local Abbreviation expand_via :=
  (Pathfinder.expand_via pf end_x end_y end_layer
     net end_layers negotiated_mode present_cost_factor weight).
Local Abbreviation search_loop :=
  (Pathfinder.search_loop choose pf start_x start_y start_layer end_x end_y end_layer
     net start_layers end_layers negotiated_mode present_cost_factor weight).
Local Abbreviation search :=
  (Pathfinder.search choose pf start_x start_y start_layer end_x end_y end_layer
     net start_layers end_layers negotiated_mode present_cost_factor weight).
Local Abbreviation initial_search :=
  (Pathfinder.initial_search pf start_x start_y start_layer end_x end_y end_layer
     start_layers end_layers).
Local Abbreviation route :=
  (Pathfinder.route choose pf start_x start_y start_layer end_x end_y end_layer
     net start_layers end_layers negotiated_mode present_cost_factor weight).

Lemma extends_refl idx st : extends idx st st.
Proof. unfold extends. repeat split; auto. Qed.

Lemma extends_trans idx st1 st2 st3 :
  extends idx st1 st2 -> extends idx st2 st3 -> extends idx st1 st3.
Proof.
  intros (? & ? & ? & ? & H12) (? & ? & ? & ? & H23).
  unfold extends. repeat split; try congruence.
  intros n Hn. destruct (H23 n Hn) as [Hn'|Hn']; auto.
Qed.

Lemma relax_extends n st :
  extends (AStarNode.parent_idx n) st (relax n st).
Proof.
  unfold relax. destruct (match g_scores st !! _ with Some _ => _ | None => _ end);
    [|apply extends_refl].
  unfold extends. simpl. repeat split; try done.
  intros m [->|Hm]%elem_of_cons; auto.
Qed.

Lemma expand_neighbor_extends current idx st nb :
  extends idx st (expand_neighbor current idx st nb).
Proof.
  unfold Pathfinder.expand_neighbor.
  destruct (step_blocked _ _ _ _ _ _ _ _ _ _ _ _ _); [apply extends_refl|].
  destruct (bool_decide _); [apply extends_refl|].
  apply (relax_extends (AStarNode.mk _ _ _ _ _ idx _ _ _)).
Qed.

Lemma expand_via_extends current idx st l :
  extends idx st (expand_via current idx st l).
Proof.
  unfold Pathfinder.expand_via.
  destruct (via_blocked _ _ _ _ _); [apply extends_refl|].
  destruct (bool_decide _); [apply extends_refl|].
  apply (relax_extends (AStarNode.mk _ _ _ _ _ idx _ _ _)).
Qed.

Lemma fold_extends {A : Type} (f : Search -> A -> Search) idx (l : list A) st :
  (forall st a, extends idx st (f st a)) -> extends idx st (fold_left f l st).
Proof.
  intros Hf. revert st. induction l as [|a l IH]; intros st; [apply extends_refl|].
  simpl. eapply extends_trans; [apply Hf|apply IH].
Qed.

Lemma expand_all_extends current idx st :
  extends idx st
    (fold_left (expand_via current idx) (routable_layers_ pf)
       (fold_left (expand_neighbor current idx) (neighbors_2d_ pf) st)).
Proof.
  eapply extends_trans.
  - apply (fold_extends (expand_neighbor current idx)). intros.
    apply expand_neighbor_extends.
  - apply (fold_extends (expand_via current idx)). intros.
    apply expand_via_extends.
Qed.

Lemma initial_search_spec :
  closed_list initial_search = [] /\ iterations initial_search = 0 /\
  forall n, n ∈ open_set initial_search -> AStarNode.parent_idx n = -1.
Proof.
  unfold Pathfinder.initial_search.
  generalize (valid_start_layers start_layer start_layers).
  assert (closed_list (mkSearch [] ∅ ∅ [] 0 0) = [] /\
          iterations (mkSearch [] ∅ ∅ [] 0 0) = 0 /\
          forall n, n ∈ open_set (mkSearch [] ∅ ∅ [] 0 0) ->
                    AStarNode.parent_idx n = -1) as H.
  { repeat split. intros n Hn. by apply elem_of_nil in Hn. }
  revert H. generalize (mkSearch [] ∅ ∅ [] 0 0).
  intros st H l. revert st H. induction l as [|sl l IH]; intros st H; [done|].
  simpl. apply IH. destruct H as (Hc & Hi & Ho). simpl. repeat split; try done.
  intros n [->|Hn]%elem_of_cons; [done|auto].
Qed.

Lemma search_loop_spec fuel st :
  parents_ok st ->
  let o := search_loop fuel st in
  parents_before (closed_list (final_state o)) /\
  iterations st <= iterations (final_state o) <= iterations st + Z.of_nat fuel /\
  match o with
  | Found idx st' => 0 <= idx < Z.of_nat (length (closed_list st'))
  | _ => True
  end.
Proof.
  revert st. induction fuel as [|fuel IH]; intros st [Hcl Hop]; simpl.
  - destruct (open_set st); simpl; (split; [done|split; [lia|done]]).
  - destruct (open_set st) as [|n0 q] eqn:Hq; simpl; [split; [done|split; [lia|done]]|].
    rewrite <- Hq in Hop |- *.
    destruct (OpenSet.pop _ _) as [[current rest]|] eqn:Hpop;
      [|simpl; split; [done|split; [lia|done]]].
    apply pop_elem in Hpop as [Hcur Hrest].
    destruct (bool_decide _).
    + match goal with |- context [search_loop fuel ?s] =>
        assert (parents_ok s) as Hok; [|destruct (IH s Hok) as (H1 & H2 & H3)] end.
      { split; [done|]. simpl. intros n Hn. by apply Hop, Hrest. }
      simpl in H2. split; [done|]. split; [lia|done].
    + assert (parents_before (closed_list st ++ [current])) as Hcl'.
      { intros i n Hi. apply lookup_snoc_Some in Hi as [[_ Hi]|[-> <-]]; [eauto|].
        by apply Hop. }
      destruct (goal_test _ _ _ _ _ _) eqn:Hgoal; simpl.
      * split; [done|]. split; [lia|]. rewrite length_app. simpl. lia.
      * match goal with |- context [search_loop fuel ?s] =>
          set (s' := s) in *; assert (parents_ok s') as Hok;
          [subst s'|destruct (IH s' Hok) as (H1 & H2 & H3)] end.
        { destruct (expand_all_extends current (Z.of_nat (length (closed_list st)))
                      (mkSearch rest
                         ({[(AStarNode.x current, AStarNode.y current,
                             AStarNode.layer current)]} ∪ closed_set st)
                         (g_scores st) (closed_list st ++ [current])
                         (iterations st + 1) (nodes_explored st + 1)))
            as (_ & Ecl & _ & _ & Eop).
          split; rewrite Ecl; simpl; [done|].
          intros n Hn. rewrite length_app. simpl.
          destruct (Eop n Hn) as [Hn'|Hn']; simpl in Hn'; [|lia].
          specialize (Hop n (Hrest n Hn')). lia. }
        assert (iterations s' = iterations st + 1) as Hit.
        { subst s'.
          destruct (expand_all_extends current (Z.of_nat (length (closed_list st)))
                      (mkSearch rest
                         ({[(AStarNode.x current, AStarNode.y current,
                             AStarNode.layer current)]} ∪ closed_set st)
                         (g_scores st) (closed_list st ++ [current])
                         (iterations st + 1) (nodes_explored st + 1)))
            as (_ & _ & Eit & _ & _).
          by rewrite Eit. }
        split; [done|]. split; [lia|done].
Qed.

(** *** The g-scores of the search *)

Local Abbreviation step_blocked :=
  (Pathfinder.step_blocked pf start_x start_y start_layer end_x end_y end_layer
     net start_layers end_layers negotiated_mode).
Local Abbreviation step_g := (Pathfinder.step_g pf negotiated_mode present_cost_factor).
Local Abbreviation via_blocked := (Pathfinder.via_blocked pf net negotiated_mode).
Local Abbreviation via_g := (Pathfinder.via_g pf negotiated_mode present_cost_factor).
Local Abbreviation goal_test := (Pathfinder.goal_test pf end_x end_y end_layer end_layers).
Local Abbreviation apply_move :=
  (RouteSpec.apply_move pf start_x start_y start_layer end_x end_y end_layer net
     start_layers end_layers negotiated_mode present_cost_factor).
Local Abbreviation follow :=
  (RouteSpec.follow pf start_x start_y start_layer end_x end_y end_layer net
     start_layers end_layers negotiated_mode present_cost_factor).
Local Abbreviation legal_path_cost :=
  (RouteSpec.legal_path_cost pf start_x start_y start_layer end_x end_y end_layer net
     start_layers end_layers negotiated_mode present_cost_factor).
Local Abbreviation realizable :=
  (realizable pf start_x start_y start_layer end_x end_y end_layer net
     start_layers end_layers negotiated_mode present_cost_factor).
Local Abbreviation all_realizable :=
  (all_realizable pf start_x start_y start_layer end_x end_y end_layer net
     start_layers end_layers negotiated_mode present_cost_factor).

Ltac same_fields H :=
  let n := fresh in let n' := fresh in
  match type of H with same_state ?a ?b =>
    destruct a, b; unfold same_state in H; simpl in H;
    destruct H as (? & ? & ? & ? & ? & ?); subst
  end.

Lemma step_blocked_same n n' nb :
  same_state n n' -> step_blocked n nb = step_blocked n' nb.
Proof. intros H. by same_fields H. Qed.

Lemma step_g_same n n' nb : same_state n n' -> step_g n nb = step_g n' nb.
Proof. intros H. by same_fields H. Qed.

Lemma via_blocked_same n n' l : same_state n n' -> via_blocked n l = via_blocked n' l.
Proof. intros H. by same_fields H. Qed.

Lemma via_g_same n n' l : same_state n n' -> via_g n l = via_g n' l.
Proof. intros H. by same_fields H. Qed.

Lemma goal_test_same n n' : same_state n n' -> goal_test n = goal_test n'.
Proof. intros H. by same_fields H. Qed.

Lemma follow_snoc n moves m :
  follow n (moves ++ [m]) = follow n moves ≫= fun n' => apply_move n' m.
Proof.
  revert n. induction moves as [|m' moves IH]; intros n; simpl.
  - by destruct (apply_move n m).
  - destruct (apply_move n m'); [apply IH|done].
Qed.

Lemma realizable_step current nb i f idx :
  realizable current ->
  neighbors_2d_ pf !! i = Some nb ->
  step_blocked current nb = false ->
  realizable (AStarNode.mk f (step_g current nb)
                (AStarNode.x current + Neighbor.dx nb)
                (AStarNode.y current + Neighbor.dy nb)
                (AStarNode.layer current) idx false (Neighbor.dx nb) (Neighbor.dy nb)).
Proof.
  intros (sl & moves & n' & Hsl & Hf & Hs) Hi Hb.
  exists sl, (moves ++ [Step i]). eexists. split; [done|]. split.
  - rewrite follow_snoc, Hf. simpl. unfold RouteSpec.apply_move. rewrite Hi.
    rewrite <- (step_blocked_same _ _ _ Hs), Hb. reflexivity.
  - rewrite (step_g_same _ _ _ Hs). unfold same_state in *. simpl.
    destruct Hs as (-> & -> & -> & _). done.
Qed.

Lemma realizable_via current l f idx :
  realizable current ->
  contains (routable_layers_ pf) l = true ->
  via_blocked current l = false ->
  realizable (AStarNode.mk f (via_g current l) (AStarNode.x current)
                (AStarNode.y current) l idx true
                (AStarNode.dx current) (AStarNode.dy current)).
Proof.
  intros (sl & moves & n' & Hsl & Hf & Hs) Hl Hb.
  exists sl, (moves ++ [ChangeLayer l]). eexists. split; [done|]. split.
  - rewrite follow_snoc, Hf. simpl. unfold RouteSpec.apply_move. rewrite Hl.
    rewrite <- (via_blocked_same _ _ _ Hs), Hb. reflexivity.
  - rewrite (via_g_same _ _ _ Hs). unfold same_state in *. simpl.
    destruct Hs as (-> & -> & _ & -> & -> & _). done.
Qed.

Lemma relax_realizable n st :
  realizable n -> all_realizable st -> all_realizable (relax n st).
Proof.
  intros Hn Hst. unfold relax.
  destruct (match g_scores st !! _ with Some _ => _ | None => _ end); [|done].
  intros m [[->|Hm]%elem_of_cons|Hm]; simpl in *; auto.
Qed.

Lemma expand_neighbor_realizable current idx st nb i :
  realizable current -> neighbors_2d_ pf !! i = Some nb ->
  all_realizable st -> all_realizable (expand_neighbor current idx st nb).
Proof.
  intros Hc Hi Hst. unfold Pathfinder.expand_neighbor.
  destruct (step_blocked current nb) eqn:Hb; [done|].
  destruct (bool_decide _); [done|].
  apply relax_realizable; [|done]. by eapply realizable_step.
Qed.

Lemma contains_elem (v : list Z) l : l ∈ v -> contains v l = true.
Proof.
  intros H. apply existsb_exists. exists l. split; [by apply list_elem_of_In|].
  apply Z.eqb_refl.
Qed.

Lemma expand_via_realizable current idx st l :
  realizable current -> l ∈ routable_layers_ pf ->
  all_realizable st -> all_realizable (expand_via current idx st l).
Proof.
  intros Hc Hl Hst. unfold Pathfinder.expand_via.
  destruct (via_blocked current l) eqn:Hb; [done|].
  destruct (bool_decide _); [done|].
  apply relax_realizable; [|done]. apply realizable_via; [done| |done].
  by apply contains_elem.
Qed.

Lemma fold_left_invariant {A S : Type} (P : S -> Prop) (f : S -> A -> S) (l : list A) s :
  (forall a s, a ∈ l -> P s -> P (f s a)) -> P s -> P (fold_left f l s).
Proof.
  revert s. induction l as [|a l IH]; intros s Hf Hs; [done|].
  simpl. apply IH; [|apply Hf; [left|done]].
  intros. apply Hf; [by right|done].
Qed.

Lemma initial_search_realizable : all_realizable initial_search.
Proof.
  unfold Pathfinder.initial_search.
  apply (fold_left_invariant all_realizable).
  - intros sl st Hsl Hst n [[->|Hn]%elem_of_cons|Hn]; simpl in *; auto.
    exists sl, []. eexists. split; [by apply contains_elem|]. split; [reflexivity|].
    unfold same_state. simpl. done.
  - intros n [Hn|Hn]; simpl in Hn; by apply elem_of_nil in Hn.
Qed.

Lemma search_loop_realizable fuel st :
  all_realizable st ->
  let o := search_loop fuel st in
  all_realizable (final_state o) /\
  match o with
  | Found idx st' =>
      exists goal, closed_list st' !! Z.to_nat idx = Some goal /\ goal_test goal = true
  | _ => True
  end.
Proof.
  revert st. induction fuel as [|fuel IH]; intros st Hst; simpl.
  - by destruct (open_set st).
  - destruct (open_set st) as [|n0 q] eqn:Hq; [done|]. rewrite <- Hq.
    destruct (OpenSet.pop _ _) as [[current rest]|] eqn:Hpop; [|done].
    apply pop_elem in Hpop as [Hcur Hrest].
    assert (realizable current) as Hc by (apply Hst; by left).
    destruct (bool_decide _).
    + apply IH. intros n [Hn|Hn]; simpl in Hn; apply Hst; auto.
    + assert (all_realizable
                (mkSearch rest
                   ({[(AStarNode.x current, AStarNode.y current,
                       AStarNode.layer current)]} ∪ closed_set st)
                   (g_scores st) (closed_list st ++ [current])
                   (iterations st + 1) (nodes_explored st + 1))) as Hst'.
      { intros n [Hn|Hn]; simpl in Hn; [apply Hst; auto|].
        apply elem_of_app in Hn as [Hn|Hn%list_elem_of_singleton]; [|by subst].
        apply Hst. by right. }
      destruct (goal_test current) eqn:Hgoal; simpl.
      * split; [done|]. exists current. split; [|done].
        rewrite Nat2Z.id. by apply list_lookup_middle.
      * apply IH. apply (fold_left_invariant all_realizable).
        { intros l s Hl Hs. by apply expand_via_realizable. }
        apply (fold_left_invariant all_realizable); [|done].
        intros nb s Hnb Hs. apply list_elem_of_lookup in Hnb as [i Hi].
        by eapply expand_neighbor_realizable.
Qed.

(** The g-score of the goal node a successful search returns is the cost
    of a legal path. *)
Lemma search_found_cost idx st :
  search = Found idx st ->
  exists goal sl moves,
    closed_list st !! Z.to_nat idx = Some goal /\
    legal_path_cost sl moves = Some (AStarNode.g_score goal).
Proof.
  intros Hs.
  pose proof (search_loop_realizable (Z.to_nat (max_iterations pf)) initial_search
                initial_search_realizable) as [Hall Hgoal].
  fold search in Hall, Hgoal. rewrite Hs in Hall, Hgoal. simpl in Hall.
  destruct Hgoal as (goal & Hl & Hg).
  destruct (Hall goal) as (sl & moves & n' & Hsl & Hf & Hsame).
  { right. by eapply list_elem_of_lookup_2. }
  exists goal, sl, moves. split; [done|].
  unfold RouteSpec.legal_path_cost. rewrite Hsl, Hf.
  rewrite <- (goal_test_same _ _ Hsame), Hg.
  destruct Hsame as (_ & _ & _ & _ & _ & ->). done.
Qed.

(** *** Termination of [route] *)

Lemma existsb_false {A : Type} (f : A -> bool) (l : list A) :
  existsb f l = false -> forall a, a ∈ l -> f a = false.
Proof.
  induction l as [|b l IH]; intros H a Ha; [by apply elem_of_nil in Ha|].
  simpl in H. apply orb_false_iff in H as [Hb Hl].
  apply elem_of_cons in Ha as [->|Ha]; auto.
Qed.

(** Outside negotiated mode, a cell [is_trace_blocked] accepts has a clear
    footprint. *)
Lemma trace_check_gives_clearance x y layer :
  is_trace_blocked pf x y layer net false = false ->
  footprint_clear pf start_x start_y start_layer end_x end_y end_layer net
    start_layers end_layers x y layer = true.
Proof.
  intros H. unfold footprint_clear.
  apply forallb_forall. intros dy Hdy%list_elem_of_In.
  apply forallb_forall. intros dx Hdx%list_elem_of_In.
  pose proof (existsb_false _ _ (existsb_false _ _ H dy Hdy) dx Hdx) as Hc.
  unfold cell_blocks in Hc. unfold cell_tolerated.
  destruct (Grid3D.is_valid _ _ _ _); [|done]. simpl in *.
  destruct (GridCell.blocked _); [|done]. simpl in *.
  destruct (GridCell.is_obstacle _); [done|]. simpl in *.
  by destruct (GridCell.net _ =? net).
Qed.

Lemma walk_parents_some closed :
  parents_before closed ->
  forall fuel idx path,
    idx < Z.of_nat fuel ->
    is_Some (walk_parents pf fuel closed idx path).
Proof.
  intros Hcl. induction fuel as [|fuel IH]; intros idx path Hf.
  - simpl. destruct ((0 <=? idx) && _) eqn:E; [|done].
    apply andb_true_iff in E as [E _]. lia.
  - cbn [walk_parents]. destruct ((0 <=? idx) && _) eqn:E; [|done].
    destruct (closed !! Z.to_nat idx) as [node|] eqn:Hn; [|done].
    destruct (Grid3D.grid_to_world _ _ _) as [wx wy].
    apply IH. apply andb_true_iff in E as [E _].
    specialize (Hcl _ _ Hn). lia.
Qed.

Lemma reconstruct_path_some closed end_idx :
  parents_before closed -> end_idx < Z.of_nat (length closed) ->
  is_Some (reconstruct_path pf start_x start_y end_x end_y net closed end_idx).
Proof.
  intros Hcl Hi. unfold reconstruct_path.
  destruct (walk_parents_some closed Hcl (length closed) end_idx [] Hi) as [p ->].
  destruct (rev p) as [|[[[? ?] ?] ?] [|? ?]]; done.
Qed.

Lemma search_spec :
  parents_before (closed_list (final_state search)) /\
  0 <= iterations (final_state search)
    <= Z.of_nat (Z.to_nat (max_iterations pf)) /\
  match search with
  | Found idx st' => 0 <= idx < Z.of_nat (length (closed_list st'))
  | _ => True
  end.
Proof.
  destruct initial_search_spec as (Hcl & Hit & Hop).
  unfold Pathfinder.search.
  match goal with |- context [search_loop ?f ?s] =>
    destruct (search_loop_spec f s) as (H1 & H2 & H3) end.
  - split.
    + rewrite Hcl. intros i n Hi. by rewrite lookup_nil in Hi.
    + intros n Hn. rewrite (Hop n Hn), Hcl. simpl. lia.
  - rewrite Hit in H2. split; [done|]. split; [lia|done].
Qed.

(** [route] returns: the pathfinder it leaves differs from [pf] in the
    two statistics only. *)
Lemma route_returns :
  exists result,
    route = Some (result, with_statistics pf (final_state search)).
Proof.
  destruct search_spec as (Hcl & _ & Hidx). unfold Pathfinder.route.
  destruct search as [idx st|st|st]; simpl in *; eauto.
  destruct (reconstruct_path_some (closed_list st) idx Hcl) as [r ->]; [lia|].
  eauto.
Qed.
End Route.
End RouteFacts.

Import RouteFacts.

(** C5.  A call of [route] whose search exhausts the open set or reaches
    the iteration cap returns the result with [success = false], no
    segments, no vias and the requested net. *)
Theorem route_failure_result choose pf start_x start_y start_layer
    end_x end_y end_layer net start_layers end_layers negotiated_mode
    present_cost_factor weight :
  (exists st,
     Pathfinder.search choose pf start_x start_y start_layer end_x end_y end_layer
       net start_layers end_layers negotiated_mode present_cost_factor weight
     = Pathfinder.OpenSetExhausted st \/
     Pathfinder.search choose pf start_x start_y start_layer end_x end_y end_layer
       net start_layers end_layers negotiated_mode present_cost_factor weight
     = Pathfinder.IterationCapReached st) ->
  exists pf',
    Pathfinder.route choose pf start_x start_y start_layer end_x end_y end_layer
      net start_layers end_layers negotiated_mode present_cost_factor weight
    = Some (RouteResult.mk [] [] net false, pf').
Proof.
  intros (st & [H|H]); unfold Pathfinder.route; rewrite H; eauto.
Qed.

Lemma route_failure_result_witness :
  let choose := fun (_ : Z) (_ : list AStarNode.t) => 0%nat in
  (exists st,
     Pathfinder.search choose Scenario.walled_pathfinder
       F32.zero F32.zero 0 (F32.of_int 2) F32.zero 0 7 [] [] false F32.zero F32.one
     = Pathfinder.OpenSetExhausted st \/
     Pathfinder.search choose Scenario.walled_pathfinder
       F32.zero F32.zero 0 (F32.of_int 2) F32.zero 0 7 [] [] false F32.zero F32.one
     = Pathfinder.IterationCapReached st) /\
  exists pf',
    Pathfinder.route choose Scenario.walled_pathfinder
      F32.zero F32.zero 0 (F32.of_int 2) F32.zero 0 7 [] [] false F32.zero F32.one
    = Some (RouteResult.mk [] [] 7 false, pf').
Proof.
  intros choose.
  assert (exists st,
     Pathfinder.search choose Scenario.walled_pathfinder
       F32.zero F32.zero 0 (F32.of_int 2) F32.zero 0 7 [] [] false F32.zero F32.one
     = Pathfinder.OpenSetExhausted st \/
     Pathfinder.search choose Scenario.walled_pathfinder
       F32.zero F32.zero 0 (F32.of_int 2) F32.zero 0 7 [] [] false F32.zero F32.one
     = Pathfinder.IterationCapReached st) as H.
  { eexists. left. vm_compute. reflexivity. }
  split; [exact H|]. exact (route_failure_result _ _ _ _ _ _ _ _ _ _ _ _ _ _ H).
Defined.

(** The iteration cap is reached as well: on a 1 x 1 grid (cap 4), five
    start nodes and an end layer the grid does not have. *)
Example route_cap_reached :
  exists st,
    Pathfinder.search (fun _ _ => 0%nat)
      (Pathfinder.new (Grid3D.new 1 1 1 F32.one F32.zero F32.zero) Scenario.rules true)
      F32.zero F32.zero 0 F32.zero F32.zero 1 7 [0; 0; 0; 0; 0] [] false F32.zero F32.one
    = Pathfinder.IterationCapReached st /\ Pathfinder.iterations st = 4.
Proof. eexists. vm_compute. split; reflexivity. Qed.

(** C6.  [route] does not mutate the grid: every call returns, and the
    grid of the pathfinder after the call is the grid before it, cell by
    cell (all fields of every [GridCell]) and counter by counter. *)
Theorem route_preserves_grid choose pf start_x start_y start_layer
    end_x end_y end_layer net start_layers end_layers negotiated_mode
    present_cost_factor weight :
  exists result pf',
    Pathfinder.route choose pf start_x start_y start_layer end_x end_y end_layer
      net start_layers end_layers negotiated_mode present_cost_factor weight
    = Some (result, pf') /\
    Pathfinder.grid_ pf' = Pathfinder.grid_ pf /\
    Grid3D.cells_ (Pathfinder.grid_ pf') = Grid3D.cells_ (Pathfinder.grid_ pf) /\
    Grid3D.congestion_ (Pathfinder.grid_ pf')
    = Grid3D.congestion_ (Pathfinder.grid_ pf).
Proof.
  destruct (route_returns choose pf start_x start_y start_layer end_x end_y
              end_layer net start_layers end_layers negotiated_mode
              present_cost_factor weight) as [result ->].
  eexists _, _. split; [reflexivity|]. done.
Qed.

(** C9.  Every call of [route] on a grid of non-negative dimensions
    returns, and the iterations it reports, the number of nodes popped
    from the open set, lie between 0 and cols * rows * 4. *)
Theorem route_iterations_bounded choose pf start_x start_y start_layer
    end_x end_y end_layer net start_layers end_layers negotiated_mode
    present_cost_factor weight :
  0 <= Grid3D.cols (Pathfinder.grid_ pf) ->
  0 <= Grid3D.rows (Pathfinder.grid_ pf) ->
  exists result pf',
    Pathfinder.route choose pf start_x start_y start_layer end_x end_y end_layer
      net start_layers end_layers negotiated_mode present_cost_factor weight
    = Some (result, pf') /\
    0 <= Pathfinder.get_iterations pf'
      <= Grid3D.cols (Pathfinder.grid_ pf) * Grid3D.rows (Pathfinder.grid_ pf) * 4.
Proof.
  intros Hc Hr.
  destruct (route_returns choose pf start_x start_y start_layer end_x end_y
              end_layer net start_layers end_layers negotiated_mode
              present_cost_factor weight) as [result ->].
  eexists _, _. split; [reflexivity|].
  destruct (search_spec choose pf start_x start_y start_layer end_x end_y
              end_layer net start_layers end_layers negotiated_mode
              present_cost_factor weight) as (_ & Hit & _).
  unfold Pathfinder.get_iterations, Pathfinder.with_statistics. simpl.
  unfold Pathfinder.max_iterations in Hit. nia.
Qed.

Lemma route_iterations_bounded_witness :
  let choose := fun (_ : Z) (_ : list AStarNode.t) => 0%nat in
  0 <= Grid3D.cols (Pathfinder.grid_ Scenario.corridor_pathfinder) /\
  0 <= Grid3D.rows (Pathfinder.grid_ Scenario.corridor_pathfinder) /\
  exists result pf',
    Pathfinder.route choose Scenario.corridor_pathfinder
      F32.zero F32.zero 0 (F32.of_int 3) F32.zero 0 7 [] [] false F32.zero F32.one
    = Some (result, pf') /\
    0 <= Pathfinder.get_iterations pf'
      <= Grid3D.cols (Pathfinder.grid_ Scenario.corridor_pathfinder)
         * Grid3D.rows (Pathfinder.grid_ Scenario.corridor_pathfinder) * 4.
Proof.
  intros choose. split; [vm_compute; congruence|]. split; [vm_compute; congruence|].
  apply (route_iterations_bounded choose Scenario.corridor_pathfinder);
    vm_compute; congruence.
Defined.

(** C1 (the code departs from it).  On [corridor_grid] the call
    [corridor_route] succeeds, whatever the order of ties in the open set,
    with the three unit segments (0,0)-(1,0), (1,0)-(2,0), (2,0)-(3,0) on
    layer 0; the trace footprint radius is 1 cell, and the cell (1, 1),
    at distance 1 of the grid point (1, 0), which is neither the start nor
    the end cell, is a static obstacle of net 0: the footprint is not
    clear there, and [is_trace_blocked], which [route] does not call for a
    free cell, rejects the point. *)
Theorem corridor_route_ignores_clearance choose :
  exists result pf',
    Scenario.corridor_route choose = Some (result, pf') /\
    RouteResult.success result = true /\
    RouteSpec.segment_points Scenario.corridor_pathfinder
      <$> RouteResult.segments result
    = [[(0, 0); (1, 0)]; [(1, 0); (2, 0)]; [(2, 0); (3, 0)]] /\
    Segment.layer <$> RouteResult.segments result = [0; 0; 0] /\
    Pathfinder.trace_half_width_cells_ Scenario.corridor_pathfinder = 1 /\
    Grid3D.at_ Scenario.corridor_grid 1 1 0
    = GridCell.mk true 0 0 F32.zero true false false 0 /\
    Pathfinder.is_trace_blocked Scenario.corridor_pathfinder 1 0 0 7 false = true /\
    RouteSpec.footprint_clear Scenario.corridor_pathfinder
      F32.zero F32.zero 0 (F32.of_int 3) F32.zero 0 7 [] [] 1 0 0 = false /\
    RouteSpec.clearance_enforced Scenario.corridor_pathfinder
      F32.zero F32.zero 0 (F32.of_int 3) F32.zero 0 7 [] [] result = false.
Proof.
  eexists _, _. split; [vm_compute; reflexivity|].
  vm_compute. repeat split; reflexivity.
Qed.

(** C2 (the code departs from it).  On [maze_grid], with weight 1 and
    negotiated mode off, the search succeeds, whatever the order of ties
    in the open set, and the goal node it returns has g-score 12, the cost
    of the legal path [maze_found], while the legal path [maze_detour]
    from the start cell to the end cell costs 11: the returned g-score is
    not the minimum over the legal paths. *)
Theorem maze_search_not_minimal choose :
  exists idx st goal,
    Scenario.maze_search choose = Pathfinder.Found idx st /\
    Pathfinder.closed_list st !! Z.to_nat idx = Some goal /\
    AStarNode.g_score goal = F32.of_int 12 /\
    RouteSpec.legal_path_cost Scenario.maze_pathfinder
      F32.zero F32.one 0 (F32.of_int 3) (F32.of_int 4) 0 7 [] [] false F32.zero
      0 Scenario.maze_found = Some (F32.of_int 12) /\
    RouteSpec.legal_path_cost Scenario.maze_pathfinder
      F32.zero F32.one 0 (F32.of_int 3) (F32.of_int 4) 0 7 [] [] false F32.zero
      0 Scenario.maze_detour = Some (F32.of_int 11) /\
    F32.ltb (F32.of_int 11) (F32.of_int 12) = true /\
    ~ RouteSpec.minimal_cost Scenario.maze_pathfinder
        F32.zero F32.one 0 (F32.of_int 3) (F32.of_int 4) 0 7 [] [] false F32.zero
        (AStarNode.g_score goal).
Proof.
  eexists _, _, _. split; [vm_compute; reflexivity|].
  split; [vm_compute; reflexivity|].
  split; [vm_compute; reflexivity|].
  split; [vm_compute; reflexivity|].
  assert (RouteSpec.legal_path_cost Scenario.maze_pathfinder
      F32.zero F32.one 0 (F32.of_int 3) (F32.of_int 4) 0 7 [] [] false F32.zero
      0 Scenario.maze_detour = Some (F32.of_int 11)) as Hpath
    by (vm_compute; reflexivity).
  split; [exact Hpath|]. split; [vm_compute; reflexivity|].
  intros Hmin. specialize (Hmin 0 Scenario.maze_detour _ Hpath).
  vm_compute in Hmin. discriminate.
Qed.

(** ** Further facts *)

Module LineFacts.
Import GridSpec GridFacts LineSpec.

Section Loop.
Variables x2 y2 dx dy sx sy : Z.
Hypothesis Hsx : sx = 1 \/ sx = -1.
Hypothesis Hsy : sy = 1 \/ sy = -1.

Lemma line_loop_spec fuel x y err rx ry pts :
  0 <= rx <= dx -> 0 <= ry <= dy ->
  x2 = x + sx * rx -> y2 = y + sy * ry ->
  err = dx - dy + rx * dy - ry * dx ->
  bresenham_loop fuel record_point x2 y2 dx dy sx sy x y err [] = Some pts ->
  head pts = Some (x, y) /\ last pts = Some (x2, y2) /\ stepwise pts /\
  (length pts <= S (Z.to_nat (rx + ry)))%nat /\
  Forall (fun p => exists a b, 0 <= a <= rx /\ 0 <= b <= ry /\
                               p = (x2 - sx * a, y2 - sy * b)) pts.
Proof.
  revert x y err rx ry pts.
  induction fuel as [|fuel IH]; intros x y err rx ry pts Hrx Hry Hx Hy He; [done|].
  cbn [bresenham_loop].
  destruct ((x =? x2) && (y =? y2)) eqn:Hend.
  - intros [= <-]. apply andb_true_iff in Hend as [->%Z.eqb_eq ->%Z.eqb_eq].
    cbn. repeat split; try lia.
    constructor; [|constructor]. exists 0, 0. repeat split; try lia.
    f_equal; lia.
  - assert (0 < rx + ry) as Hpos.
    { apply andb_false_iff in Hend as [H|H]; apply Z.eqb_neq in H; nia. }
    assert (forall x' y' err' rx' ry',
              0 <= rx' <= rx -> 0 <= ry' <= ry -> rx' + ry' < rx + ry ->
              rx - rx' <= 1 -> ry - ry' <= 1 ->
              x' = x + sx * (rx - rx') -> y' = y + sy * (ry - ry') ->
              err' = dx - dy + rx' * dy - ry' * dx ->
              bresenham_loop fuel record_point x2 y2 dx dy sx sy x' y' err'
                (record_point x y []) = Some pts ->
              head pts = Some (x, y) /\ last pts = Some (x2, y2) /\ stepwise pts /\
              (length pts <= S (Z.to_nat (rx + ry)))%nat /\
              Forall (fun p => exists a b, 0 <= a <= rx /\ 0 <= b <= ry /\
                                 p = (x2 - sx * a, y2 - sy * b)) pts) as Hstep.
    { intros x' y' err' rx' ry' Hrx' Hry' Hlt H1 H2 Hx' Hy' He'.
      rewrite bresenham_loop_acc.
      destruct (bresenham_loop fuel record_point x2 y2 dx dy sx sy x' y' err' [])
        as [pts'|] eqn:Hl; [|done].
      intros [= <-].
      destruct (IH x' y' err' rx' ry' pts') as (Hh & Hlast & Hsw & Hlen & Hall);
        [lia|lia|nia|nia|done|done|].
      unfold record_point. simpl.
      destruct pts' as [|q pts'']; [done|]. injection Hh as ->.
      split; [done|]. split; [by rewrite last_cons, Hlast|].
      split.
      { split; [|done]. unfold adjacent. simpl. repeat split; try nia.
        intros [= E1 E2]. nia. }
      split; [simpl in *; lia|].
      constructor.
      - exists rx, ry. repeat split; try lia. f_equal; lia.
      - eapply Forall_impl; [exact Hall|].
        intros p (a & b & Ha & Hb & ->). exists a, b. repeat split; lia. }
    destruct (2 * err >? - dy) eqn:E1, (2 * err <? dx) eqn:E2; cbn.
    + apply (Hstep _ _ _ (rx - 1) (ry - 1)); nia.
    + apply (Hstep _ _ _ (rx - 1) ry); nia.
    + apply (Hstep _ _ _ rx (ry - 1)); nia.
    + exfalso. nia.
Qed.
End Loop.

(** X9.  The line [mark_segment] and [unmark_segment] walk starts at
    (x1, y1), ends at (x2, y2), moves from each cell to a cell that touches
    it by a side or a corner, stays in the bounding box of its end points
    and has at most |x2 - x1| + |y2 - y1| + 1 cells. *)
Theorem line_points_connects x1 y1 x2 y2 :
  exists pts,
    line_points x1 y1 x2 y2 = Some pts /\
    head pts = Some (x1, y1) /\ last pts = Some (x2, y2) /\
    stepwise pts /\ Forall (in_box x1 y1 x2 y2) pts /\
    Z.of_nat (length pts) <= Z.abs (x2 - x1) + Z.abs (y2 - y1) + 1.
Proof.
  destruct (line_points_some x1 y1 x2 y2) as [pts Hpts]. exists pts.
  split; [done|]. unfold line_points, bresenham in Hpts.
  set (sx := if x1 <? x2 then 1 else -1) in *.
  set (sy := if y1 <? y2 then 1 else -1) in *.
  assert (sx = 1 \/ sx = -1) as Hsx by (unfold sx; destruct (x1 <? x2); [left|right]; reflexivity).
  assert (sy = 1 \/ sy = -1) as Hsy by (unfold sy; destruct (y1 <? y2); [left|right]; reflexivity).
  assert (x2 = x1 + sx * Z.abs (x2 - x1)) as Hx
    by (unfold sx; destruct (x1 <? x2) eqn:?; lia).
  assert (y2 = y1 + sy * Z.abs (y2 - y1)) as Hy
    by (unfold sy; destruct (y1 <? y2) eqn:?; lia).
  destruct (line_loop_spec x2 y2 (Z.abs (x2 - x1)) (Z.abs (y2 - y1)) sx sy Hsx Hsy
              (S (Z.to_nat (Z.abs (x2 - x1) + Z.abs (y2 - y1)))) x1 y1
              (Z.abs (x2 - x1) - Z.abs (y2 - y1))
              (Z.abs (x2 - x1)) (Z.abs (y2 - y1)) pts)
    as (Hh & Hl & Hs & Hn & Ha); try done; try lia.
  split; [done|]. split; [done|]. split; [done|]. split; [|lia].
  eapply Forall_impl; [exact Ha|].
  intros p (a & b & Ha' & Hb' & ->). unfold in_box. simpl.
  destruct Hsx as [Hsx|Hsx], Hsy as [Hsy|Hsy]; rewrite Hsx in *; rewrite Hsy in *; lia.
Qed.
End LineFacts.

Module FrameFacts.
Import GridSpec GridFacts FrameSpec.

Lemma same_frame_refl g : same_frame g g.
Proof. by repeat split. Qed.

Lemma same_frame_trans g1 g2 g3 :
  same_frame g1 g2 -> same_frame g2 g3 -> same_frame g1 g3.
Proof.
  intros (? & ? & ? & ? & ? & ?) (? & ? & ? & ? & ? & ?).
  repeat split; congruence.
Qed.

Lemma same_frame_is_valid g g' x y layer :
  same_frame g g' -> Grid3D.is_valid g' x y layer = Grid3D.is_valid g x y layer.
Proof. intros (Hc & Hr & Hl & _). unfold Grid3D.is_valid. by rewrite Hc, Hr, Hl. Qed.

Lemma visit_all_frame V ps g :
  (forall g x y layer, same_frame g (V x y layer g)) ->
  same_frame g (visit_all V ps g).
Proof.
  intros HV. revert g. induction ps as [|p ps IH]; intros g; [apply same_frame_refl|].
  eapply same_frame_trans; [apply (HV g p.1.1 p.1.2 p.2)|apply IH].
Qed.

Lemma mark_segment_cell_frame net g x y layer :
  same_frame g (Grid3D.mark_segment_cell net x y layer g).
Proof.
  unfold Grid3D.mark_segment_cell. destruct (Grid3D.is_valid _ _ _ _); [|apply same_frame_refl].
  by destruct (negb _).
Qed.

Lemma mark_via_cell_frame net g x y layer :
  same_frame g (Grid3D.mark_via_cell net x y layer g).
Proof.
  unfold Grid3D.mark_via_cell. destruct (Grid3D.is_valid _ _ _ _); [|apply same_frame_refl].
  by destruct (negb _).
Qed.

Lemma unmark_at_frame net g x y layer :
  same_frame g (Grid3D.unmark_at net x y layer g).
Proof.
  unfold Grid3D.unmark_at. by destruct (Grid3D.is_valid _ _ _ _).
Qed.

Lemma mark_blocked_frame net obs g x y layer :
  same_frame g (Grid3D.mark_blocked x y layer net obs g).
Proof.
  unfold Grid3D.mark_blocked. by destruct (negb _).
Qed.

Lemma mark_cell_fields net c :
  mark_cell net c
  = GridCell.mk true (if GridCell.blocked c then GridCell.net c else net)
      (GridCell.usage_count c) (GridCell.history_cost c) (GridCell.is_obstacle c)
      (GridCell.is_zone c) (GridCell.pad_blocked c) (GridCell.original_net c).
Proof. by destruct c as [[] ? ? ? ? ? ? ?]. Qed.

(** X4.  [mark_segment] returns; it keeps the dimensions of the grid; every
    valid cell of the layer in the inflated footprint ends blocked, with
    the net of the segment if it was unblocked and with its own net if it
    was blocked, its other fields untouched; every other cell of the grid
    is left as it was. *)
Theorem mark_segment_footprint g x1 y1 x2 y2 layer net k :
  wf g ->
  exists g',
    Grid3D.mark_segment x1 y1 x2 y2 layer net k g = Some g' /\
    wf g' /\ same_frame g g' /\
    forall x y l,
      Grid3D.is_valid g x y l = true ->
      let c := Grid3D.at_ g x y l in
      (l = layer -> segment_covers x1 y1 x2 y2 k x y ->
       Grid3D.at_ g' x y l
       = GridCell.mk true (if GridCell.blocked c then GridCell.net c else net)
           (GridCell.usage_count c) (GridCell.history_cost c)
           (GridCell.is_obstacle c) (GridCell.is_zone c)
           (GridCell.pad_blocked c) (GridCell.original_net c)) /\
      (~ (l = layer /\ segment_covers x1 y1 x2 y2 k x y) ->
       Grid3D.at_ g' x y l = c).
Proof.
  intros Hwf.
  destruct (segment_pass _ _ x1 y1 x2 y2 layer k g
              (mark_segment_cell_acts net) (mark_cell_idem net) Hwf)
    as (g' & Hm & Hwf' & Hs & Hat).
  exists g'. split; [exact Hm|]. split; [done|]. split.
  - destruct (segment_visits (Grid3D.mark_segment_cell net) x1 y1 x2 y2 layer k g)
      as (pts & _ & Hv).
    unfold Grid3D.mark_segment in Hm. rewrite Hv in Hm. injection Hm as <-.
    apply visit_all_frame. intros. apply mark_segment_cell_frame.
  - intros x y l Hv c. destruct (Hat x y l Hv) as [Hin Hout]. split; [|done].
    intros -> Hcov. rewrite (Hin eq_refl Hcov). apply mark_cell_fields.
Qed.

Lemma mark_segment_footprint_witness :
  let g := Grid3D.new 4 4 2 F32.one F32.zero F32.zero in
  let x1 := 0 in let y1 := 1 in let x2 := 3 in let y2 := 2 in
  let layer := 1 in let net := 7 in let k := 1 in
  wf g /\
  exists g',
    Grid3D.mark_segment x1 y1 x2 y2 layer net k g = Some g' /\
    wf g' /\ same_frame g g' /\
    forall x y l,
      Grid3D.is_valid g x y l = true ->
      let c := Grid3D.at_ g x y l in
      (l = layer -> segment_covers x1 y1 x2 y2 k x y ->
       Grid3D.at_ g' x y l
       = GridCell.mk true (if GridCell.blocked c then GridCell.net c else net)
           (GridCell.usage_count c) (GridCell.history_cost c)
           (GridCell.is_obstacle c) (GridCell.is_zone c)
           (GridCell.pad_blocked c) (GridCell.original_net c)) /\
      (~ (l = layer /\ segment_covers x1 y1 x2 y2 k x y) ->
       Grid3D.at_ g' x y l = c).
Proof.
  intros g x1 y1 x2 y2 layer net k.
  assert (wf g) as Hwf by (apply wf_new; lia).
  split; [exact Hwf|].
  exact (mark_segment_footprint g x1 y1 x2 y2 layer net k Hwf).
Defined.

(** X5.  [mark_via] keeps the dimensions of the grid; on every layer, every
    valid cell in the square of radius [radius_cells] around (x, y) ends
    blocked, with the net of the via if it was unblocked and with its own
    net if it was blocked, its other fields untouched; every other cell
    is left as it was. *)
Theorem mark_via_footprint g vx vy net r :
  wf g ->
  let g' := Grid3D.mark_via vx vy net r g in
  wf g' /\ same_frame g g' /\
  forall x y l,
    Grid3D.is_valid g x y l = true ->
    let c := Grid3D.at_ g x y l in
    (in_square r vx vy x y ->
     Grid3D.at_ g' x y l
     = GridCell.mk true (if GridCell.blocked c then GridCell.net c else net)
         (GridCell.usage_count c) (GridCell.history_cost c)
         (GridCell.is_obstacle c) (GridCell.is_zone c)
         (GridCell.pad_blocked c) (GridCell.original_net c)) /\
    (~ in_square r vx vy x y -> Grid3D.at_ g' x y l = c).
Proof.
  intros Hwf g'. subst g'.
  destruct (via_pass _ _ vx vy r g (mark_via_cell_acts net) (mark_cell_idem net) Hwf)
    as (Hwf' & Hs & Hat).
  split; [done|]. split.
  - unfold Grid3D.mark_via. rewrite via_visits.
    apply visit_all_frame. intros. apply mark_via_cell_frame.
  - intros x y l Hv c. destruct (Hat x y l Hv) as [Hin Hout]. split; [|done].
    intros Hsq. unfold Grid3D.mark_via. rewrite (Hin Hsq). apply mark_cell_fields.
Qed.

Lemma mark_via_footprint_witness :
  let g := Grid3D.new 4 4 2 F32.one F32.zero F32.zero in
  let vx := 1 in let vy := 2 in let net := 7 in let r := 1 in
  wf g /\
  let g' := Grid3D.mark_via vx vy net r g in
  wf g' /\ same_frame g g' /\
  forall x y l,
    Grid3D.is_valid g x y l = true ->
    let c := Grid3D.at_ g x y l in
    (in_square r vx vy x y ->
     Grid3D.at_ g' x y l
     = GridCell.mk true (if GridCell.blocked c then GridCell.net c else net)
         (GridCell.usage_count c) (GridCell.history_cost c)
         (GridCell.is_obstacle c) (GridCell.is_zone c)
         (GridCell.pad_blocked c) (GridCell.original_net c)) /\
    (~ in_square r vx vy x y -> Grid3D.at_ g' x y l = c).
Proof.
  intros g vx vy net r.
  assert (wf g) as Hwf by (apply wf_new; lia).
  split; [exact Hwf|].
  exact (mark_via_footprint g vx vy net r Hwf).
Defined.

Lemma unmark_cell_facts net c :
  same_bookkeeping c (Grid3D.unmark_cell net c) /\
  (GridCell.blocked (Grid3D.unmark_cell net c) = true -> GridCell.blocked c = true) /\
  (GridCell.pad_blocked c = false -> GridCell.net c <> net ->
   Grid3D.unmark_cell net c = c).
Proof.
  destruct c as [b n u h o z p on]. unfold Grid3D.unmark_cell, same_bookkeeping. cbn.
  destruct p; cbn; [by repeat split|].
  destruct (n =? net) eqn:E; cbn; repeat split; try done.
  intros _ Hn. apply Z.eqb_eq in E. done.
Qed.

(** X6.  What rip-up never does.  [unmark_segment] and [unmark_via] keep the
    dimensions of the grid; they write no field of a cell other than
    [blocked] and [net]; they block no cell; they leave alone every cell
    outside their footprint, and every cell that is not pad-blocked and
    belongs to another net. *)
Theorem unmark_frame g net :
  wf g ->
  (forall x1 y1 x2 y2 layer k,
     exists g',
       Grid3D.unmark_segment x1 y1 x2 y2 layer net k g = Some g' /\
       wf g' /\ same_frame g g' /\
       forall x y l,
         Grid3D.is_valid g x y l = true ->
         let c := Grid3D.at_ g x y l in
         let c' := Grid3D.at_ g' x y l in
         same_bookkeeping c c' /\
         (GridCell.blocked c' = true -> GridCell.blocked c = true) /\
         (~ (l = layer /\ segment_covers x1 y1 x2 y2 k x y) -> c' = c) /\
         (GridCell.pad_blocked c = false -> GridCell.net c <> net -> c' = c)) /\
  (forall vx vy r,
     let g' := Grid3D.unmark_via vx vy net r g in
     wf g' /\ same_frame g g' /\
     forall x y l,
       Grid3D.is_valid g x y l = true ->
       let c := Grid3D.at_ g x y l in
       let c' := Grid3D.at_ g' x y l in
       same_bookkeeping c c' /\
       (GridCell.blocked c' = true -> GridCell.blocked c = true) /\
       (~ in_square r vx vy x y -> c' = c) /\
       (GridCell.pad_blocked c = false -> GridCell.net c <> net -> c' = c)).
Proof.
  intros Hwf. split.
  - intros x1 y1 x2 y2 layer k.
    destruct (segment_pass _ _ x1 y1 x2 y2 layer k g
                (unmark_at_acts net) (unmark_cell_idem net) Hwf)
      as (g' & Hm & Hwf' & Hs & Hat).
    exists g'. split; [exact Hm|]. split; [done|]. split.
    + destruct (segment_visits (Grid3D.unmark_at net) x1 y1 x2 y2 layer k g)
        as (pts & _ & Hv).
      unfold Grid3D.unmark_segment in Hm. rewrite Hv in Hm. injection Hm as <-.
      apply visit_all_frame. intros. apply unmark_at_frame.
    + intros x y l Hv c c'. subst c c'. destruct (Hat x y l Hv) as [Hin Hout].
      destruct (unmark_cell_facts net (Grid3D.at_ g x y l)) as (Hb & Hbl & Hother).
      assert (Grid3D.at_ g' x y l = Grid3D.at_ g x y l \/
              Grid3D.at_ g' x y l = Grid3D.unmark_cell net (Grid3D.at_ g x y l)) as [E|E].
      { destruct (decide (l = layer)) as [->|Hl]; [|left; apply Hout; tauto].
        destruct (Hat x y layer Hv) as [Hin' Hout'].
        destruct (segment_visits (Grid3D.unmark_at net) x1 y1 x2 y2 layer k g)
          as (pts & Hpts & Hv').
        unfold Grid3D.unmark_segment in Hm. rewrite Hv' in Hm. injection Hm as <-.
        destruct (visit_all_spec _ _ (segment_cells pts k layer) g
                    (unmark_at_acts net) (unmark_cell_idem net) Hwf) as (_ & _ & Hat').
        rewrite (Hat' x y layer Hv). destruct (decide _); auto. }
      * rewrite E. split; [by repeat split|]. repeat split; auto.
      * rewrite E. split; [done|]. split; [done|]. split; [|done].
        intros Hn. rewrite <- E. by apply Hout.
  - intros vx vy r g'. subst g'.
    destruct (via_pass _ _ vx vy r g (unmark_at_acts net) (unmark_cell_idem net) Hwf)
      as (Hwf' & Hs & Hat).
    split; [done|]. split.
    + unfold Grid3D.unmark_via. rewrite via_visits.
      apply visit_all_frame. intros. apply unmark_at_frame.
    + intros x y l Hv c c'. subst c c'. destruct (Hat x y l Hv) as [Hin Hout].
      destruct (unmark_cell_facts net (Grid3D.at_ g x y l)) as (Hb & Hbl & Hother).
      unfold Grid3D.unmark_via.
      assert (Grid3D.at_ (for_range 0 (Grid3D.layers_ g - 1)
                (fun layer => for_square r
                   (fun dx dy => Grid3D.unmark_at net (vx + dx) (vy + dy) layer)) g) x y l
              = Grid3D.at_ g x y l \/
              Grid3D.at_ (for_range 0 (Grid3D.layers_ g - 1)
                (fun layer => for_square r
                   (fun dx dy => Grid3D.unmark_at net (vx + dx) (vy + dy) layer)) g) x y l
              = Grid3D.unmark_cell net (Grid3D.at_ g x y l)) as [E|E].
      { rewrite via_visits.
        destruct (visit_all_spec _ _ (via_cells g vx vy r) g
                    (unmark_at_acts net) (unmark_cell_idem net) Hwf) as (_ & _ & Hat').
        rewrite (Hat' x y l Hv). destruct (decide _); auto. }
      * rewrite E. split; [by repeat split|]. repeat split; auto.
      * rewrite E. split; [done|]. split; [done|]. split; [|done].
        intros Hn. rewrite <- E. by apply Hout.
Qed.

Lemma unmark_frame_witness :
  let g := Scenario.via_grid in
  let net := 1 in
  wf g /\
  (forall x1 y1 x2 y2 layer k,
     exists g',
       Grid3D.unmark_segment x1 y1 x2 y2 layer net k g = Some g' /\
       wf g' /\ same_frame g g' /\
       forall x y l,
         Grid3D.is_valid g x y l = true ->
         let c := Grid3D.at_ g x y l in
         let c' := Grid3D.at_ g' x y l in
         same_bookkeeping c c' /\
         (GridCell.blocked c' = true -> GridCell.blocked c = true) /\
         (~ (l = layer /\ segment_covers x1 y1 x2 y2 k x y) -> c' = c) /\
         (GridCell.pad_blocked c = false -> GridCell.net c <> net -> c' = c)) /\
  (forall vx vy r,
     let g' := Grid3D.unmark_via vx vy net r g in
     wf g' /\ same_frame g g' /\
     forall x y l,
       Grid3D.is_valid g x y l = true ->
       let c := Grid3D.at_ g x y l in
       let c' := Grid3D.at_ g' x y l in
       same_bookkeeping c c' /\
       (GridCell.blocked c' = true -> GridCell.blocked c = true) /\
       (~ in_square r vx vy x y -> c' = c) /\
       (GridCell.pad_blocked c = false -> GridCell.net c <> net -> c' = c)).
Proof.
  intros g net.
  assert (wf g) as Hwf.
  { apply (via_pass _ _ 12 4 2 _ (mark_via_cell_acts 1) (mark_cell_idem 1)).
    apply wf_new; lia. }
  split; [exact Hwf|].
  exact (unmark_frame g net Hwf).
Defined.
End FrameFacts.

Module IdleFacts.
Import GridSpec GridFacts FrameSpec FrameFacts.

(** *** Visits that change nothing *)

Lemma list_alter_fixed {A : Type} (f : A -> A) (i : nat) (l : list A) :
  (forall c, l !! i = Some c -> f c = c) -> alter f i l = l.
Proof.
  intros H. apply list_eq. intros j. destruct (decide (i = j)) as [<-|Hne].
  - rewrite list_lookup_alter_eq. destruct (l !! i) as [c|] eqn:E; [|done].
    simpl. by rewrite H.
  - by rewrite list_lookup_alter_ne.
Qed.

Lemma modify_fixed f x y layer g :
  wf g -> Grid3D.is_valid g x y layer = true ->
  f (Grid3D.at_ g x y layer) = Grid3D.at_ g x y layer ->
  Grid3D.modify f x y layer g = g.
Proof.
  intros Hwf Hv Hf. unfold Grid3D.modify. rewrite list_alter_fixed; [by destruct g|].
  intros c Hc. rewrite (lookup_cell g x y layer Hwf Hv) in Hc. by injection Hc as <-.
Qed.

Lemma visit_all_fixed V ps g :
  (forall p, p ∈ ps -> V p.1.1 p.1.2 p.2 g = g) -> visit_all V ps g = g.
Proof.
  induction ps as [|p ps IH]; intros H; [done|].
  unfold visit_all. cbn [fold_left]. rewrite (H p) by left.
  apply IH. intros q Hq. apply H. by right.
Qed.

Lemma mark_segment_cell_fixed net g x y layer :
  wf g ->
  (Grid3D.is_valid g x y layer = true ->
   GridCell.blocked (Grid3D.at_ g x y layer) = true) ->
  Grid3D.mark_segment_cell net x y layer g = g.
Proof.
  intros Hwf Hb. unfold Grid3D.mark_segment_cell.
  destruct (Grid3D.is_valid g x y layer) eqn:Hv; [|done].
  rewrite (Hb eq_refl). cbn. apply modify_fixed; [done..|].
  specialize (Hb eq_refl). by destruct (Grid3D.at_ g x y layer) as [[] ? ? ? ? ? ? ?].
Qed.

Lemma mark_via_cell_fixed net g x y layer :
  wf g ->
  (Grid3D.is_valid g x y layer = true ->
   GridCell.blocked (Grid3D.at_ g x y layer) = true) ->
  Grid3D.mark_via_cell net x y layer g = g.
Proof.
  intros Hwf Hb. unfold Grid3D.mark_via_cell.
  destruct (Grid3D.is_valid g x y layer) eqn:Hv; [|done].
  rewrite (Hb eq_refl). cbn. apply modify_fixed; [done..|].
  specialize (Hb eq_refl). by destruct (Grid3D.at_ g x y layer) as [[] ? ? ? ? ? ? ?].
Qed.

(** X7.  Marking is idempotent: marking the same segment, or the same via,
    a second time returns the grid of the first marking, congestion
    counters included. *)
Theorem mark_twice g :
  wf g ->
  (forall x1 y1 x2 y2 layer net k,
     exists g1,
       Grid3D.mark_segment x1 y1 x2 y2 layer net k g = Some g1 /\
       Grid3D.mark_segment x1 y1 x2 y2 layer net k g1 = Some g1) /\
  (forall x y net r,
     Grid3D.mark_via x y net r (Grid3D.mark_via x y net r g)
     = Grid3D.mark_via x y net r g).
Proof.
  intros Hwf. split.
  - intros x1 y1 x2 y2 layer net k.
    destruct (segment_visits (Grid3D.mark_segment_cell net) x1 y1 x2 y2 layer k g)
      as (pts & Hpts & Hv).
    exists (visit_all (Grid3D.mark_segment_cell net) (segment_cells pts k layer) g).
    split; [exact Hv|].
    destruct (visit_all_spec _ _ (segment_cells pts k layer) g
                (mark_segment_cell_acts net) (mark_cell_idem net) Hwf)
      as (Hwf1 & Hs1 & Hat1).
    set (g1 := visit_all (Grid3D.mark_segment_cell net) (segment_cells pts k layer) g) in *.
    destruct (segment_visits (Grid3D.mark_segment_cell net) x1 y1 x2 y2 layer k g1)
      as (pts' & Hpts' & Hv').
    unfold Grid3D.mark_segment. rewrite Hv'. f_equal.
    assert (pts' = pts) as -> by congruence.
    apply visit_all_fixed. intros [[x y] l] Hp. simpl.
    apply mark_segment_cell_fixed; [done|]. intros Hvalid.
    rewrite (shape_is_valid _ _ _ _ _ Hs1) in Hvalid.
    rewrite (Hat1 x y l Hvalid), decide_True by done.
    by destruct (Grid3D.at_ g x y l) as [[] ? ? ? ? ? ? ?].
  - intros x y net r. unfold Grid3D.mark_via.
    rewrite !via_visits.
    destruct (visit_all_spec _ _ (via_cells g x y r) g
                (mark_via_cell_acts net) (mark_cell_idem net) Hwf)
      as (Hwf1 & Hs1 & Hat1).
    set (g1 := visit_all (Grid3D.mark_via_cell net) (via_cells g x y r) g) in *.
    assert (via_cells g1 x y r = via_cells g x y r) as ->.
    { unfold via_cells. unfold shape in Hs1. by injection Hs1 as _ _ -> _ _. }
    apply visit_all_fixed. intros [[x' y'] l] Hp. simpl.
    apply mark_via_cell_fixed; [done|]. intros Hvalid.
    rewrite (shape_is_valid _ _ _ _ _ Hs1) in Hvalid.
    rewrite (Hat1 x' y' l Hvalid), decide_True by done.
    by destruct (Grid3D.at_ g x' y' l) as [[] ? ? ? ? ? ? ?].
Qed.

Lemma mark_twice_witness :
  let g := Grid3D.new 4 4 2 F32.one F32.zero F32.zero in
  wf g /\
  (forall x1 y1 x2 y2 layer net k,
     exists g1,
       Grid3D.mark_segment x1 y1 x2 y2 layer net k g = Some g1 /\
       Grid3D.mark_segment x1 y1 x2 y2 layer net k g1 = Some g1) /\
  (forall x y net r,
     Grid3D.mark_via x y net r (Grid3D.mark_via x y net r g)
     = Grid3D.mark_via x y net r g).
Proof.
  intros g.
  assert (wf g) as Hwf by (apply wf_new; lia).
  split; [exact Hwf|].
  exact (mark_twice g Hwf).
Defined.

(** *** Calls that mark nothing *)

Lemma square_negative k : k < 0 -> square k = [].
Proof.
  intros Hk. unfold square, Pathfinder.offsets.
  assert (seqZ (- k) (k - - k + 1) = []) as ->; [|done].
  unfold seqZ. replace (Z.to_nat (k - - k + 1)) with 0%nat by lia. done.
Qed.

Lemma segment_cells_negative pts k layer : k < 0 -> segment_cells pts k layer = [].
Proof.
  intros Hk. unfold segment_cells. rewrite square_negative by done.
  by induction pts.
Qed.

Lemma elem_of_segment_cells_layer pts k layer p :
  p ∈ segment_cells pts k layer -> p.2 = layer.
Proof.
  destruct p as [[x y] l]. by intros [-> _]%elem_of_segment_cells.
Qed.

Lemma invalid_layer g x y layer :
  ~ 0 <= layer < Grid3D.layers_ g -> Grid3D.is_valid g x y layer = false.
Proof.
  intros H. apply not_true_is_false. rewrite is_valid_spec. tauto.
Qed.

(** X8.  A layer outside the grid, or a negative clearance, makes
    [mark_segment] and [unmark_segment] return the grid as it is; a
    negative radius does the same to [mark_via] and [unmark_via]. *)
Theorem marking_nothing g x1 y1 x2 y2 layer net k :
  ~ 0 <= layer < Grid3D.layers_ g \/ k < 0 ->
  Grid3D.mark_segment x1 y1 x2 y2 layer net k g = Some g /\
  Grid3D.unmark_segment x1 y1 x2 y2 layer net k g = Some g /\
  (k < 0 ->
   Grid3D.mark_via x1 y1 net k g = g /\ Grid3D.unmark_via x1 y1 net k g = g).
Proof.
  intros H.
  assert (forall V : Z -> Z -> Z -> Grid3D.t -> Grid3D.t,
            (forall x y l g, Grid3D.is_valid g x y l = false -> V x y l g = g) ->
            bresenham (fun gx gy =>
                         for_square k (fun dx dy => V (gx + dx) (gy + dy) layer))
                      x1 y1 x2 y2 g = Some g) as Hseg.
  { intros V HV. destruct (segment_visits V x1 y1 x2 y2 layer k g) as (pts & _ & ->).
    f_equal. destruct H as [Hl|Hk].
    - apply visit_all_fixed. intros p Hp.
      rewrite (elem_of_segment_cells_layer _ _ _ _ Hp).
      apply HV. by apply invalid_layer.
    - by rewrite segment_cells_negative. }
  split; [|split].
  - apply Hseg. intros x y l g' Hv. unfold Grid3D.mark_segment_cell. by rewrite Hv.
  - apply Hseg. intros x y l g' Hv. unfold Grid3D.unmark_at. by rewrite Hv.
  - intros Hk. unfold Grid3D.mark_via, Grid3D.unmark_via. rewrite !via_visits.
    unfold via_cells. rewrite square_negative by done.
    assert ((seqZ 0 (Grid3D.layers_ g - 1 - 0 + 1)
             ≫= fun layer : Z => [] ≫= fun d : Z * Z => [(x1 + d.1, y1 + d.2, layer)])
            = []) as ->; [|done].
    by induction (seqZ 0 (Grid3D.layers_ g - 1 - 0 + 1)).
Qed.

Lemma marking_nothing_witness :
  let g := Grid3D.new 4 4 2 F32.one F32.zero F32.zero in
  (~ 0 <= 2 < Grid3D.layers_ g \/ 1 < 0) /\
  Grid3D.mark_segment 0 0 3 3 2 7 1 g = Some g /\
  Grid3D.unmark_segment 0 0 3 3 2 7 1 g = Some g /\
  (1 < 0 ->
   Grid3D.mark_via 0 0 7 1 g = g /\ Grid3D.unmark_via 0 0 7 1 g = g).
Proof.
  assert (~ 0 <= 2 < 2 \/ 1 < 0) as H by (left; lia).
  split; [exact H|].
  exact (marking_nothing (Grid3D.new 4 4 2 F32.one F32.zero F32.zero) 0 0 3 3 2 7 1 H).
Defined.

End IdleFacts.

Module RectFacts.
Import GridSpec GridFacts FrameSpec FrameFacts IdleFacts.

Lemma mark_blocked_acts net obs :
  acts_as (blocked_cell net obs) (fun x y layer => Grid3D.mark_blocked x y layer net obs).
Proof.
  intros g x y layer Hwf. unfold Grid3D.mark_blocked.
  destruct (Grid3D.is_valid g x y layer) eqn:Hv; simpl.
  - split; [by apply wf_modify|]. split; [done|]. intros x' y' layer' Hv'.
    by rewrite at_modify.
  - split; [done|]. split; [done|]. intros. by apply acts_as_invalid.
Qed.

Lemma blocked_cell_idem net obs c :
  blocked_cell net obs (blocked_cell net obs c) = blocked_cell net obs c.
Proof. by destruct c. Qed.

Lemma elem_of_rect_cells x1 y1 x2 y2 layer x y l :
  (x, y, l) ∈ rect_cells x1 y1 x2 y2 layer <->
  l = layer /\ x1 <= x <= x2 /\ y1 <= y <= y2.
Proof.
  unfold rect_cells. rewrite list_elem_of_bind. split.
  - intros (y' & Hin & Hy%elem_of_seqZ).
    apply list_elem_of_bind in Hin as (x' & Hin & Hx%elem_of_seqZ).
    apply list_elem_of_singleton in Hin. inversion Hin; subst. lia.
  - intros (-> & Hx & Hy). exists y. split; [|apply elem_of_seqZ; lia].
    apply list_elem_of_bind. exists x. split; [|apply elem_of_seqZ; lia].
    by apply list_elem_of_singleton.
Qed.

Lemma rect_visits x1 y1 x2 y2 layer net obs g :
  Grid3D.mark_rect_blocked x1 y1 x2 y2 layer net obs g
  = visit_all (fun x y layer => Grid3D.mark_blocked x y layer net obs)
      (rect_cells (Grid3D.clamp x1 0 (Grid3D.cols_ g - 1))
                  (Grid3D.clamp y1 0 (Grid3D.rows_ g - 1))
                  (Grid3D.clamp x2 0 (Grid3D.cols_ g - 1))
                  (Grid3D.clamp y2 0 (Grid3D.rows_ g - 1)) layer) g.
Proof.
  unfold Grid3D.mark_rect_blocked, for_range, visit_all at 1, rect_cells.
  rewrite fold_left_bind. apply fold_left_ext. intros a y.
  rewrite fold_left_bind. by apply fold_left_ext.
Qed.

Lemma mark_rect_congestion x1 y1 x2 y2 layer net obs g :
  Grid3D.congestion_ (Grid3D.mark_rect_blocked x1 y1 x2 y2 layer net obs g)
  = Grid3D.congestion_ g.
Proof.
  rewrite rect_visits. generalize (rect_cells (Grid3D.clamp x1 0 (Grid3D.cols_ g - 1))
                  (Grid3D.clamp y1 0 (Grid3D.rows_ g - 1))
                  (Grid3D.clamp x2 0 (Grid3D.cols_ g - 1))
                  (Grid3D.clamp y2 0 (Grid3D.rows_ g - 1)) layer).
  intros ps. revert g. induction ps as [|p ps IH]; intros g; [done|].
  change (visit_all (fun x y layer => Grid3D.mark_blocked x y layer net obs) (p :: ps) g)
    with (visit_all (fun x y layer => Grid3D.mark_blocked x y layer net obs) ps
            (Grid3D.mark_blocked p.1.1 p.1.2 p.2 net obs g)).
  rewrite IH. unfold Grid3D.mark_blocked. by destruct (negb _).
Qed.

(** X2.  [mark_rect_blocked] clamps the corners of the rectangle into the
    grid and then sets, on the given layer, every cell between the clamped
    corners to blocked with the given net and obstacle flag, the other
    fields of the cell untouched; it changes no other cell and no
    congestion counter.  A corner outside the grid is moved to the border,
    so that a rectangle that lies wholly beyond the last column still
    blocks cells of the last column. *)
Theorem mark_rect_blocked_cells g x1 y1 x2 y2 layer net obs :
  wf g ->
  let g' := Grid3D.mark_rect_blocked x1 y1 x2 y2 layer net obs g in
  let cx1 := Grid3D.clamp x1 0 (Grid3D.cols_ g - 1) in
  let cy1 := Grid3D.clamp y1 0 (Grid3D.rows_ g - 1) in
  let cx2 := Grid3D.clamp x2 0 (Grid3D.cols_ g - 1) in
  let cy2 := Grid3D.clamp y2 0 (Grid3D.rows_ g - 1) in
  wf g' /\ same_frame g g' /\
  Grid3D.congestion_ g' = Grid3D.congestion_ g /\
  (forall x y l,
     Grid3D.is_valid g x y l = true ->
     let c := Grid3D.at_ g x y l in
     Grid3D.at_ g' x y l
     = if decide (l = layer /\ cx1 <= x <= cx2 /\ cy1 <= y <= cy2)
       then GridCell.mk true net (GridCell.usage_count c) (GridCell.history_cost c)
              obs (GridCell.is_zone c) (GridCell.pad_blocked c)
              (GridCell.original_net c)
       else c) /\
  (Grid3D.cols_ g - 1 < x1 -> x1 <= x2 ->
   cx1 = Grid3D.cols_ g - 1 /\ cx2 = Grid3D.cols_ g - 1).
Proof.
  intros Hwf g' cx1 cy1 cx2 cy2. subst g'.
  split; [|split; [|split; [|split]]].
  - rewrite rect_visits.
    by destruct (visit_all_spec _ _ (rect_cells cx1 cy1 cx2 cy2 layer) g
                   (mark_blocked_acts net obs) (blocked_cell_idem net obs) Hwf).
  - rewrite rect_visits. apply visit_all_frame. intros. apply mark_blocked_frame.
  - apply mark_rect_congestion.
  - intros x y l Hv c. rewrite rect_visits.
    destruct (visit_all_spec _ _ (rect_cells cx1 cy1 cx2 cy2 layer) g
                (mark_blocked_acts net obs) (blocked_cell_idem net obs) Hwf)
      as (_ & _ & Hat).
    fold cx1 cy1 cx2 cy2. rewrite (Hat x y l Hv).
    destruct (decide ((x, y, l) ∈ rect_cells cx1 cy1 cx2 cy2 layer)) as [Hin|Hnin].
    + rewrite decide_True by (by apply elem_of_rect_cells).
      subst c. by destruct (Grid3D.at_ g x y l).
    + rewrite decide_False; [done|]. intros H. by apply Hnin, elem_of_rect_cells.
  - intros H1 H2. subst cx1 cx2. clear cy1 cy2. unfold Grid3D.clamp.
    pose proof (wf_cols g Hwf).
    destruct (x1 <? 0) eqn:E1, (Grid3D.cols_ g - 1 <? x1) eqn:E2,
      (x2 <? 0) eqn:E3, (Grid3D.cols_ g - 1 <? x2) eqn:E4; lia.
Qed.

Lemma mark_rect_blocked_cells_witness :
  let g := Grid3D.new 4 2 1 F32.one F32.zero F32.zero in
  let x1 := 5 in let y1 := 0 in let x2 := 9 in let y2 := 1 in
  let layer := 0 in let net := 0 in let obs := true in
  wf g /\
  let g' := Grid3D.mark_rect_blocked x1 y1 x2 y2 layer net obs g in
  let cx1 := Grid3D.clamp x1 0 (Grid3D.cols_ g - 1) in
  let cy1 := Grid3D.clamp y1 0 (Grid3D.rows_ g - 1) in
  let cx2 := Grid3D.clamp x2 0 (Grid3D.cols_ g - 1) in
  let cy2 := Grid3D.clamp y2 0 (Grid3D.rows_ g - 1) in
  wf g' /\ same_frame g g' /\
  Grid3D.congestion_ g' = Grid3D.congestion_ g /\
  (forall x y l,
     Grid3D.is_valid g x y l = true ->
     let c := Grid3D.at_ g x y l in
     Grid3D.at_ g' x y l
     = if decide (l = layer /\ cx1 <= x <= cx2 /\ cy1 <= y <= cy2)
       then GridCell.mk true net (GridCell.usage_count c) (GridCell.history_cost c)
              obs (GridCell.is_zone c) (GridCell.pad_blocked c)
              (GridCell.original_net c)
       else c) /\
  (Grid3D.cols_ g - 1 < x1 -> x1 <= x2 ->
   cx1 = Grid3D.cols_ g - 1 /\ cx2 = Grid3D.cols_ g - 1).
Proof.
  intros g x1 y1 x2 y2 layer net obs.
  assert (wf g) as Hwf by (apply wf_new; lia).
  split; [exact Hwf|].
  exact (mark_rect_blocked_cells g x1 y1 x2 y2 layer net obs Hwf).
Defined.

(** X3.  Blocking the same rectangle again changes nothing. *)
Theorem mark_rect_blocked_twice g x1 y1 x2 y2 layer net obs :
  wf g ->
  Grid3D.mark_rect_blocked x1 y1 x2 y2 layer net obs
    (Grid3D.mark_rect_blocked x1 y1 x2 y2 layer net obs g)
  = Grid3D.mark_rect_blocked x1 y1 x2 y2 layer net obs g.
Proof.
  intros Hwf.
  set (ps := rect_cells (Grid3D.clamp x1 0 (Grid3D.cols_ g - 1))
                  (Grid3D.clamp y1 0 (Grid3D.rows_ g - 1))
                  (Grid3D.clamp x2 0 (Grid3D.cols_ g - 1))
                  (Grid3D.clamp y2 0 (Grid3D.rows_ g - 1)) layer).
  destruct (visit_all_spec _ _ ps g
              (mark_blocked_acts net obs) (blocked_cell_idem net obs) Hwf)
    as (Hwf1 & Hs1 & Hat1).
  rewrite (rect_visits _ _ _ _ _ _ _ g). fold ps.
  set (g1 := visit_all _ ps g) in *.
  rewrite rect_visits.
  assert (Grid3D.cols_ g1 = Grid3D.cols_ g /\ Grid3D.rows_ g1 = Grid3D.rows_ g) as [-> ->].
  { unfold shape in Hs1. by injection Hs1 as -> -> _ _ _. }
  fold ps. apply visit_all_fixed. intros [[x y] l] Hp. simpl.
  unfold Grid3D.mark_blocked.
  destruct (Grid3D.is_valid g1 x y l) eqn:Hv; [|done]. simpl.
  apply modify_fixed; [done..|].
  rewrite (shape_is_valid _ _ _ _ _ Hs1) in Hv.
  rewrite (Hat1 x y l Hv), decide_True by done. apply blocked_cell_idem.
Qed.

Lemma mark_rect_blocked_twice_witness :
  let g := Grid3D.new 4 2 1 F32.one F32.zero F32.zero in
  let x1 := 0 in let y1 := 1 in let x2 := 3 in let y2 := 1 in
  let layer := 0 in let net := 0 in let obs := true in
  wf g /\
  Grid3D.mark_rect_blocked x1 y1 x2 y2 layer net obs
    (Grid3D.mark_rect_blocked x1 y1 x2 y2 layer net obs g)
  = Grid3D.mark_rect_blocked x1 y1 x2 y2 layer net obs g.
Proof.
  intros g x1 y1 x2 y2 layer net obs.
  assert (wf g) as Hwf by (apply wf_new; lia).
  split; [exact Hwf|].
  exact (mark_rect_blocked_twice g x1 y1 x2 y2 layer net obs Hwf).
Defined.

(** *** A new grid *)

Lemma fold_left_replicate {A B : Type} (f : A -> B -> A) (n : nat) (b : B) (a : A) :
  f a b = a -> fold_left f (replicate n b) a = a.
Proof. intros H. induction n as [|n IH]; [done|]. simpl. by rewrite H. Qed.

(** X1.  A new grid of non-negative dimensions has cols * rows * layers
    cells; every valid cell is in the default state and is free for
    every net; no cell is blocked, no cell is over-used and every
    congestion reading is 0. *)
Theorem new_grid cols rows layers resolution origin_x origin_y :
  0 <= cols -> 0 <= rows -> 0 <= layers ->
  let g := Grid3D.new cols rows layers resolution origin_x origin_y in
  wf g /\
  Grid3D.total_cells g = cols * rows * layers /\
  Grid3D.count_blocked g = 0 /\
  Grid3D.get_total_overflow g = 0 /\
  forall x y layer,
    Grid3D.is_valid g x y layer = true ->
    Grid3D.at_ g x y layer = GridCell.init /\
    (forall net, Grid3D.is_valid_and_free g x y layer net = true) /\
    Grid3D.get_congestion g x y layer = F32.zero.
Proof.
  intros Hc Hr Hl g. assert (wf g) as Hwf by (by apply wf_new).
  split; [done|]. split; [|split; [|split]].
  - unfold Grid3D.total_cells. subst g. simpl. rewrite length_replicate. nia.
  - unfold Grid3D.count_blocked. subst g. simpl. by apply fold_left_replicate.
  - unfold Grid3D.get_total_overflow. subst g. simpl. by apply fold_left_replicate.
  - intros x y layer Hv.
    assert (Grid3D.at_ g x y layer = GridCell.init) as Hat.
    { pose proof (lookup_cell g x y layer Hwf Hv) as Hc'. subst g. simpl in Hc'.
      apply lookup_replicate in Hc' as [Hc' _]. done. }
    split; [done|]. split.
    + intros net. unfold Grid3D.is_valid_and_free. by rewrite Hv, Hat.
    + unfold Grid3D.get_congestion.
      pose proof (congestion_index_bound g x y layer Hwf Hv) as Hb.
      destruct (lookup_lt_is_Some_2 (Grid3D.congestion_ g)
                  (Z.to_nat (Grid3D.congestion_index g x y layer))) as [n Hn]; [lia|].
      rewrite Hn. simpl. subst g. simpl in Hn.
      apply lookup_replicate in Hn as [-> _]. by vm_compute.
Qed.

Lemma new_grid_witness :
  let cols := 4 in let rows := 3 in let layers := 2 in
  let resolution := F32.one in let origin_x := F32.zero in let origin_y := F32.zero in
  0 <= cols /\ 0 <= rows /\ 0 <= layers /\
  let g := Grid3D.new cols rows layers resolution origin_x origin_y in
  wf g /\
  Grid3D.total_cells g = cols * rows * layers /\
  Grid3D.count_blocked g = 0 /\
  Grid3D.get_total_overflow g = 0 /\
  forall x y layer,
    Grid3D.is_valid g x y layer = true ->
    Grid3D.at_ g x y layer = GridCell.init /\
    (forall net, Grid3D.is_valid_and_free g x y layer net = true) /\
    Grid3D.get_congestion g x y layer = F32.zero.
Proof.
  intros cols rows layers resolution origin_x origin_y.
  assert (0 <= cols) as Hc by done.
  assert (0 <= rows) as Hr by done.
  assert (0 <= layers) as Hl by done.
  split; [exact Hc|]. split; [exact Hr|]. split; [exact Hl|].
  exact (new_grid cols rows layers resolution origin_x origin_y Hc Hr Hl).
Defined.

(** *** Congestion counters *)

(** X10.  [update_congestion] on a valid cell adds [delta] to the counter
    [get_congestion] reads for that cell and to no other counter, and it
    changes no cell: afterwards a valid cell reads the new counter when
    it is counted in the same block, and reads what it read before
    otherwise. *)
Theorem update_congestion_reads g x y layer delta :
  wf g ->
  Grid3D.is_valid g x y layer = true ->
  let g' := Grid3D.update_congestion x y layer delta g in
  let idx := Z.to_nat (Grid3D.congestion_index g x y layer) in
  Grid3D.cells_ g' = Grid3D.cells_ g /\
  exists count,
    Grid3D.congestion_ g !! idx = Some count /\
    Grid3D.congestion_ g' !! idx = Some (count + delta) /\
    (forall j, j <> idx -> Grid3D.congestion_ g' !! j = Grid3D.congestion_ g !! j) /\
    forall x' y' layer',
      Grid3D.is_valid g x' y' layer' = true ->
      Grid3D.get_congestion g' x' y' layer'
      = if decide (Grid3D.congestion_index g x' y' layer'
                   = Grid3D.congestion_index g x y layer)
        then congestion_value (count + delta)
        else Grid3D.get_congestion g x' y' layer'.
Proof.
  intros Hwf Hv g' idx. split; [done|].
  pose proof (congestion_index_bound g x y layer Hwf Hv) as Hb.
  destruct (lookup_lt_is_Some_2 (Grid3D.congestion_ g) idx) as [count Hc];
    [subst idx; lia|].
  exists count. split; [done|]. split; [|split].
  - subst g'. simpl. fold idx. by rewrite list_lookup_alter_eq, Hc.
  - intros j Hj. subst g'. simpl. fold idx. by rewrite list_lookup_alter_ne.
  - intros x' y' layer' Hv'.
    pose proof (congestion_index_bound g x' y' layer' Hwf Hv') as Hb'.
    unfold Grid3D.get_congestion.
    change (Grid3D.congestion_index g' x' y' layer')
      with (Grid3D.congestion_index g x' y' layer').
    subst g'. simpl. fold idx.
    destruct (decide _) as [E|E].
    + rewrite E. fold idx. by rewrite list_lookup_alter_eq, Hc.
    + rewrite list_lookup_alter_ne; [done|]. subst idx. lia.
Qed.

Lemma update_congestion_reads_witness :
  let g := Grid3D.new 20 20 1 F32.one F32.zero F32.zero in
  let x := 12 in let y := 4 in let layer := 0 in let delta := 3 in
  wf g /\ Grid3D.is_valid g x y layer = true /\
  let g' := Grid3D.update_congestion x y layer delta g in
  let idx := Z.to_nat (Grid3D.congestion_index g x y layer) in
  Grid3D.cells_ g' = Grid3D.cells_ g /\
  exists count,
    Grid3D.congestion_ g !! idx = Some count /\
    Grid3D.congestion_ g' !! idx = Some (count + delta) /\
    (forall j, j <> idx -> Grid3D.congestion_ g' !! j = Grid3D.congestion_ g !! j) /\
    forall x' y' layer',
      Grid3D.is_valid g x' y' layer' = true ->
      Grid3D.get_congestion g' x' y' layer'
      = if decide (Grid3D.congestion_index g x' y' layer'
                   = Grid3D.congestion_index g x y layer)
        then congestion_value (count + delta)
        else Grid3D.get_congestion g x' y' layer'.
Proof.
  intros g x y layer delta.
  assert (wf g) as Hwf by (apply wf_new; lia).
  assert (Grid3D.is_valid g x y layer = true) as Hv by reflexivity.
  split; [exact Hwf|]. split; [exact Hv|].
  exact (update_congestion_reads g x y layer delta Hwf Hv).
Defined.
End RectFacts.

Module UsageFacts.
Import GridSpec GridFacts FrameSpec FrameFacts IdleFacts RectFacts UsageSpec.

(** *** Sums over the cells *)

Section Sums.
Context {A : Type} (w : A -> Z).

Lemma fold_add_init (l : list A) (a : Z) :
  fold_left (fun acc c => acc + w c) l a = a + fold_left (fun acc c => acc + w c) l 0.
Proof.
  revert a. induction l as [|c l IH]; intros a; simpl; [lia|].
  rewrite IH, (IH (0 + w c)). lia.
Qed.

Lemma fold_add_alter (f : A -> A) (l : list A) (i : nat) (c : A) :
  l !! i = Some c ->
  fold_left (fun acc c => acc + w c) (alter f i l) 0
  = fold_left (fun acc c => acc + w c) l 0 - w c + w (f c).
Proof.
  revert i. induction l as [|b l IH]; intros i Hi; [done|].
  destruct i as [|i].
  - injection Hi as ->. change (alter f 0%nat (c :: l)) with (f c :: l). simpl.
    rewrite (fold_add_init l (0 + w (f c))), (fold_add_init l (0 + w c)). lia.
  - change (alter f (S i) (b :: l)) with (b :: alter f i l). simpl.
    rewrite (fold_add_init (alter f i l) (0 + w b)), (fold_add_init l (0 + w b)).
    rewrite (IH i Hi). lia.
Qed.

Lemma fold_add_fmap (f : A -> A) (l : list A) :
  (forall c, w (f c) = w c) ->
  fold_left (fun acc c => acc + w c) (f <$> l) 0
  = fold_left (fun acc c => acc + w c) l 0.
Proof.
  intros H. induction l as [|b l IH]; [done|].
  change (f <$> b :: l) with (f b :: (f <$> l)). simpl.
  rewrite (fold_add_init (f <$> l) (0 + w (f b))), (fold_add_init l (0 + w b)), IH, H.
  done.
Qed.

Lemma fold_add_bounds (l : list A) (hi : Z) :
  (forall c, 0 <= w c <= hi) ->
  0 <= fold_left (fun acc c => acc + w c) l 0 <= hi * Z.of_nat (length l).
Proof.
  intros H. induction l as [|b l IH]; [simpl; lia|]. simpl.
  rewrite fold_add_init. specialize (H b). nia.
Qed.

Lemma fold_add_zero (l : list A) :
  (forall c, c ∈ l -> w c = 0) -> fold_left (fun acc c => acc + w c) l 0 = 0.
Proof.
  induction l as [|b l IH]; intros H; [done|]. simpl.
  rewrite fold_add_init, IH, (H b); [done|left|].
  intros c Hc. apply H. by right.
Qed.
End Sums.

Lemma get_total_overflow_sum g :
  Grid3D.get_total_overflow g
  = fold_left (fun acc c => acc + overflow_of c) (Grid3D.cells_ g) 0.
Proof.
  unfold Grid3D.get_total_overflow. apply fold_left_ext. intros a c.
  unfold overflow_of. destruct (_ >? _); lia.
Qed.

Lemma count_blocked_sum g :
  Grid3D.count_blocked g
  = fold_left (fun acc c => acc + (if GridCell.blocked c then 1 else 0))
              (Grid3D.cells_ g) 0.
Proof.
  unfold Grid3D.count_blocked. apply fold_left_ext. intros a c.
  destruct (GridCell.blocked c); lia.
Qed.

Lemma at_for_each_cell f g x y layer :
  f GridCell.init = GridCell.init ->
  Grid3D.at_ (Grid3D.for_each_cell f g) x y layer = f (Grid3D.at_ g x y layer).
Proof.
  intros Hf. unfold Grid3D.at_, Grid3D.for_each_cell, Grid3D.index. simpl.
  rewrite list_lookup_fmap. by destruct (_ !! _).
Qed.

(** X13.  [reset_usage] sets the usage count of every cell to 0 and writes
    nothing else: afterwards [get_total_overflow] is 0, the number of
    blocked cells and the congestion counters are what they were. *)
Theorem reset_usage_clears g :
  let g' := Grid3D.reset_usage g in
  Grid3D.get_total_overflow g' = 0 /\
  Grid3D.count_blocked g' = Grid3D.count_blocked g /\
  Grid3D.congestion_ g' = Grid3D.congestion_ g /\
  same_frame g g' /\
  forall x y layer,
    let c := Grid3D.at_ g x y layer in
    Grid3D.at_ g' x y layer
    = GridCell.mk (GridCell.blocked c) (GridCell.net c) 0 (GridCell.history_cost c)
        (GridCell.is_obstacle c) (GridCell.is_zone c) (GridCell.pad_blocked c)
        (GridCell.original_net c).
Proof.
  intros g'. subst g'. split; [|split; [|split; [|split]]].
  - rewrite get_total_overflow_sum. apply fold_add_zero.
    intros c Hc. unfold Grid3D.reset_usage, Grid3D.for_each_cell in Hc. simpl in Hc.
    apply list_elem_of_fmap in Hc as (c0 & -> & _). done.
  - rewrite !count_blocked_sum. unfold Grid3D.reset_usage, Grid3D.for_each_cell. simpl.
    by apply fold_add_fmap.
  - done.
  - by repeat split.
  - intros x y layer c. unfold Grid3D.reset_usage. by rewrite at_for_each_cell.
Qed.

(** X14.  [increment_usage] on a valid cell whose usage count is below the
    largest [int16_t] adds 1 to that count and writes nothing else;
    [get_total_overflow] then grows by 1 when the cell was already in
    use, and stays as it is otherwise, so it never decreases.  On
    coordinates outside the grid the call changes nothing. *)
Theorem increment_usage_overflow g x y layer :
  wf g ->
  let u := GridCell.usage_count (Grid3D.at_ g x y layer) in
  -32768 <= u < 32767 ->
  let g' := Grid3D.increment_usage x y layer g in
  (Grid3D.is_valid g x y layer = false -> g' = g) /\
  (Grid3D.is_valid g x y layer = true ->
   Grid3D.get_total_overflow g'
   = Grid3D.get_total_overflow g + (if 1 <=? u then 1 else 0) /\
   Grid3D.get_total_overflow g <= Grid3D.get_total_overflow g' /\
   forall x' y' layer',
     Grid3D.is_valid g x' y' layer' = true ->
     Grid3D.at_ g' x' y' layer'
     = if decide ((x, y, layer) = (x', y', layer'))
       then GridCell.set_usage_count (u + 1) (Grid3D.at_ g x' y' layer')
       else Grid3D.at_ g x' y' layer').
Proof.
  intros Hwf u Hu g'. subst g'. unfold Grid3D.increment_usage. split.
  - by intros ->.
  - intros Hv. rewrite Hv.
    assert (Grid3D.to_int16 (u + 1) = u + 1) as Hw.
    { unfold Grid3D.to_int16. rewrite Z.mod_small; lia. }
    assert (Grid3D.get_total_overflow
              (Grid3D.modify
                 (fun cell => GridCell.set_usage_count
                                (Grid3D.to_int16 (GridCell.usage_count cell + 1)) cell)
                 x y layer g)
            = Grid3D.get_total_overflow g + (if 1 <=? u then 1 else 0)) as Hsum.
    { rewrite !get_total_overflow_sum. unfold Grid3D.modify. simpl.
      rewrite (fold_add_alter _ _ _ _ _ (lookup_cell g x y layer Hwf Hv)).
      fold u. rewrite Hw. unfold overflow_of. simpl. fold u.
      destruct (u >? 1) eqn:E1, (u + 1 >? 1) eqn:E2, (1 <=? u) eqn:E3; lia. }
    split; [done|]. split; [rewrite Hsum; destruct (1 <=? u); lia|].
    intros x' y' layer' Hv'. rewrite at_modify by done.
    destruct (decide _) as [[= <- <- <-]|]; [|done]. fold u. by rewrite Hw.
Qed.

Lemma increment_usage_overflow_witness :
  let g := Grid3D.increment_usage 1 2 0 (Grid3D.new 4 4 1 F32.one F32.zero F32.zero) in
  let x := 1 in let y := 2 in let layer := 0 in
  wf g /\
  let u := GridCell.usage_count (Grid3D.at_ g x y layer) in
  -32768 <= u < 32767 /\
  let g' := Grid3D.increment_usage x y layer g in
  (Grid3D.is_valid g x y layer = false -> g' = g) /\
  (Grid3D.is_valid g x y layer = true ->
   Grid3D.get_total_overflow g'
   = Grid3D.get_total_overflow g + (if 1 <=? u then 1 else 0) /\
   Grid3D.get_total_overflow g <= Grid3D.get_total_overflow g' /\
   forall x' y' layer',
     Grid3D.is_valid g x' y' layer' = true ->
     Grid3D.at_ g' x' y' layer'
     = if decide ((x, y, layer) = (x', y', layer'))
       then GridCell.set_usage_count (u + 1) (Grid3D.at_ g x' y' layer')
       else Grid3D.at_ g x' y' layer').
Proof.
  intros g x y layer.
  assert (wf g) as Hwf by (apply wf_modify; apply wf_new; lia).
  split; [exact Hwf|]. intros u.
  assert (-32768 <= u < 32767) as Hu by (split; done).
  split; [exact Hu|].
  exact (increment_usage_overflow g x y layer Hwf Hu).
Defined.

(** X15.  [update_history_costs] writes the history cost of the cells whose
    usage count exceeds 1 and nothing else: usage counts, blocked flags
    and nets are what they were, cells used at most once are unchanged,
    and [get_total_overflow] and [count_blocked] keep their values. *)
Theorem update_history_costs_keeps_overflow g increment :
  let g' := Grid3D.update_history_costs increment g in
  Grid3D.get_total_overflow g' = Grid3D.get_total_overflow g /\
  Grid3D.count_blocked g' = Grid3D.count_blocked g /\
  Grid3D.congestion_ g' = Grid3D.congestion_ g /\
  same_frame g g' /\
  forall x y layer,
    let c := Grid3D.at_ g x y layer in
    let c' := Grid3D.at_ g' x y layer in
    c' = GridCell.set_history_cost (GridCell.history_cost c') c /\
    (GridCell.usage_count c <= 1 -> c' = c) /\
    (1 < GridCell.usage_count c ->
     GridCell.history_cost c'
     = F32.add (GridCell.history_cost c)
               (F32.mul increment (F32.of_int (GridCell.usage_count c - 1)))).
Proof.
  intros g'. subst g'. unfold Grid3D.update_history_costs.
  split; [|split; [|split; [|split]]].
  - rewrite !get_total_overflow_sum. unfold Grid3D.for_each_cell. simpl.
    apply fold_add_fmap. intros c. by destruct (_ >? _).
  - rewrite !count_blocked_sum. unfold Grid3D.for_each_cell. simpl.
    apply fold_add_fmap. intros c. by destruct (_ >? _).
  - done.
  - by repeat split.
  - intros x y layer. rewrite at_for_each_cell by done.
    destruct (Grid3D.at_ g x y layer) as [b n u h o z p on]. simpl.
    destruct (u >? 1) eqn:E; simpl; repeat split; try done; lia.
Qed.

(** X16.  [count_blocked] lies between 0 and the number of cells, and
    [mark_blocked] raises it by 1 exactly when it blocks a valid cell that
    was unblocked. *)
Theorem count_blocked_mark_blocked g x y layer net obs :
  wf g ->
  0 <= Grid3D.count_blocked g <= Grid3D.total_cells g /\
  Grid3D.count_blocked (Grid3D.mark_blocked x y layer net obs g)
  = Grid3D.count_blocked g
    + (if Grid3D.is_valid g x y layer
          && negb (GridCell.blocked (Grid3D.at_ g x y layer))
       then 1 else 0).
Proof.
  intros Hwf. split.
  - rewrite count_blocked_sum. unfold Grid3D.total_cells.
    pose proof (fold_add_bounds (fun c => if GridCell.blocked c then 1 else 0)
                  (Grid3D.cells_ g) 1) as H.
    rewrite Z.mul_1_l in H. apply H. intros c. destruct (GridCell.blocked c); lia.
  - unfold Grid3D.mark_blocked.
    destruct (Grid3D.is_valid g x y layer) eqn:Hv; simpl; [|lia].
    rewrite !count_blocked_sum. unfold Grid3D.modify. simpl.
    rewrite (fold_add_alter _ _ _ _ _ (lookup_cell g x y layer Hwf Hv)). simpl.
    destruct (GridCell.blocked (Grid3D.at_ g x y layer)); simpl; lia.
Qed.

Lemma count_blocked_mark_blocked_witness :
  let g := Scenario.obstacle_grid in
  let x := 0 in let y := 2 in let layer := 0 in let net := 4 in let obs := false in
  wf g /\
  0 <= Grid3D.count_blocked g <= Grid3D.total_cells g /\
  Grid3D.count_blocked (Grid3D.mark_blocked x y layer net obs g)
  = Grid3D.count_blocked g
    + (if Grid3D.is_valid g x y layer
          && negb (GridCell.blocked (Grid3D.at_ g x y layer))
       then 1 else 0).
Proof.
  intros g x y layer net obs.
  assert (wf g) as Hwf by (apply wf_modify; apply wf_new; lia).
  split; [exact Hwf|].
  exact (count_blocked_mark_blocked g x y layer net obs Hwf).
Defined.

(** *** Reading the grid *)

Lemma clamp_range v lo hi : lo <= hi -> lo <= Grid3D.clamp v lo hi <= hi.
Proof.
  intros H. unfold Grid3D.clamp.
  destruct (v <? lo) eqn:E1; [lia|]. destruct (hi <? v) eqn:E2; lia.
Qed.

(** X26.  On a grid with at least one column and one row, [world_to_grid]
    returns the coordinates of a cell of the grid, whatever the two
    floats are. *)
Theorem world_to_grid_in_range g wx wy :
  0 < Grid3D.cols_ g -> 0 < Grid3D.rows_ g ->
  let p := Grid3D.world_to_grid g wx wy in
  0 <= p.1 < Grid3D.cols_ g /\ 0 <= p.2 < Grid3D.rows_ g /\
  forall layer,
    0 <= layer < Grid3D.layers_ g -> Grid3D.is_valid g p.1 p.2 layer = true.
Proof.
  intros Hc Hr p.
  assert (0 <= p.1 < Grid3D.cols_ g /\ 0 <= p.2 < Grid3D.rows_ g) as [Hx Hy].
  { subst p. unfold Grid3D.world_to_grid. simpl.
    split.
    - pose proof (clamp_range
        (F32.round_to_int
           (F32.div (F32.sub wx (Grid3D.origin_x_ g)) (Grid3D.resolution_ g)))
        0 (Grid3D.cols_ g - 1)). lia.
    - pose proof (clamp_range
        (F32.round_to_int
           (F32.div (F32.sub wy (Grid3D.origin_y_ g)) (Grid3D.resolution_ g)))
        0 (Grid3D.rows_ g - 1)). lia. }
  split; [done|]. split; [done|]. intros layer Hl. apply is_valid_spec. lia.
Qed.

Lemma world_to_grid_in_range_witness :
  let g := Grid3D.new 4 2 1 F32.one F32.zero F32.zero in
  let wx := F32.of_int 9 in let wy := F32.of_int (-3) in
  0 < Grid3D.cols_ g /\ 0 < Grid3D.rows_ g /\
  let p := Grid3D.world_to_grid g wx wy in
  0 <= p.1 < Grid3D.cols_ g /\ 0 <= p.2 < Grid3D.rows_ g /\
  forall layer,
    0 <= layer < Grid3D.layers_ g -> Grid3D.is_valid g p.1 p.2 layer = true.
Proof.
  intros g wx wy.
  assert (0 < Grid3D.cols_ g) as Hc by done.
  assert (0 < Grid3D.rows_ g) as Hr by done.
  split; [exact Hc|]. split; [exact Hr|].
  exact (world_to_grid_in_range g wx wy Hc Hr).
Defined.

(** X12.  Once a segment of a net is marked, a footprint cell that was
    unblocked and is no static obstacle is free for that net and for no
    other, and the answer of [is_valid_and_free] for a cell that was
    already blocked is what it was. *)
Theorem marked_cells_free_for_own_net g x1 y1 x2 y2 layer net k :
  wf g ->
  exists g',
    Grid3D.mark_segment x1 y1 x2 y2 layer net k g = Some g' /\
    forall x y l,
      Grid3D.is_valid g x y l = true ->
      (l = layer -> segment_covers x1 y1 x2 y2 k x y ->
       GridCell.blocked (Grid3D.at_ g x y l) = false ->
       GridCell.is_obstacle (Grid3D.at_ g x y l) = false ->
       forall other, Grid3D.is_valid_and_free g' x y l other = (net =? other)) /\
      (GridCell.blocked (Grid3D.at_ g x y l) = true ->
       forall other,
         Grid3D.is_valid_and_free g' x y l other
         = Grid3D.is_valid_and_free g x y l other).
Proof.
  intros Hwf.
  destruct (mark_segment_footprint g x1 y1 x2 y2 layer net k Hwf)
    as (g' & Hm & Hwf' & Hf & Hat).
  exists g'. split; [exact Hm|]. intros x y l Hv.
  destruct (Hat x y l Hv) as [Hin Hout].
  assert (Grid3D.is_valid g' x y l = true) as Hv'
    by (by rewrite (same_frame_is_valid _ _ _ _ _ Hf)).
  split.
  - intros -> Hcov Hb Ho other. unfold Grid3D.is_valid_and_free.
    rewrite Hv', (Hin eq_refl Hcov), Hb, Ho. simpl. by rewrite andb_true_r.
  - intros Hb other. unfold Grid3D.is_valid_and_free. rewrite Hv, Hv'. simpl.
    enough (Grid3D.at_ g' x y l = Grid3D.at_ g x y l) as -> by done.
    destruct (decide (l = layer)) as [->|Hl]; [|apply Hout; tauto].
    destruct (segment_visits (Grid3D.mark_segment_cell net) x1 y1 x2 y2 layer k g)
      as (pts & Hpts & Hvis).
    unfold Grid3D.mark_segment in Hm. rewrite Hvis in Hm. injection Hm as <-.
    destruct (visit_all_spec _ _ (segment_cells pts k layer) g
                (mark_segment_cell_acts net) (mark_cell_idem net) Hwf) as (_ & _ & Hat').
    rewrite (Hat' x y layer Hv). destruct (decide _); [|done].
    by destruct (Grid3D.at_ g x y layer) as [[] ? ? ? ? ? ? ?].
Qed.

Lemma marked_cells_free_for_own_net_witness :
  let g := Grid3D.new 4 4 2 F32.one F32.zero F32.zero in
  let x1 := 0 in let y1 := 1 in let x2 := 3 in let y2 := 2 in
  let layer := 1 in let net := 7 in let k := 1 in
  wf g /\
  exists g',
    Grid3D.mark_segment x1 y1 x2 y2 layer net k g = Some g' /\
    forall x y l,
      Grid3D.is_valid g x y l = true ->
      (l = layer -> segment_covers x1 y1 x2 y2 k x y ->
       GridCell.blocked (Grid3D.at_ g x y l) = false ->
       GridCell.is_obstacle (Grid3D.at_ g x y l) = false ->
       forall other, Grid3D.is_valid_and_free g' x y l other = (net =? other)) /\
      (GridCell.blocked (Grid3D.at_ g x y l) = true ->
       forall other,
         Grid3D.is_valid_and_free g' x y l other
         = Grid3D.is_valid_and_free g x y l other).
Proof.
  intros g x1 y1 x2 y2 layer net k.
  assert (wf g) as Hwf by (apply wf_new; lia).
  split; [exact Hwf|].
  exact (marked_cells_free_for_own_net g x1 y1 x2 y2 layer net k Hwf).
Defined.
End UsageFacts.

Module FloatFacts.
Import FloatSpec RouteFacts.

Lemma binary_round_aux_sign s m e l :
  signed_of s (binary_round_aux F32.prec F32.emax s m e l).
Proof.
  unfold binary_round_aux.
  destruct (shr_fexp _ _ m e l) as [mrs' e'].
  destruct (shr_fexp _ _ _ e' loc_Exact) as [mrs'' e''].
  destruct (shr_m mrs''); simpl; [done| |done].
  by destruct (_ <=? _).
Qed.

Lemma of_int_sign n : 0 <= n -> signed_of false (F32.of_int n).
Proof.
  intros Hn. unfold F32.of_int, binary_normalize.
  destruct n as [|p|p]; [done| |lia].
  unfold binary_round. destruct (shl_align _ _ _) as [mz ez].
  apply binary_round_aux_sign.
Qed.

Lemma div_sign a b :
  signed_of false a -> signed_of false b -> signed_of false (F32.div a b).
Proof.
  unfold F32.div, SFdiv.
  destruct a as [sa|sa| |sa ma ea], b as [sb|sb| |sb mb eb]; simpl;
    try done; try (by intros -> ->).
  intros -> ->. destruct (SFdiv_core_binary _ _ _ _ _ _) as [[mz ez] lz].
  apply binary_round_aux_sign.
Qed.

Lemma signed_not_negative v : signed_of false v -> F32.ltb v F32.zero = false.
Proof. by destruct v as [s|s| |s m e]; simpl; try done; intros ->. Qed.

(** Whatever is below [c] is below [b] or [b] is below [c], unless [b]
    is a NaN. *)
Lemma ltb_cotrans a b c :
  b <> S754_nan ->
  F32.ltb a c = true -> F32.ltb a b = true \/ F32.ltb b c = true.
Proof.
  intros Hb Hac.
  destruct (F32.ltb a b) eqn:Hab; [by left|].
  destruct (F32.ltb b c) eqn:Hbc; [by right|]. exfalso.
  unfold F32.ltb in *.
  destruct a as [sa|sa| |sa ma ea], b as [sb|sb| |sb mb eb], c as [sc|sc| |sc mc ec];
    try done;
    try (destruct sa); try (destruct sb); try (destruct sc); try done.
  - apply finite_lt_neg in Hac.
    assert (~ (eb < ea \/ ea = eb /\ (mb < ma)%positive)) by (rewrite <- finite_lt_neg; congruence).
    assert (~ (ec < eb \/ eb = ec /\ (mc < mb)%positive)) by (rewrite <- finite_lt_neg; congruence).
    lia.
  - apply finite_lt_pos in Hac.
    assert (~ (ea < eb \/ ea = eb /\ (ma < mb)%positive)) by (rewrite <- finite_lt_pos; congruence).
    assert (~ (eb < ec \/ eb = ec /\ (mb < mc)%positive)) by (rewrite <- finite_lt_pos; congruence).
    lia.
Qed.

Lemma min_one_le v : F32.ltb F32.one (F32.min F32.one v) = false.
Proof.
  unfold F32.min. destruct (F32.ltb v F32.one) eqn:E; [|apply ltb_irrefl].
  destruct (F32.ltb F32.one v) eqn:E'; [|done].
  pose proof (ltb_trans _ _ _ E E') as H. by rewrite ltb_irrefl in H.
Qed.

(** X11.  [get_congestion] never returns more than 1, whatever the
    counter holds, and never less than 0 when the counter it reads is not
    negative. *)
Theorem get_congestion_range g x y layer :
  F32.ltb F32.one (Grid3D.get_congestion g x y layer) = false /\
  (0 <= default 0 (Grid3D.congestion_ g
                     !! Z.to_nat (Grid3D.congestion_index g x y layer)) ->
   F32.ltb (Grid3D.get_congestion g x y layer) F32.zero = false).
Proof.
  unfold Grid3D.get_congestion. split; [apply min_one_le|].
  intros Hc. unfold F32.min. destruct (F32.ltb _ F32.one); [|done].
  apply signed_not_negative, div_sign; by apply of_int_sign.
Qed.

(** X17.  When the congestion threshold of the rules is not below 1,
    [get_congestion_cost] is 0 for every cell and every state of the
    grid: the reading never exceeds 1, so it never exceeds the
    threshold. *)
Theorem congestion_cost_off pf x y layer :
  F32.ltb (DesignRules.congestion_threshold (Pathfinder.rules_ pf)) F32.one = false ->
  Pathfinder.get_congestion_cost pf x y layer = F32.zero.
Proof.
  intros Ht. unfold Pathfinder.get_congestion_cost, F32.gtb.
  fold (F32.ltb (DesignRules.congestion_threshold (Pathfinder.rules_ pf))
          (Grid3D.get_congestion (Pathfinder.grid_ pf) x y layer)).
  destruct (F32.ltb _ (Grid3D.get_congestion _ x y layer)) eqn:E; [|done].
  apply (ltb_cotrans _ F32.one) in E as [H|H]; [congruence| |done].
  unfold Grid3D.get_congestion in H. by rewrite min_one_le in H.
Qed.

Lemma congestion_cost_off_witness :
  let rules :=
    DesignRules.mk (F32.ratio 127 1000) (F32.ratio 127 1000) (F32.ratio 3 10)
      (F32.ratio 6 10) (F32.ratio 127 1000) F32.one
      F32.one (F32.ratio 3 2) (F32.of_int 10) (F32.of_int 5) F32.one in
  let pf := Pathfinder.new Scenario.via_grid rules true in
  let x := 12 in let y := 4 in let layer := 0 in
  F32.ltb (DesignRules.congestion_threshold (Pathfinder.rules_ pf)) F32.one = false /\
  Pathfinder.get_congestion_cost pf x y layer = F32.zero.
Proof.
  intros rules pf x y layer.
  assert (F32.ltb (DesignRules.congestion_threshold (Pathfinder.rules_ pf)) F32.one
          = false) as Ht by reflexivity.
  split; [exact Ht|].
  exact (congestion_cost_off pf x y layer Ht).
Defined.
End FloatFacts.

Module BlockFacts.
Import GridSpec GridFacts FrameSpec Pathfinder.

(** X29.  [mark_via] followed by [unmark_via] with the same arguments
    leaves, on every layer, in every valid cell of the square of the via:
    a cell that was unblocked and is not pad-blocked unblocked with net 0;
    a cell that another net blocked and that is not pad-blocked with its
    blocked flag and its net; a pad-blocked cell blocked with its net set
    to [original_net].  Cells outside the square are what they were. *)
Theorem mark_unmark_via_restores g vx vy net r :
  wf g ->
  let g2 := Grid3D.unmark_via vx vy net r (Grid3D.mark_via vx vy net r g) in
  forall x y l,
    Grid3D.is_valid g x y l = true ->
    let c := Grid3D.at_ g x y l in
    let c2 := Grid3D.at_ g2 x y l in
    (in_square r vx vy x y ->
     (GridCell.blocked c = false -> GridCell.pad_blocked c = false ->
      GridCell.blocked c2 = false /\ GridCell.net c2 = 0) /\
     (GridCell.blocked c = true -> GridCell.net c <> net ->
      GridCell.pad_blocked c = false ->
      GridCell.blocked c2 = GridCell.blocked c /\ GridCell.net c2 = GridCell.net c) /\
     (GridCell.pad_blocked c = true ->
      GridCell.blocked c2 = true /\ GridCell.net c2 = GridCell.original_net c)) /\
    (~ in_square r vx vy x y -> c2 = c).
Proof.
  intros Hwf g2 x y l Hv c c2. subst g2 c c2.
  destruct (via_pass _ _ vx vy r g (mark_via_cell_acts net) (mark_cell_idem net) Hwf)
    as (Hwf1 & Hs1 & Hat1).
  fold (Grid3D.mark_via vx vy net r g) in Hwf1, Hs1, Hat1.
  set (g1 := Grid3D.mark_via vx vy net r g) in *.
  destruct (via_pass _ _ vx vy r g1 (unmark_at_acts net) (unmark_cell_idem net) Hwf1)
    as (Hwf2 & Hs2 & Hat2).
  assert (Grid3D.layers_ g1 = Grid3D.layers_ g) as Hl
    by (unfold shape in Hs1; by injection Hs1).
  fold (Grid3D.unmark_via vx vy net r g1) in Hwf2, Hs2, Hat2.
  assert (Grid3D.is_valid g1 x y l = true) as Hv1
    by (by rewrite (shape_is_valid _ _ _ _ _ Hs1)).
  destruct (Hat1 x y l Hv) as [Hin1 Hout1], (Hat2 x y l Hv1) as [Hin2 Hout2].
  split.
  - intros Hsq. rewrite (Hin2 Hsq), (Hin1 Hsq).
    destruct (Grid3D.at_ g x y l) as [b n u h o z p on].
    unfold Grid3D.unmark_cell, mark_cell. cbn. split; [|split].
    + intros -> ->. cbn. by rewrite Z.eqb_refl.
    + intros -> Hn ->. cbn. by rewrite (proj2 (Z.eqb_neq n net) Hn).
    + intros ->. by destruct b.
  - intros Hsq. by rewrite (Hout2 Hsq), (Hout1 Hsq).
Qed.

Lemma mark_unmark_via_restores_witness :
  let g := Scenario.obstacle_grid in
  let vx := 1 in let vy := 1 in let net := 7 in let r := 1 in
  wf g /\
  let g2 := Grid3D.unmark_via vx vy net r (Grid3D.mark_via vx vy net r g) in
  forall x y l,
    Grid3D.is_valid g x y l = true ->
    let c := Grid3D.at_ g x y l in
    let c2 := Grid3D.at_ g2 x y l in
    (in_square r vx vy x y ->
     (GridCell.blocked c = false -> GridCell.pad_blocked c = false ->
      GridCell.blocked c2 = false /\ GridCell.net c2 = 0) /\
     (GridCell.blocked c = true -> GridCell.net c <> net ->
      GridCell.pad_blocked c = false ->
      GridCell.blocked c2 = GridCell.blocked c /\ GridCell.net c2 = GridCell.net c) /\
     (GridCell.pad_blocked c = true ->
      GridCell.blocked c2 = true /\ GridCell.net c2 = GridCell.original_net c)) /\
    (~ in_square r vx vy x y -> c2 = c).
Proof.
  intros g vx vy net r.
  assert (wf g) as Hwf by (apply wf_modify; apply wf_new; lia).
  split; [exact Hwf|].
  exact (mark_unmark_via_restores g vx vy net r Hwf).
Defined.

(** *** The blocking predicates *)

Lemma cell_blocks_standard g x y layer net :
  cell_blocks g x y layer net false = negb (Grid3D.is_valid_and_free g x y layer net).
Proof.
  unfold cell_blocks, Grid3D.is_valid_and_free.
  destruct (Grid3D.is_valid g x y layer); [|done]. simpl.
  destruct (GridCell.blocked _); [|done]. simpl.
  destruct (GridCell.is_obstacle _); simpl; [by rewrite andb_false_r|].
  rewrite andb_true_r. by destruct (_ =? _).
Qed.

Lemma cell_blocks_invalid g x y layer net sharing :
  Grid3D.is_valid g x y layer = false -> cell_blocks g x y layer net sharing = true.
Proof. intros H. unfold cell_blocks. by rewrite H. Qed.

Lemma cell_blocks_sharing g x y layer net :
  net <> 0 ->
  cell_blocks g x y layer net true = true -> cell_blocks g x y layer net false = true.
Proof.
  intros Hnet. unfold cell_blocks.
  destruct (Grid3D.is_valid g x y layer); [|done]. simpl.
  destruct (GridCell.blocked _); [|done].
  destruct (GridCell.is_obstacle _); [done|]. simpl.
  destruct (GridCell.net _ =? 0) eqn:E0, (GridCell.net _ =? net) eqn:En; simpl; try done.
  apply Z.eqb_eq in E0, En. congruence.
Qed.

Lemma elem_of_offsets' k d : d ∈ offsets k <-> - k <= d <= k.
Proof. unfold offsets. rewrite elem_of_seqZ. lia. Qed.

Lemma existsb_true_iff {A : Type} (f : A -> bool) (l : list A) :
  existsb f l = true <-> exists a, a ∈ l /\ f a = true.
Proof.
  rewrite existsb_exists. split; intros (a & Ha & Hf); exists a; split; try done;
    by apply list_elem_of_In.
Qed.

Lemma existsb_false_iff {A : Type} (f : A -> bool) (l : list A) :
  existsb f l = false <-> forall a, a ∈ l -> f a = false.
Proof.
  split.
  - intros H a Ha. destruct (f a) eqn:E; [|done].
    assert (existsb f l = true) by (apply existsb_true_iff; eauto). congruence.
  - intros H. destruct (existsb f l) eqn:E; [|done].
    apply existsb_true_iff in E as (a & Ha & Hf). rewrite (H a Ha) in Hf. done.
Qed.

Lemma square_blocked_iff g k x y layer net sharing :
  existsb (fun dy =>
    existsb (fun dx => cell_blocks g (x + dx) (y + dy) layer net sharing) (offsets k))
    (offsets k) = true <->
  exists dx dy, - k <= dx <= k /\ - k <= dy <= k /\
                cell_blocks g (x + dx) (y + dy) layer net sharing = true.
Proof.
  rewrite existsb_true_iff. split.
  - intros (dy & Hdy & H). apply existsb_true_iff in H as (dx & Hdx & H).
    exists dx, dy. by rewrite <- !elem_of_offsets'.
  - intros (dx & dy & Hdx & Hdy & H). exists dy. split; [by apply elem_of_offsets'|].
    apply existsb_true_iff. exists dx. split; [by apply elem_of_offsets'|done].
Qed.

Lemma trace_blocked_iff pf x y layer net sharing :
  is_trace_blocked pf x y layer net sharing = true <->
  exists dx dy,
    - trace_half_width_cells_ pf <= dx <= trace_half_width_cells_ pf /\
    - trace_half_width_cells_ pf <= dy <= trace_half_width_cells_ pf /\
    cell_blocks (grid_ pf) (x + dx) (y + dy) layer net sharing = true.
Proof. apply square_blocked_iff. Qed.

Lemma via_blocked_iff pf x y net sharing :
  is_via_blocked pf x y net sharing = true <->
  exists layer dx dy,
    0 <= layer < Grid3D.layers_ (grid_ pf) /\
    - via_half_cells_ pf <= dx <= via_half_cells_ pf /\
    - via_half_cells_ pf <= dy <= via_half_cells_ pf /\
    cell_blocks (grid_ pf) (x + dx) (y + dy) layer net sharing = true.
Proof.
  unfold is_via_blocked. rewrite existsb_true_iff. split.
  - intros (layer & Hl & H). apply elem_of_seqZ in Hl.
    apply square_blocked_iff in H as (dx & dy & Hdx & Hdy & H).
    exists layer, dx, dy. unfold Grid3D.layers in Hl. repeat split; try done; lia.
  - intros (layer & dx & dy & Hl & Hdx & Hdy & H). exists layer. split.
    + apply elem_of_seqZ. unfold Grid3D.layers. lia.
    + apply square_blocked_iff. eauto.
Qed.

(** X18.  Outside negotiated mode [is_trace_blocked] accepts a position
    exactly when every cell of the square of radius
    [trace_half_width_cells_] around it is valid and free for the net, in
    the sense of [is_valid_and_free]; [is_via_blocked] accepts it exactly
    when this holds, with radius [via_half_cells_], on every layer of the
    grid. *)
Theorem standard_checks_are_valid_and_free pf x y net :
  (forall layer,
     is_trace_blocked pf x y layer net false = false <->
     forall dx dy,
       - trace_half_width_cells_ pf <= dx <= trace_half_width_cells_ pf ->
       - trace_half_width_cells_ pf <= dy <= trace_half_width_cells_ pf ->
       Grid3D.is_valid_and_free (grid_ pf) (x + dx) (y + dy) layer net = true) /\
  (is_via_blocked pf x y net false = false <->
   forall layer dx dy,
     0 <= layer < Grid3D.layers_ (grid_ pf) ->
     - via_half_cells_ pf <= dx <= via_half_cells_ pf ->
     - via_half_cells_ pf <= dy <= via_half_cells_ pf ->
     Grid3D.is_valid_and_free (grid_ pf) (x + dx) (y + dy) layer net = true).
Proof.
  split; [intros layer|]; split.
  - intros H dx dy Hdx Hdy.
    destruct (Grid3D.is_valid_and_free _ _ _ _ _) eqn:E; [done|].
    assert (is_trace_blocked pf x y layer net false = true); [|congruence].
    apply trace_blocked_iff. exists dx, dy. by rewrite cell_blocks_standard, E.
  - intros H. apply not_true_is_false.
    intros (dx & dy & Hdx & Hdy & Hb)%trace_blocked_iff.
    rewrite cell_blocks_standard, (H dx dy Hdx Hdy) in Hb. done.
  - intros H layer dx dy Hl Hdx Hdy.
    destruct (Grid3D.is_valid_and_free _ _ _ _ _) eqn:E; [done|].
    assert (is_via_blocked pf x y net false = true); [|congruence].
    apply via_blocked_iff. exists layer, dx, dy. by rewrite cell_blocks_standard, E.
  - intros H. apply not_true_is_false.
    intros (layer & dx & dy & Hl & Hdx & Hdy & Hb)%via_blocked_iff.
    rewrite cell_blocks_standard, (H layer dx dy Hl Hdx Hdy) in Hb. done.
Qed.

(** X19.  A pathfinder made by the constructor has footprint radii of at
    least one cell and every layer of the grid routable.  It therefore
    rejects, for every net and in both modes, every position on the
    border of the grid or outside it: part of the footprint lies outside
    the grid there. *)
Theorem new_pathfinder_rejects_border g rules diagonal :
  let pf := new g rules diagonal in
  1 <= trace_half_width_cells_ pf /\ 1 <= via_half_cells_ pf /\
  routable_layers_ pf = seqZ 0 (Grid3D.layers_ g) /\
  length (neighbors_2d_ pf) = (if diagonal then 8%nat else 4%nat) /\
  forall x y net sharing,
    x <= 0 \/ Grid3D.cols_ g - 1 <= x \/ y <= 0 \/ Grid3D.rows_ g - 1 <= y ->
    (forall layer, is_trace_blocked pf x y layer net sharing = true) /\
    (0 < Grid3D.layers_ g -> is_via_blocked pf x y net sharing = true).
Proof.
  intros pf.
  assert (1 <= trace_half_width_cells_ pf) as Ht by (subst pf; simpl; lia).
  assert (1 <= via_half_cells_ pf) as Hv by (subst pf; simpl; lia).
  split; [done|]. split; [done|]. split; [done|].
  split; [subst pf; by destruct diagonal|].
  intros x y net sharing Hb.
  assert (exists dx dy, -1 <= dx <= 1 /\ -1 <= dy <= 1 /\
            forall layer, Grid3D.is_valid g (x + dx) (y + dy) layer = false)
    as (dx & dy & Hdx & Hdy & Hout).
  { destruct Hb as [H|[H|[H|H]]].
    - exists (-1), 0. repeat split; try lia. intros layer.
      apply not_true_is_false. rewrite is_valid_spec. lia.
    - exists 1, 0. repeat split; try lia. intros layer.
      apply not_true_is_false. rewrite is_valid_spec. lia.
    - exists 0, (-1). repeat split; try lia. intros layer.
      apply not_true_is_false. rewrite is_valid_spec. lia.
    - exists 0, 1. repeat split; try lia. intros layer.
      apply not_true_is_false. rewrite is_valid_spec. lia. }
  split.
  - intros layer. apply trace_blocked_iff. exists dx, dy.
    split; [lia|]. split; [lia|]. by apply cell_blocks_invalid.
  - intros Hl. apply via_blocked_iff. exists 0, dx, dy.
    split; [done|]. split; [lia|]. split; [lia|]. by apply cell_blocks_invalid.
Qed.

(** X20.  [is_diagonal_blocked] never rejects a move along an axis;
    outside negotiated mode it accepts a diagonal move exactly when the
    two cells that share a side with both ends of the move are valid
    and free for the net. *)
Theorem diagonal_check pf x y dx dy layer net :
  (forall sharing,
     dx = 0 \/ dy = 0 -> is_diagonal_blocked pf x y dx dy layer net sharing = false) /\
  (dx <> 0 -> dy <> 0 ->
   (is_diagonal_blocked pf x y dx dy layer net false = false <->
    Grid3D.is_valid_and_free (grid_ pf) x (y + dy) layer net = true /\
    Grid3D.is_valid_and_free (grid_ pf) (x + dx) y layer net = true)).
Proof.
  split.
  - intros sharing H. unfold is_diagonal_blocked.
    destruct H as [-> | ->]; simpl; [done|]. by rewrite orb_true_r.
  - intros Hx Hy. unfold is_diagonal_blocked.
    rewrite (proj2 (Z.eqb_neq dx 0) Hx), (proj2 (Z.eqb_neq dy 0) Hy). simpl.
    rewrite !cell_blocks_standard, orb_false_r.
    destruct (Grid3D.is_valid_and_free _ x _ _ _),
             (Grid3D.is_valid_and_free _ (x + dx) _ _ _); simpl; split; try done;
      intros [? ?]; done.
Qed.

(** X21.  For a net other than 0, negotiated mode only relaxes the
    checks: whatever [is_trace_blocked], [is_diagonal_blocked] or
    [is_via_blocked] rejects with sharing allowed, it rejects without. *)
Theorem sharing_only_relaxes pf x y layer net :
  net <> 0 ->
  (is_trace_blocked pf x y layer net true = true ->
   is_trace_blocked pf x y layer net false = true) /\
  (forall dx dy,
     is_diagonal_blocked pf x y dx dy layer net true = true ->
     is_diagonal_blocked pf x y dx dy layer net false = true) /\
  (is_via_blocked pf x y net true = true -> is_via_blocked pf x y net false = true).
Proof.
  intros Hnet. split; [|split].
  - intros (dx & dy & Hdx & Hdy & H)%trace_blocked_iff. apply trace_blocked_iff.
    exists dx, dy. split; [done|]. split; [done|]. by apply cell_blocks_sharing.
  - intros dx dy. unfold is_diagonal_blocked. destruct (_ || _); [done|]. simpl.
    rewrite !orb_false_r. intros [H|H]%orb_true_iff; apply orb_true_iff;
      [left|right]; by apply cell_blocks_sharing.
  - intros (l & dx & dy & Hl & Hdx & Hdy & H)%via_blocked_iff. apply via_blocked_iff.
    exists l, dx, dy. repeat split; try done; try lia. by apply cell_blocks_sharing.
Qed.

Lemma sharing_only_relaxes_witness :
  let pf := Scenario.corridor_pathfinder in
  let x := 1 in let y := 0 in let layer := 0 in let net := 7 in
  net <> 0 /\
  (is_trace_blocked pf x y layer net true = true ->
   is_trace_blocked pf x y layer net false = true) /\
  (forall dx dy,
     is_diagonal_blocked pf x y dx dy layer net true = true ->
     is_diagonal_blocked pf x y dx dy layer net false = true) /\
  (is_via_blocked pf x y net true = true -> is_via_blocked pf x y net false = true).
Proof.
  intros pf x y layer net.
  assert (net <> 0) as Hnet by done.
  split; [exact Hnet|].
  exact (sharing_only_relaxes pf x y layer net Hnet).
Defined.

(** X22.  The heuristic depends on the two cells only through the
    distances along the axes and on whether the layers differ: it is the
    same in both directions, and the same after both cells are shifted
    by the same offset. *)
Theorem heuristic_symmetric pf x y layer gx gy glayer :
  heuristic pf x y layer gx gy glayer = heuristic pf gx gy glayer x y layer /\
  forall a b,
    heuristic pf (x + a) (y + b) layer (gx + a) (gy + b) glayer
    = heuristic pf x y layer gx gy glayer.
Proof.
  split.
  - unfold heuristic.
    replace (Z.abs (gx - x)) with (Z.abs (x - gx)) by lia.
    replace (Z.abs (gy - y)) with (Z.abs (y - gy)) by lia.
    by rewrite (Z.eqb_sym glayer layer).
  - intros a b. unfold heuristic.
    replace (x + a - (gx + a)) with (x - gx) by lia.
    by replace (y + b - (gy + b)) with (y - gy) by lia.
Qed.
End BlockFacts.

Module PathFacts.
Import Pathfinder PathSpec.

Lemma chain_snoc x y segs s :
  chain x y segs ->
  Segment.x1 s = (chain_end x y segs).1 -> Segment.y1 s = (chain_end x y segs).2 ->
  chain x y (segs ++ [s]).
Proof.
  revert x y. induction segs as [|a segs IH]; intros x y; simpl.
  - intros _ -> ->. done.
  - intros (-> & -> & H) H1 H2. split; [done|]. split; [done|]. by apply IH.
Qed.

Lemma chain_end_snoc x y segs s :
  chain_end x y (segs ++ [s]) = (Segment.x2 s, Segment.y2 s).
Proof. unfold chain_end. by rewrite fold_left_app. Qed.

Lemma sub_diag a : F32.sub a a = S754_zero false \/ F32.sub a a = S754_nan.
Proof.
  unfold F32.sub, SFsub. destruct a as [[]|[]| |s m e]; auto.
  rewrite Z.sub_diag. by left.
Qed.

Lemma moved_diag x y : moved x y x y = false.
Proof.
  unfold moved, F32.gtb.
  by destruct (sub_diag x) as [-> | ->], (sub_diag y) as [-> | ->].
Qed.

Lemma walk_parents_length pf fuel closed idx path p :
  walk_parents pf fuel closed idx path = Some p ->
  (length p <= length path + fuel)%nat.
Proof.
  revert idx path. induction fuel as [|fuel IH]; intros idx path; cbn [walk_parents].
  - destruct (_ && _); [done|]. intros [= <-]. lia.
  - destruct (_ && _); [|intros [= <-]; lia].
    destruct (closed !! Z.to_nat idx) as [node|]; [|intros [= <-]; lia].
    destruct (Grid3D.grid_to_world _ _ _) as [wx wy].
    intros H%IH. rewrite length_app in H. simpl in H. lia.
Qed.

Lemma emit_ok pf net start_x start_y n pen entry :
  pen_ok (rules_ pf) net start_x start_y n pen ->
  pen_ok (rules_ pf) net start_x start_y (S n) (emit pf net pen entry).
Proof.
  intros (Hc & He & Hs & Hv & Hls & Hlv).
  destruct entry as [[[wx wy] layer] is_via]. unfold emit.
  destruct is_via; [|destruct (moved _ _ _ _) eqn:Hm]; unfold pen_ok; simpl.
  - split; [done|]. split; [done|]. split; [done|]. split.
    + apply Forall_app. split; [done|]. by apply Forall_singleton.
    + rewrite length_app. simpl. lia.
  - split; [apply chain_snoc; by rewrite ?He|]. split; [by rewrite chain_end_snoc|].
    split; [apply Forall_app; split; [done|by apply Forall_singleton]|].
    split; [done|]. rewrite length_app. simpl. lia.
  - repeat split; try done; lia.
Qed.

Lemma fold_emit_ok pf net start_x start_y path n pen :
  pen_ok (rules_ pf) net start_x start_y n pen ->
  pen_ok (rules_ pf) net start_x start_y (n + length path)
    (fold_left (emit pf net) path pen).
Proof.
  revert n pen. induction path as [|e path IH]; intros n pen H; simpl.
  - by rewrite Nat.add_0_r.
  - replace (n + S (length path))%nat with (S n + length path)%nat by lia.
    by apply IH, emit_ok.
Qed.

(** X23.  What [reconstruct_path] returns is marked successful and carries
    the net.  Its segments form a polyline that starts at the start point
    given to it; every segment carries the net and the trace width of the
    rules and has ends that differ by more than 0.01 in a coordinate;
    every via carries the net and the drill and diameter of the rules.
    Unless the result is empty, the polyline ends at a point that does
    not differ from the end point by more than 0.01 in either coordinate.
    There are at most as many vias as closed nodes, and at most one
    segment more. *)
Theorem reconstruct_path_polyline pf start_x start_y end_x end_y net closed end_idx r :
  reconstruct_path pf start_x start_y end_x end_y net closed end_idx = Some r ->
  RouteResult.success r = true /\ RouteResult.net r = net /\
  chain start_x start_y (RouteResult.segments r) /\
  Forall (segment_ok (rules_ pf) net) (RouteResult.segments r) /\
  Forall (via_ok (rules_ pf) net) (RouteResult.vias r) /\
  (RouteResult.segments r = [] /\ RouteResult.vias r = [] \/
   moved end_x end_y (chain_end start_x start_y (RouteResult.segments r)).1
                     (chain_end start_x start_y (RouteResult.segments r)).2 = false) /\
  (length (RouteResult.segments r) <= length closed + 1)%nat /\
  (length (RouteResult.vias r) <= length closed)%nat.
Proof.
  unfold reconstruct_path.
  destruct (walk_parents _ _ _ _ _) as [rpath|] eqn:Hw; [|done].
  apply walk_parents_length in Hw. simpl in Hw. rewrite <- length_rev in Hw.
  destruct (rev rpath) as [|e0 [|e1 path]] eqn:Hp.
  - intros [= <-]. simpl. repeat split; try done; try lia. by left.
  - destruct e0 as [[[wx0 wy0] layer0] via0].
    intros [= <-]. simpl. repeat split; try done; try lia. by left.
  - destruct e0 as [[[wx0 wy0] layer0] via0].
    set (pen0 := mkPen start_x start_y layer0 [] []).
    assert (pen_ok (rules_ pf) net start_x start_y 0 pen0) as H0.
    { unfold pen_ok. simpl. repeat split; try done; lia. }
    apply (fold_emit_ok _ _ _ _ ((wx0, wy0, layer0, via0) :: e1 :: path)) in H0.
    set (pen := fold_left _ _ pen0) in *.
    destruct H0 as (Hc & He & Hs & Hv & Hls & Hlv).
    rewrite Nat.add_0_l in Hls, Hlv.
    destruct (moved end_x end_y (current_x pen) (current_y pen)) eqn:Hm;
      intros [= <-]; simpl.
    + split; [done|]. split; [done|].
      split; [apply chain_snoc; by rewrite ?He|].
      split; [apply Forall_app; split; [done|by apply Forall_singleton]|].
      split; [done|]. split; [right; rewrite chain_end_snoc; apply moved_diag|].
      rewrite length_app. simpl. lia.
    + split; [done|]. split; [done|]. split; [done|]. split; [done|].
      split; [done|]. split; [right; by rewrite He|]. lia.
Qed.

Lemma reconstruct_path_polyline_witness :
  exists r,
    reconstruct_path Scenario.corridor_pathfinder F32.zero F32.zero (F32.of_int 3)
      F32.zero 7
      [AStarNode.mk F32.zero F32.zero 0 0 0 (-1) false 0 0;
       AStarNode.mk F32.zero F32.one 1 0 0 0 false 1 0;
       AStarNode.mk F32.zero F32.one 1 0 1 1 true 1 0] 2 = Some r /\
    RouteResult.success r = true /\ RouteResult.net r = 7 /\
    chain F32.zero F32.zero (RouteResult.segments r) /\
    Forall (segment_ok (rules_ Scenario.corridor_pathfinder) 7) (RouteResult.segments r) /\
    Forall (via_ok (rules_ Scenario.corridor_pathfinder) 7) (RouteResult.vias r) /\
    (RouteResult.segments r = [] /\ RouteResult.vias r = [] \/
     moved (F32.of_int 3) F32.zero
           (chain_end F32.zero F32.zero (RouteResult.segments r)).1
           (chain_end F32.zero F32.zero (RouteResult.segments r)).2 = false) /\
    (length (RouteResult.segments r) <= 3 + 1)%nat /\
    (length (RouteResult.vias r) <= 3)%nat.
Proof.
  eexists. split; [vm_compute; reflexivity|].
  apply (reconstruct_path_polyline Scenario.corridor_pathfinder F32.zero F32.zero
           (F32.of_int 3) F32.zero 7
           [AStarNode.mk F32.zero F32.zero 0 0 0 (-1) false 0 0;
            AStarNode.mk F32.zero F32.one 1 0 0 0 false 1 0;
            AStarNode.mk F32.zero F32.one 1 0 1 1 true 1 0] 2).
  vm_compute. reflexivity.
Defined.
End PathFacts.

Module SearchFacts.
Import Pathfinder RouteSpec RouteFacts SearchSpec PathSpec PathFacts.

Section Route.
Variable choose : Z -> list AStarNode.t -> nat.
Variable pf : Pathfinder.t.
Variables (start_x start_y : float) (start_layer : Z).
Variables (end_x end_y : float) (end_layer : Z).
Variable net : Z.
Variables start_layers end_layers : list Z.
Variable negotiated_mode : bool.
Variables present_cost_factor weight : float.

Local Abbreviation expand_neighbor :=
  (Pathfinder.expand_neighbor pf start_x start_y start_layer end_x end_y end_layer
     net start_layers end_layers negotiated_mode present_cost_factor weight).
Local Abbreviation expand_via :=
  (Pathfinder.expand_via pf end_x end_y end_layer
     net end_layers negotiated_mode present_cost_factor weight).
Local Abbreviation search_loop :=
  (Pathfinder.search_loop choose pf start_x start_y start_layer end_x end_y end_layer
     net start_layers end_layers negotiated_mode present_cost_factor weight).
Local Abbreviation search :=
  (Pathfinder.search choose pf start_x start_y start_layer end_x end_y end_layer
     net start_layers end_layers negotiated_mode present_cost_factor weight).
Local Abbreviation initial_search :=
  (Pathfinder.initial_search pf start_x start_y start_layer end_x end_y end_layer
     start_layers end_layers).
Local Abbreviation route :=
  (Pathfinder.route choose pf start_x start_y start_layer end_x end_y end_layer
     net start_layers end_layers negotiated_mode present_cost_factor weight).
Local Abbreviation expand_all current idx st :=
  (fold_left (expand_via current idx) (routable_layers_ pf)
     (fold_left (expand_neighbor current idx) (neighbors_2d_ pf) st)).

(** *** The start of the search *)

Lemma initial_search_nodes :
  closed_set initial_search = ∅ /\ closed_list initial_search = [] /\
  iterations initial_search = 0 /\ nodes_explored initial_search = 0 /\
  open_set initial_search <> [] /\
  forall n, n ∈ open_set initial_search ->
    exists sl, sl ∈ valid_start_layers start_layer start_layers /\
      n = start_node pf start_x start_y end_x end_y end_layer end_layers sl.
Proof.
  assert (forall l st,
            let st' :=
              fold_left
                (fun st sl =>
                   mkSearch (OpenSet.push
                               (start_node pf start_x start_y end_x end_y end_layer
                                  end_layers sl) (open_set st))
                     (closed_set st)
                     (<[((start_cell pf start_x start_y).1,
                         (start_cell pf start_x start_y).2, sl) := F32.zero]>
                        (g_scores st))
                     (closed_list st) (iterations st) (nodes_explored st)) l st in
            closed_set st' = closed_set st /\ closed_list st' = closed_list st /\
            iterations st' = iterations st /\ nodes_explored st' = nodes_explored st /\
            (l <> [] -> open_set st' <> []) /\
            forall n, n ∈ open_set st' ->
              n ∈ open_set st \/
              exists sl, sl ∈ l /\
                n = start_node pf start_x start_y end_x end_y end_layer end_layers sl)
    as H.
  { induction l as [|sl l IH]; intros st; simpl.
    - repeat split; try done. auto.
    - match goal with |- context [fold_left _ l ?s] =>
        destruct (IH s) as (H1 & H2 & H3 & H4 & H5 & H6) end.
      simpl in *. rewrite H1, H2, H3, H4. repeat split; try done.
      + intros _ Hn. destruct (fold_left _ l _) as [op ? ? ? ? ?] eqn:E.
        simpl in *. subst op.
        specialize (H6 (start_node pf start_x start_y end_x end_y end_layer
                          end_layers sl)).
        destruct l as [|sl' l']; [by injection E|]. by apply H5.
      + intros n Hn. destruct (H6 n Hn) as [[->|Hn']%elem_of_cons|(sl' & Hsl & ->)].
        * right. exists sl. split; [left|done].
        * by left.
        * right. exists sl'. split; [by right|done]. }
  destruct (H (valid_start_layers start_layer start_layers) (mkSearch [] ∅ ∅ [] 0 0))
    as (H1 & H2 & H3 & H4 & H5 & H6).
  fold initial_search in H1, H2, H3, H4, H5, H6.
  repeat split; try done.
  - apply H5. unfold valid_start_layers. by destruct start_layers.
  - intros n Hn. destruct (H6 n Hn) as [Hn'|Hn']; [|done].
    by apply elem_of_nil in Hn'.
Qed.

(** *** The closed containers *)

Lemma extends_consistent idx st st' :
  extends idx st st' -> closed_consistent st -> closed_consistent st'.
Proof.
  intros (E1 & E2 & E3 & E4 & _). unfold closed_consistent.
  by rewrite E1, E2, E3, E4.
Qed.

Lemma search_loop_consistent fuel st :
  closed_consistent st -> closed_consistent (final_state (search_loop fuel st)).
Proof.
  revert st. induction fuel as [|fuel IH]; intros st Hst; simpl.
  - by destruct (open_set st).
  - destruct (open_set st) as [|n0 q] eqn:Hq; [done|]. rewrite <- Hq.
    destruct (OpenSet.pop _ _) as [[current rest]|] eqn:Hpop; [|done].
    destruct Hst as (Hn & Hle & Hnd & Hset).
    destruct (bool_decide _) eqn:Hin.
    + apply IH. unfold closed_consistent. simpl. repeat split; try done; try lia;
        by apply Hset.
    + apply bool_decide_eq_false in Hin.
      assert (closed_consistent
                (mkSearch rest
                   ({[(AStarNode.x current, AStarNode.y current,
                       AStarNode.layer current)]} ∪ closed_set st)
                   (g_scores st) (closed_list st ++ [current])
                   (iterations st + 1) (nodes_explored st + 1))) as Hst'.
      { unfold closed_consistent. simpl. rewrite length_app, fmap_app. simpl.
        split; [lia|]. split; [lia|]. split.
        - apply NoDup_app. split; [done|]. split; [|apply NoDup_singleton].
          intros k Hk ->%list_elem_of_singleton. apply Hin, Hset, Hk.
        - intros k. rewrite elem_of_union, elem_of_singleton, elem_of_app,
            list_elem_of_singleton, Hset. unfold key. tauto. }
      destruct (goal_test _ _ _ _ _ _); [done|].
      apply IH. eapply extends_consistent; [|exact Hst'].
      apply expand_all_extends.
Qed.

(** *** Links to the parents *)

Lemma link_ok_app closed n extra :
  link_ok pf closed n -> link_ok pf (closed ++ extra) n.
Proof.
  intros [H|(p & H0 & Hp & Hs)]; [by left|]. right. exists p.
  split; [done|]. split; [|done]. by apply lookup_app_l_Some.
Qed.

Lemma relax_linked n st :
  link_ok pf (closed_list st) n -> linked pf st -> linked pf (relax n st).
Proof.
  intros Hn Hst. unfold relax.
  destruct (match g_scores st !! _ with Some _ => _ | None => _ end); [|done].
  intros m [[->|Hm]%elem_of_cons|Hm]; simpl in *; auto.
Qed.

Lemma expand_neighbor_linked current idx st nb :
  0 <= idx -> closed_list st !! Z.to_nat idx = Some current ->
  linked pf st -> linked pf (expand_neighbor current idx st nb).
Proof.
  intros Hi Hc Hst. unfold Pathfinder.expand_neighbor.
  destruct (step_blocked _ _ _ _ _ _ _ _ _ _ _ _ _); [done|].
  destruct (bool_decide _); [done|].
  apply relax_linked; [|done]. right. exists current. simpl.
  split; [done|]. split; [done|]. by unfold layer_step.
Qed.

Lemma expand_via_linked current idx st l :
  0 <= idx -> closed_list st !! Z.to_nat idx = Some current ->
  l ∈ routable_layers_ pf ->
  linked pf st -> linked pf (expand_via current idx st l).
Proof.
  intros Hi Hc Hl Hst. unfold Pathfinder.expand_via.
  destruct (via_blocked _ _ _ _ _) eqn:Hb; [done|].
  destruct (bool_decide _); [done|].
  apply relax_linked; [|done]. right. exists current. simpl.
  split; [done|]. split; [done|]. unfold layer_step. simpl.
  unfold via_blocked in Hb. destruct (l =? AStarNode.layer current) eqn:E; [done|].
  apply Z.eqb_neq in E. split; [done|]. by apply contains_elem.
Qed.

Lemma expand_all_linked current idx st :
  0 <= idx -> closed_list st !! Z.to_nat idx = Some current ->
  linked pf st -> linked pf (expand_all current idx st).
Proof.
  intros Hi Hc Hst.
  apply (fold_left_invariant
           (fun s => linked pf s /\ closed_list s = closed_list st)).
  - intros l s Hl [Hs Hcl]. split.
    + apply expand_via_linked; try done. by rewrite Hcl.
    + destruct (expand_via_extends pf end_x end_y end_layer net end_layers
                  negotiated_mode present_cost_factor weight current idx s l)
        as (_ & -> & _). done.
  - apply (fold_left_invariant
             (fun s => linked pf s /\ closed_list s = closed_list st)); [|done].
    intros nb s Hnb [Hs Hcl]. split.
    + apply expand_neighbor_linked; try done. by rewrite Hcl.
    + destruct (expand_neighbor_extends pf start_x start_y start_layer end_x end_y
                  end_layer net start_layers end_layers negotiated_mode
                  present_cost_factor weight current idx s nb) as (_ & -> & _). done.
Qed.

Lemma search_loop_linked fuel st :
  linked pf st -> linked pf (final_state (search_loop fuel st)).
Proof.
  revert st. induction fuel as [|fuel IH]; intros st Hst; simpl.
  - by destruct (open_set st).
  - destruct (open_set st) as [|n0 q] eqn:Hq; [done|]. rewrite <- Hq.
    destruct (OpenSet.pop _ _) as [[current rest]|] eqn:Hpop; [|done].
    apply pop_elem in Hpop as [Hcur Hrest].
    destruct (bool_decide _).
    + apply IH. intros n [Hn|Hn]; simpl in *; apply Hst; auto.
    + assert (linked pf
                (mkSearch rest
                   ({[(AStarNode.x current, AStarNode.y current,
                       AStarNode.layer current)]} ∪ closed_set st)
                   (g_scores st) (closed_list st ++ [current])
                   (iterations st + 1) (nodes_explored st + 1))) as Hst'.
      { intros n Hn. simpl in *. apply link_ok_app. apply Hst.
        destruct Hn as [Hn|[Hn|Hn%list_elem_of_singleton]%elem_of_app]; subst; auto. }
      destruct (goal_test _ _ _ _ _ _); [done|].
      apply IH. apply expand_all_linked; [lia| |done].
      simpl. rewrite Nat2Z.id. by apply list_lookup_middle.
Qed.

Lemma search_linked : linked pf (final_state search).
Proof.
  apply search_loop_linked. intros n [Hn|Hn].
  - destruct initial_search_nodes as (_ & _ & _ & _ & _ & H).
    destruct (H n Hn) as (sl & _ & ->). by left.
  - destruct initial_search_nodes as (_ & Hc & _). rewrite Hc in Hn.
    by apply elem_of_nil in Hn.
Qed.

(** *** From the closed list to the vias *)

Lemma walk_parents_entries closed :
  parents_before closed ->
  forall fuel idx path,
    idx < Z.of_nat fuel ->
    walk_parents pf fuel closed idx path
    = Some (path ++ (entry_of pf <$> ancestors fuel closed idx)).
Proof.
  intros Hcl. induction fuel as [|fuel IH]; intros idx path Hf.
  - simpl. destruct ((0 <=? idx) && _) eqn:E; [|by rewrite app_nil_r].
    apply andb_true_iff in E as [E _]. lia.
  - cbn [walk_parents ancestors].
    destruct ((0 <=? idx) && _) eqn:E; [|by rewrite app_nil_r].
    destruct (closed !! Z.to_nat idx) as [node|] eqn:Hn; [|by rewrite app_nil_r].
    rewrite fmap_cons. unfold entry_of at 1.
    destruct (Grid3D.grid_to_world _ _ _) as [wx wy].
    rewrite IH.
    + by rewrite <- app_assoc.
    + apply andb_true_iff in E as [E _]. specialize (Hcl _ _ Hn). lia.
Qed.

Lemma rev_fmap {A B : Type} (f : A -> B) (l : list A) :
  rev (f <$> l) = f <$> rev l.
Proof.
  induction l as [|a l IH]; [done|]. rewrite fmap_cons. simpl.
  by rewrite IH, fmap_app.
Qed.

Lemma trail_snoc prev nodes n :
  trail pf prev nodes -> layer_step pf (final_layer prev nodes) n ->
  trail pf prev (nodes ++ [n]).
Proof.
  revert prev. induction nodes as [|a nodes IH]; intros prev; simpl.
  - intros _ H. done.
  - intros [Ha Ht] Hn. split; [done|]. by apply IH.
Qed.

Lemma final_layer_snoc prev nodes n :
  final_layer prev (nodes ++ [n]) = AStarNode.layer n.
Proof. unfold final_layer. by rewrite fold_left_app. Qed.

(** The nodes from the root to the node at [idx], when every node of the
    closed list is linked to its parent. *)
Lemma ancestors_trail closed :
  parents_before closed ->
  (forall n, n ∈ closed -> link_ok pf closed n) ->
  forall fuel idx node,
    idx < Z.of_nat fuel -> 0 <= idx -> closed !! Z.to_nat idx = Some node ->
    exists root rest,
      rev (ancestors fuel closed idx) = root :: rest /\
      trail pf (AStarNode.layer root) (root :: rest) /\
      final_layer (AStarNode.layer root) (root :: rest) = AStarNode.layer node.
Proof.
  intros Hcl Hlink. induction fuel as [|fuel IH]; intros idx node Hf Hi Hn; [lia|].
  cbn [ancestors].
  assert ((0 <=? idx) && (idx <? Z.of_nat (length closed)) = true) as ->.
  { apply lookup_lt_Some in Hn. apply andb_true_iff. split; [lia|].
    apply Z.ltb_lt. lia. }
  rewrite Hn. cbn [rev].
  pose proof (Hcl _ _ Hn) as Hlt.
  destruct (Hlink node) as [[Hroot Hvia]|(p & Hp0 & Hp & Hstep)].
  { by eapply list_elem_of_lookup_2. }
  - exists node, []. rewrite Hroot.
    assert (ancestors fuel closed (-1) = []) as -> by (by destruct fuel).
    simpl. split; [done|]. split; [|done]. split; [|done].
    unfold layer_step. by rewrite Hvia.
  - destruct (IH (AStarNode.parent_idx node) p) as (root & rest & Hr & Ht & Hfl);
      [lia|done|done|].
    rewrite Hr. exists root, (rest ++ [node]). split; [done|]. split.
    + change (root :: rest ++ [node]) with ((root :: rest) ++ [node]).
      apply trail_snoc; [done|]. by rewrite Hfl.
    + change (root :: rest ++ [node]) with ((root :: rest) ++ [node]).
      apply final_layer_snoc.
Qed.

Lemma emit_vias nodes :
  forall pen,
    trail pf (current_layer pen) nodes ->
    Forall (via_changes_layer pf) (vias pen) ->
    Forall (via_changes_layer pf) (vias (fold_left (emit pf net) (entry_of pf <$> nodes) pen)).
Proof.
  induction nodes as [|n nodes IH]; intros pen Ht Hv; [done|].
  destruct Ht as [Hstep Ht]. rewrite fmap_cons. cbn [fold_left].
  apply IH.
  - unfold entry_of, emit. destruct (Grid3D.grid_to_world _ _ _) as [wx wy].
    unfold layer_step in Hstep.
    destruct (AStarNode.via_from_parent n); [done|].
    destruct (moved _ _ _ _); simpl; [done|]. by rewrite <- Hstep.
  - unfold entry_of, emit. destruct (Grid3D.grid_to_world _ _ _) as [wx wy].
    unfold layer_step in Hstep.
    destruct (AStarNode.via_from_parent n); [|by destruct (moved _ _ _ _)].
    simpl. apply Forall_app. split; [done|]. apply Forall_singleton.
    unfold via_changes_layer. simpl. destruct Hstep as [H1 H2]. split; [|done].
    congruence.
Qed.

Lemma reconstruct_path_vias closed idx r :
  parents_before closed ->
  (forall n, n ∈ closed -> link_ok pf closed n) ->
  0 <= idx < Z.of_nat (length closed) ->
  reconstruct_path pf start_x start_y end_x end_y net closed idx = Some r ->
  Forall (via_changes_layer pf) (RouteResult.vias r).
Proof.
  intros Hcl Hlink Hi. unfold reconstruct_path.
  rewrite (walk_parents_entries closed Hcl) by lia. rewrite app_nil_l.
  destruct (lookup_lt_is_Some_2 closed (Z.to_nat idx)) as [node Hn]; [lia|].
  destruct (ancestors_trail closed Hcl Hlink (length closed) idx node)
    as (root & rest & Hr & Ht & _); [lia|lia|done|].
  rewrite rev_fmap, Hr.
  destruct (entry_of pf <$> root :: rest) as [|[[[wx wy] layer0] via0] [|e1 path]]
    eqn:Hpath.
  - intros [= <-]. done.
  - intros [= <-]. done.
  - assert (layer0 = AStarNode.layer root) as ->.
    { rewrite fmap_cons in Hpath. unfold entry_of at 1 in Hpath.
      destruct (Grid3D.grid_to_world _ _ _). by injection Hpath as _ _ <- _ _. }
    rewrite <- Hpath.
    pose proof (emit_vias (root :: rest)
                  (mkPen start_x start_y (AStarNode.layer root) [] []) Ht) as H.
    intros [= <-]. cbn [RouteResult.vias]. apply H. simpl. done.
Qed.


(** *** [route] *)

(** X25.  When the search stops, the closed list holds every node the
    loop expanded once: no cell of a layer occurs in it twice, the closed
    set holds the cells of the list, [nodes_explored] is its length, and
    it does not exceed [iterations].  [route] returns with these counters
    in the pathfinder. *)
Theorem search_closed_distinct :
  closed_consistent (final_state search) /\
  exists result pf',
    route = Some (result, pf') /\
    get_nodes_explored pf' = Z.of_nat (length (closed_list (final_state search))) /\
    0 <= get_nodes_explored pf' <= get_iterations pf'.
Proof.
  assert (closed_consistent (final_state search)) as H.
  { apply search_loop_consistent.
    destruct initial_search_nodes as (H1 & H2 & H3 & H4 & _).
    unfold closed_consistent. rewrite H1, H2, H3, H4. simpl.
    split; [done|]. split; [done|]. split; [apply NoDup_nil_2|].
    intros k. split; intros Hk; [by apply elem_of_empty in Hk|by apply elem_of_nil in Hk]. }
  split; [done|].
  destruct (route_returns choose pf start_x start_y start_layer end_x end_y end_layer
              net start_layers end_layers negotiated_mode present_cost_factor weight)
    as [result Hr].
  exists result, (with_statistics pf (final_state search)).
  split; [done|]. destruct H as (H1 & H2 & _).
  unfold get_nodes_explored, get_iterations. simpl. split; [done|]. lia.
Qed.

(** X27.  [route] reports success only when the search closed a node on
    the end cell, on a valid end layer, and the g-score of that node is
    the cost of a path of moves from the start cell that the search
    allows one by one. *)
Theorem route_success_sound :
  exists result,
    route = Some (result, with_statistics pf (final_state search)) /\
    (RouteResult.success result = true ->
     exists goal sl moves,
       goal ∈ closed_list (final_state search) /\
       goal_test pf end_x end_y end_layer end_layers goal = true /\
       legal_path_cost pf start_x start_y start_layer end_x end_y end_layer net
         start_layers end_layers negotiated_mode present_cost_factor sl moves
       = Some (AStarNode.g_score goal)).
Proof.
  destruct (route_returns choose pf start_x start_y start_layer end_x end_y end_layer
              net start_layers end_layers negotiated_mode present_cost_factor weight)
    as [result Hr].
  exists result. split; [done|]. intros Hs.
  unfold Pathfinder.route in Hr.
  destruct search as [idx st|st|st] eqn:Hsearch.
  - destruct (search_found_cost choose pf start_x start_y start_layer end_x end_y
                end_layer net start_layers end_layers negotiated_mode
                present_cost_factor weight idx st Hsearch)
      as (goal & sl & moves & Hg & Hc).
    exists goal, sl, moves. simpl. split; [by eapply list_elem_of_lookup_2|].
    split; [|done]. unfold legal_path_cost in Hc.
    destruct (contains _ sl); [|done]. destruct (follow _ _ _ _ _ _ _ _ _ _ _ _ _ _);
      [|done].
    destruct (goal_test pf end_x end_y end_layer end_layers t0) eqn:E; [|done].
    injection Hc as Hc.
    pose proof (search_loop_realizable choose pf start_x start_y start_layer end_x
                  end_y end_layer net start_layers end_layers negotiated_mode
                  present_cost_factor weight (Z.to_nat (max_iterations pf))
                  initial_search
                  (initial_search_realizable pf start_x start_y start_layer end_x
                     end_y end_layer net start_layers end_layers negotiated_mode
                     present_cost_factor)) as [_ Hgoal].
    fold search in Hgoal. rewrite Hsearch in Hgoal.
    destruct Hgoal as (goal' & Hg' & Ht). rewrite Hg in Hg'. by injection Hg' as <-.
  - injection Hr as <-. done.
  - injection Hr as <-. done.
Qed.

(** X28.  [route] returns, and every via of the route it returns joins
    two different layers, the second of which is one of the routable
    layers of the pathfinder. *)
Theorem route_vias_change_layer :
  exists result,
    route = Some (result, with_statistics pf (final_state search)) /\
    Forall (via_changes_layer pf) (RouteResult.vias result).
Proof.
  destruct (route_returns choose pf start_x start_y start_layer end_x end_y end_layer
              net start_layers end_layers negotiated_mode present_cost_factor weight)
    as [result Hr].
  exists result. split; [done|].
  pose proof search_linked as Hlink.
  destruct (search_spec choose pf start_x start_y start_layer end_x end_y end_layer
              net start_layers end_layers negotiated_mode present_cost_factor weight)
    as (Hcl & _ & Hidx).
  unfold Pathfinder.route in Hr.
  destruct search as [idx st|st|st]; simpl in *.
  - destruct (reconstruct_path _ _ _ _ _ _ _ _) as [r|] eqn:Hrec; [|done].
    injection Hr as <-. simpl.
    apply (reconstruct_path_vias (closed_list st) idx r); try done.
    intros n Hn. apply Hlink. by right.
  - injection Hr as <-. done.
  - injection Hr as <-. done.
Qed.

End Route.

End SearchFacts.
